(** * The RXP search-engine adapter (src/search_engines/rxp.cc)

    A shallow embedding of the pattern escaper, the per-instance pattern
    registry, the finalisation pass, the synchronous search, the rule file
    writer and the set-up of the device of the Titan IC RXP multi-pattern
    search engine of Snort 3, with the properties of its specification and
    further properties of the code stated and proved over the embedding.

    Conventions.
    - [uint64_t], [uint16_t] and [int] values are integers of [Z] and every
      conversion or increment writes its wrap-around out ([wrap64],
      [wrap16], [to_int]).
    - [void*] handles are integers, [0] being [nullptr].
    - [RxpPattern] objects live in a heap, a list indexed by address; the
      pattern vector of an instance and its rule-id table both hold
      addresses, so an object reached through either is the same object.
    - A function that can dereference a null pointer, read past an array
      or spin in the polling loop returns an [outcome].
    - <ctype.h> is that of the "C" locale, and a byte sequence is shorter
      than the range of the [int] that indexes it.

    - The rule file is the text written to the stream; the compiler, the
      start of the device and the loading of the rules are calls whose
      status an environment gives, and [exit] is a way for a function to
      end.

    - Destruction is in a model of its own ([Process]): an instance that
      was destroyed stays in [instances], as a position marked destroyed,
      and to work on it is a fault.

    The statistics printer is not embedded. *)

From Stdlib Require Import ZArith List String Ascii Lia Bool DecimalString.
From Stdlib.Strings Require Import Byte.
From stdpp Require Import base option list gmap.

Local Open Scope Z_scope.

(** ** Machine integers *)

Definition wrap64 (z : Z) : Z := z mod 2 ^ 64.
Definition wrap16 (z : Z) : Z := z mod 2 ^ 16.

(** Conversion to a 32-bit [int] (two's complement). *)
Definition to_int (z : Z) : Z := (z + 2 ^ 31) mod 2 ^ 32 - 2 ^ 31.

(** ** The pattern escaper *)

Module Escaper.

(** <ctype.h> in the "C" locale. *)
Definition isdigit (c : Z) : bool := (48 <=? c) && (c <=? 57).
Definition isupper (c : Z) : bool := (65 <=? c) && (c <=? 90).
Definition islower (c : Z) : bool := (97 <=? c) && (c <=? 122).
Definition isalpha (c : Z) : bool := isupper c || islower c.
Definition isalnum (c : Z) : bool := isalpha c || isdigit c.

(** The digit that [%x] prints for a value below sixteen. *)
Definition hex_digit (d : Z) : ascii :=
  if d <? 10 then ascii_of_N (Z.to_N (48 + d))
  else ascii_of_N (Z.to_N (97 + (d - 10))).

(** The digits of [v] in base sixteen, most significant first, as [%x]
    prints them; [fuel] bounds the number of digits. *)
Fixpoint hex_of (fuel : nat) (v : Z) (acc : string) : string :=
  match fuel with
  | O => acc
  | S fuel' =>
      let acc' := String (hex_digit (v mod 16)) acc in
      if v / 16 =? 0 then acc' else hex_of fuel' (v / 16) acc'
  end.

(** Left padding with ['0'] up to [width] characters: the [0] flag and the
    field width of [%02x]. *)
Fixpoint zero_pad (n : nat) (s : string) : string :=
  match n with
  | O => s
  | S n' => String "0"%char (zero_pad n' s)
  end.

Definition format_02x (v : Z) : string :=
  let digits := hex_of 16 v EmptyString in
  zero_pad (2 - String.length digits) digits.

(** [sprintf(hexbyte, "\\x%02x", pat[i])]. *)
Definition sprintf_hexbyte (v : Z) : string :=
  String "\"%char (String "x"%char (format_02x v)).

Definition byte_value (b : byte) : Z := Z.of_N (Byte.to_N b).

(** The body of the [for] loop, appending to [escpat]. *)
Fixpoint escape_loop (pat : list byte) (escpat : string) : string :=
  match pat with
  | [] => escpat
  | c :: rest =>
      if negb (isalnum (byte_value c))
      then escape_loop rest (String.append escpat (sprintf_hexbyte (byte_value c)))
      else escape_loop rest (String.append escpat (String (ascii_of_byte c) EmptyString))
  end.

(** [rxp_escape_pattern]: [None] is the [nullptr] returned for [len == 0]. *)
Definition rxp_escape_pattern (pat : list byte) : option string :=
  if (Z.of_nat (length pat) =? 0) then None
  else Some (escape_loop pat EmptyString).

(** *** The escaped text as the specification words it *)

Definition is_ascii_letter (b : byte) : bool :=
  let n := Byte.to_N b in
  ((65 <=? n) && (n <=? 90) || (97 <=? n) && (n <=? 122))%N.

Definition is_ascii_digit (b : byte) : bool :=
  let n := Byte.to_N b in ((48 <=? n) && (n <=? 57))%N.

Definition lowercase_hex : list ascii :=
  list_ascii_of_string "0123456789abcdef".

Definition nibble (n : N) : ascii := nth (N.to_nat n) lowercase_hex "?"%char.

(** One byte of input: itself when alphanumeric, the four characters
    backslash, x, high digit, low digit otherwise. *)
Definition rendered (b : byte) : string :=
  if is_ascii_letter b || is_ascii_digit b
  then String (ascii_of_byte b) EmptyString
  else String "\"%char (String "x"%char
         (String (nibble (Byte.to_N b / 16)) (String (nibble (Byte.to_N b mod 16)) EmptyString))).

Definition escaped_text (pat : list byte) : string :=
  fold_right String.append EmptyString (map rendered pat).

End Escaper.

Export Escaper.

(** ** Outcomes and the state monad *)

(** What goes wrong in the C++ text: a null pointer is dereferenced, an
    address holds no object, an array is read past its end. *)
Inductive fault : Type := NullDeref | BadAddress | OutOfBounds.

(** The result of running a member function: it returns normally, it
    crashes, or it is still spinning in the response loop when the fuel
    given to the loop is used up. *)
Inductive outcome (A : Type) : Type :=
| Ok (a : A)
| Fault (f : fault)
| Spinning.

Arguments Ok {A} a.
Arguments Fault {A} f.
Arguments Spinning {A}.

Definition M (S A : Type) : Type := S -> outcome (A * S).

Definition ret {S A} (a : A) : M S A := fun s => Ok (a, s).

Definition bind {S A B} (m : M S A) (k : A -> M S B) : M S B :=
  fun s =>
    match m s with
    | Ok (a, s') => k a s'
    | Fault f => Fault f
    | Spinning => Spinning
    end.

Definition crash {S A} (f : fault) : M S A := fun _ => Fault f.
Definition gets {S A} (f : S -> A) : M S A := fun s => Ok (f s, s).
Definition modify {S} (f : S -> S) : M S unit := fun s => Ok (tt, f s).

(** Dereference: [None] stands for the failed access [f]. *)
Definition deref {S A} (f : fault) (o : option A) : M S A :=
  match o with
  | Some a => ret a
  | None => crash f
  end.

Declare Scope rxp_scope.
Delimit Scope rxp_scope with rxp.

Notation "x <- m ;; k" := (bind m (fun x => k))
  (at level 100, m at next level, right associativity) : rxp_scope.
Notation "m ;;; k" := (bind m (fun _ => k))
  (at level 100, right associativity) : rxp_scope.

Local Open Scope rxp_scope.

(** ** The data model *)

(** What the engine does to the world outside it, in the order it does it:
    log lines ([LogMessage], log/messages.h), calls of the RXP library,
    calls of the host's match callback and of the host agent's hooks, each
    with the arguments the source passes. *)
Inductive event : Type :=
| LogMessage (format : string) (args : list Z)
| rxp_prepare_job (port job_id : Z) (buf : list byte) (len ctrl : Z)
                  (subset1 subset2 subset3 subset4 : Z)
| rxp_enqueue_job (port queue job_buf : Z)
| rxp_dispatch_jobs (port queue : Z)
| rxp_get_responses (port queue nb_pkts : Z)
| rxp_get_response_data (pkt : Z)
| rxp_free_buffer (pkt : Z)
| MpseMatch_call (user tree index context list : Z)
| agent_build_tree (sc user tree : Z)
| agent_negate_list (user list : Z).

(** [struct UserCtx]. *)
Record UserCtx : Type := mkUserCtx {
  user : Z;
  user_tree : Z;
  user_list : Z
}.

(** [UserCtx::UserCtx(void *u)]. *)
Definition UserCtx_ctor (u : Z) : UserCtx :=
  {| user := u; user_tree := 0; user_list := 0 |}.

(** Modelled from the spec: the descriptor of a pattern, whose declaration
    ([Mpse::PatternDescriptor], framework/mpse.h) is not among the sources.
    It carries the case and negation flags; these are the two fields
    [RxpPattern::RxpPattern] reads. *)
Record PatternDescriptor : Type := mkDescriptor {
  desc_no_case : bool;
  desc_negated : bool
}.

(** [struct RxpPattern]; [pat] is a [std::string*], [None] when null. *)
Record RxpPattern : Type := mkRxpPattern {
  pat : option string;
  ruleid : Z;
  no_case : bool;
  negate : bool;
  userctx : list UserCtx
}.

(** [RxpPattern::RxpPattern]; the constructor leaves [ruleid] unset, the
    caller assigns it at once, so it is an argument here. *)
Definition RxpPattern_ctor (pattern : option string) (d : PatternDescriptor)
    (u : Z) (id : Z) : RxpPattern :=
  {| pat := pattern; ruleid := id;
     no_case := desc_no_case d; negate := desc_negated d;
     userctx := [UserCtx_ctor u] |}.

Definition push_userctx (c : UserCtx) (P : RxpPattern) : RxpPattern :=
  {| pat := pat P; ruleid := ruleid P; no_case := no_case P;
     negate := negate P; userctx := userctx P ++ [c] |}.

Definition set_userctx (cs : list UserCtx) (P : RxpPattern) : RxpPattern :=
  {| pat := pat P; ruleid := ruleid P; no_case := no_case P;
     negate := negate P; userctx := cs |}.

(** Modelled from the spec: the host agent capability, whose declaration
    ([MpseAgent], framework/mpse.h) is not among the sources; of its hooks,
    the two that build the match tree and the negate list keyed by a
    handle, which is all that finalisation calls. A hook sees the events
    so far, so it may keep state, and answers with its return value and
    the new content of the slot it was given. *)
Record MpseAgent : Type := mkAgent {
  build_tree : list event -> Z -> Z -> Z -> Z * Z;
  negate_list : list event -> Z -> Z -> Z * Z
}.

(** [class RxpMpse]: the non-static members. [ruleidtbl] maps a rule id to
    a pattern address, [None] being the null pointer that
    [std::map::operator[]] stores for a key it did not hold. *)
Record RxpMpse : Type := mkRxpMpse {
  agent : MpseAgent;
  ruleidtbl : gmap Z (option nat);
  instance_id : Z;
  pats : list nat
}.

Definition set_ruleidtbl (t : gmap Z (option nat)) (e : RxpMpse) : RxpMpse :=
  {| agent := agent e; ruleidtbl := t; instance_id := instance_id e;
     pats := pats e |}.

Definition set_pats (ps : list nat) (e : RxpMpse) : RxpMpse :=
  {| agent := agent e; ruleidtbl := ruleidtbl e; instance_id := instance_id e;
     pats := ps |}.

(** The process: the heap of pattern objects, the static members of
    [RxpMpse], and the events so far. An instance is named by its
    position in [instances], the vector it registers itself in when it is
    constructed and never leaves. *)
Record Global : Type := mkGlobal {
  heap : list RxpPattern;
  instances : list RxpMpse;
  duplicates : Z;
  jobs_submitted : Z;
  match_limit : Z;
  patterns : Z;
  max_pattern_len : Z;
  portid : Z;
  trace : list event
}.

Definition set_heap (h : list RxpPattern) (g : Global) : Global :=
  mkGlobal h (instances g) (duplicates g) (jobs_submitted g) (match_limit g)
           (patterns g) (max_pattern_len g) (portid g) (trace g).
Definition set_instances (l : list RxpMpse) (g : Global) : Global :=
  mkGlobal (heap g) l (duplicates g) (jobs_submitted g) (match_limit g)
           (patterns g) (max_pattern_len g) (portid g) (trace g).
Definition set_duplicates (z : Z) (g : Global) : Global :=
  mkGlobal (heap g) (instances g) z (jobs_submitted g) (match_limit g)
           (patterns g) (max_pattern_len g) (portid g) (trace g).
Definition set_jobs_submitted (z : Z) (g : Global) : Global :=
  mkGlobal (heap g) (instances g) (duplicates g) z (match_limit g)
           (patterns g) (max_pattern_len g) (portid g) (trace g).
Definition set_match_limit (z : Z) (g : Global) : Global :=
  mkGlobal (heap g) (instances g) (duplicates g) (jobs_submitted g) z
           (patterns g) (max_pattern_len g) (portid g) (trace g).
Definition set_patterns (z : Z) (g : Global) : Global :=
  mkGlobal (heap g) (instances g) (duplicates g) (jobs_submitted g)
           (match_limit g) z (max_pattern_len g) (portid g) (trace g).
Definition set_max_pattern_len (z : Z) (g : Global) : Global :=
  mkGlobal (heap g) (instances g) (duplicates g) (jobs_submitted g)
           (match_limit g) (patterns g) z (portid g) (trace g).
Definition set_trace (t : list event) (g : Global) : Global :=
  mkGlobal (heap g) (instances g) (duplicates g) (jobs_submitted g)
           (match_limit g) (patterns g) (max_pattern_len g) (portid g) t.

(** The static initialisers of lines 175-181. *)
Definition process_start : Global :=
  {| heap := []; instances := []; duplicates := 0; jobs_submitted := 0;
     match_limit := 0; patterns := 0; max_pattern_len := 0; portid := 0;
     trace := [] |}.

Definition emit (e : event) : M Global unit :=
  modify (fun g => set_trace (trace g ++ [e]) g).

(** [this->...]: the instance object behind the pointer. *)
Definition this_instance (this : nat) : M Global RxpMpse :=
  fun g => deref BadAddress (instances g !! this) g.

Definition store_instance (this : nat) (e : RxpMpse) : M Global unit :=
  modify (fun g => set_instances (<[this := e]> (instances g)) g).

(** [*p] for a pattern pointer [p]. *)
Definition load_pattern (p : nat) : M Global RxpPattern :=
  fun g => deref BadAddress (heap g !! p) g.

Definition store_pattern (p : nat) (P : RxpPattern) : M Global unit :=
  modify (fun g => set_heap (<[p := P]> (heap g)) g).

(** ** The registry *)

(** [RxpMpse::RxpMpse] behind [rxp_ctor]: the new instance registers itself
    and takes the size of the vector as its subset id. *)
Definition rxp_ctor (a : MpseAgent) : M Global nat :=
  fun g =>
    let this := length (instances g) in
    let e := {| agent := a; ruleidtbl := ∅;
                instance_id := wrap64 (Z.of_nat (length (instances g)) + 1);
                pats := [] |} in
    Ok (this, set_instances (instances g ++ [e]) g).

(** [int get_pattern_count() { return pats.size(); }] *)
Definition get_pattern_count (this : nat) : M Global Z :=
  e <- this_instance this ;;
  ret (to_int (Z.of_nat (length (pats e)))).

(** The search loop of [add_pattern], lines 232-238: the first pattern
    whose text equals [*pattern]. Comparing dereferences both strings. *)
Fixpoint find_pattern (pattern : option string) (ps : list nat)
  : M Global (option nat) :=
  match ps with
  | [] => ret None
  | p :: rest =>
      P <- load_pattern p ;;
      s <- deref NullDeref (pat P) ;;
      t <- deref NullDeref pattern ;;
      if String.eqb s t then ret (Some p) else find_pattern pattern rest
  end.

(** [RxpMpse::add_pattern]; [bytes] are the [len] bytes at [pat]. *)
Definition add_pattern (this : nat) (bytes : list byte)
    (desc : PatternDescriptor) (user : Z) : M Global Z :=
  let len := Z.of_nat (length bytes) in
  let pattern := rxp_escape_pattern bytes in
  e <- this_instance this ;;
  rxp_pat <- find_pattern pattern (pats e) ;;
  match rxp_pat with
  | Some p =>
      P <- load_pattern p ;;
      store_pattern p (push_userctx (UserCtx_ctor user) P) ;;;
      modify (fun g => set_duplicates (wrap64 (duplicates g + 1)) g) ;;;
      ret 0
  | None =>
      p <- gets (fun g => length (heap g)) ;;
      modify (fun g => set_patterns (wrap64 (patterns g + 1)) g) ;;;
      id <- gets (fun g => wrap16 (patterns g)) ;;
      modify (fun g =>
        set_heap (heap g ++ [RxpPattern_ctor pattern desc user id]) g) ;;;
      store_instance this (set_ruleidtbl (<[id := Some p]> (ruleidtbl e)) e) ;;;
      modify (fun g =>
        if len >? max_pattern_len g then set_max_pattern_len len g else g) ;;;
      e' <- this_instance this ;;
      store_instance this (set_pats (pats e' ++ [p]) e') ;;;
      ret 0
  end.

(** [rxp_init], the reset hook of the module. *)
Definition rxp_init : M Global unit :=
  modify (fun g => set_jobs_submitted 0 g) ;;;
  modify (fun g => set_match_limit 0 g) ;;;
  modify (fun g => set_patterns 0 g) ;;;
  modify (fun g => set_max_pattern_len 0 g).

(** ** The RXP library *)

(** Modelled from the spec: the decoded response of the device, whose
    declarations ([struct rxp_match_data], [struct rxp_response_data],
    rxp.h) are not among the sources. A match entry is a rule identifier,
    a start offset and a length; a response is a match count, a count of
    matches "detected but not returned" and the sequence of entries.
    The field names are those [rxp_search] uses. *)
Record rxp_match_data : Type := mkMatch {
  rule_id : Z;
  start_ptr : Z;
  length : Z
}.

Record rxp_response_data : Type := mkResponse {
  match_count : Z;
  detected_match_count : Z;
  match_data : list rxp_match_data
}.

(** Modelled from the spec: the job-submission and response-decoding API
    of the device (rxp.h, not among the sources), as far as [rxp_search]
    can tell: the maximum job size (an [int]: the source prints it with
    [%d]) and, for each call that hands something back, what it hands back
    given all events up to and including the call. *)
Record RxpLibrary : Type := mkLibrary {
  RXP_MAX_JOB_LENGTH : Z;
  (* return value, job_buf *)
  prepare_job_result : list event -> Z * Z;
  (* return value, rx_pkts, pkts_burst[0] *)
  get_responses_result : list event -> Z * Z * Z;
  (* return value, rxp_resp *)
  get_response_data_result : list event -> Z * rxp_response_data
}.

(** Modelled from the spec: the host match callback ([MpseMatch],
    framework/mpse.h, not among the sources), called with a handle, a match
    tree, an end offset, the caller's state and a negate list, and
    returning an [int]: here the value it returns, given the events up to
    and including its call. *)
Definition MpseMatch : Type := list event -> Z.

(** ** Finalisation *)

(** The body of the inner loop of [user_ctor], lines 194-201, on one
    context of a pattern whose negation flag is [neg]. *)
Definition ctor_context (a : MpseAgent) (sc : Z) (neg : bool) (c : UserCtx)
  : M Global UserCtx :=
  c1 <- (if user c =? 0 then ret c
         else if neg then
           emit (agent_negate_list (user c) (user_list c)) ;;;
           r <- gets (fun g => negate_list a (trace g) (user c) (user_list c)) ;;
           ret {| user := user c; user_tree := user_tree c; user_list := snd r |}
         else
           emit (agent_build_tree sc (user c) (user_tree c)) ;;;
           r <- gets (fun g => build_tree a (trace g) sc (user c) (user_tree c)) ;;
           ret {| user := user c; user_tree := snd r; user_list := user_list c |}) ;;
  emit (agent_build_tree sc 0 (user_tree c1)) ;;;
  r <- gets (fun g => build_tree a (trace g) sc 0 (user_tree c1)) ;;
  ret {| user := user c1; user_tree := snd r; user_list := user_list c1 |}.

(** [for ( auto& c : p->userctx )]: every context in turn, by reference. *)
Fixpoint ctor_contexts (a : MpseAgent) (sc : Z) (neg : bool)
    (cs : list UserCtx) : M Global (list UserCtx) :=
  match cs with
  | [] => ret []
  | c :: rest =>
      c' <- ctor_context a sc neg c ;;
      rest' <- ctor_contexts a sc neg rest ;;
      ret (c' :: rest')
  end.

Definition ctor_pattern (a : MpseAgent) (sc : Z) (p : nat) : M Global unit :=
  P <- load_pattern p ;;
  cs <- ctor_contexts a sc (negate P) (userctx P) ;;
  store_pattern p (set_userctx cs P).

(** [for ( auto& p : pats )]. *)
Fixpoint ctor_patterns (a : MpseAgent) (sc : Z) (ps : list nat)
  : M Global unit :=
  match ps with
  | [] => ret tt
  | p :: rest => ctor_pattern a sc p ;;; ctor_patterns a sc rest
  end.

(** [RxpMpse::user_ctor]. *)
Definition user_ctor (this : nat) (sc : Z) : M Global unit :=
  e <- this_instance this ;;
  ctor_patterns (agent e) sc (pats e).

(** [RxpMpse::prep_patterns]. *)
Definition prep_patterns (this : nat) (sc : Z) : M Global Z :=
  user_ctor this sc ;;; ret 0.

(** ** Search *)

Section Search.

Context (lib : RxpLibrary).

(** Lines 291-295: ask for one response until one is there. The loop has
    no bound in the source; [fuel] is the number of rounds looked at. *)
Fixpoint await_response (fuel : nat) : M Global Z :=
  match fuel with
  | O => fun _ => Spinning
  | S fuel' =>
      port <- gets portid ;;
      emit (rxp_get_responses port 0 1) ;;;
      r <- gets (fun g => get_responses_result lib (trace g)) ;;
      if snd (fst r) =? 0 then await_response fuel' else ret (snd r)
  end.

(** Lines 315-318: the callback once for each context, in order; what it
    returns is dropped. *)
Fixpoint fire (mf : MpseMatch) (to pv : Z) (cs : list UserCtx)
  : M Global unit :=
  match cs with
  | [] => ret tt
  | c :: rest =>
      emit (MpseMatch_call (user c) (user_tree c) to pv (user_list c)) ;;;
      _ <- gets (fun g => mf (trace g)) ;;
      fire mf to pv rest
  end.

(** [ruleidtbl[id]]: [std::map::operator[]] adds a null entry for a key
    the table does not hold. *)
Definition ruleidtbl_at (this : nat) (id : Z) : M Global (option nat) :=
  e <- this_instance this ;;
  match ruleidtbl e !! id with
  | Some v => ret v
  | None =>
      store_instance this (set_ruleidtbl (<[id := None]> (ruleidtbl e)) e) ;;;
      ret None
  end.

(** The body of the loop over the returned matches, lines 312-318. *)
Definition dispatch_match (this : nat) (mf : MpseMatch) (pv : Z)
    (m : rxp_match_data) : M Global unit :=
  let to := to_int (start_ptr m + length m) in
  pat <- ruleidtbl_at this (rule_id m) ;;
  p <- deref NullDeref pat ;;
  P <- load_pattern p ;;
  fire mf to pv (userctx P).

(** [for (i = 0; i < rxp_resp.match_count; i++)], with [n] rounds left. *)
Fixpoint dispatch_matches (this : nat) (mf : MpseMatch) (pv : Z)
    (resp : rxp_response_data) (n i : nat) : M Global unit :=
  match n with
  | O => ret tt
  | S n' =>
      m <- deref OutOfBounds (match_data resp !! i) ;;
      dispatch_match this mf pv m ;;;
      dispatch_matches this mf pv resp n' (S i)
  end.

(** [RxpMpse::rxp_search], lines 276-297: clamp, submit, wait, decode.
    [buf] is the buffer and [n] the length passed. The values of
    [rxp_enqueue_job] and [rxp_dispatch_jobs] are overwritten unread.
    The result is [pkts_burst[0]], the decoder's return value and
    [rxp_resp]. *)
Definition submit_and_await (fuel : nat) (this : nat) (buf : list byte)
    (n : Z) : M Global (Z * Z * rxp_response_data) :=
  e <- this_instance this ;;
  n <- (if n >? RXP_MAX_JOB_LENGTH lib
        then
          emit (LogMessage "WARNING: Truncating search from %d bytes to %d.\n"
                           [n; RXP_MAX_JOB_LENGTH lib]) ;;;
          ret (RXP_MAX_JOB_LENGTH lib)
        else ret n) ;;
  modify (fun g => set_jobs_submitted (wrap64 (jobs_submitted g + 1)) g) ;;;
  port <- gets portid ;;
  job_id <- gets jobs_submitted ;;
  emit (rxp_prepare_job port job_id buf n 0 (instance_id e) (instance_id e)
                        (instance_id e) (instance_id e)) ;;;
  job <- gets (fun g => prepare_job_result lib (trace g)) ;;
  emit (rxp_enqueue_job port 0 (snd job)) ;;;
  emit (rxp_dispatch_jobs port 0) ;;;
  pkt <- await_response fuel ;;
  emit (rxp_get_response_data pkt) ;;;
  decoded <- gets (fun g => get_response_data_result lib (trace g)) ;;
  ret (pkt, fst decoded, snd decoded).

(** Lines 299-320: what is done with the decoded response. *)
Definition process_response (this : nat) (mf : MpseMatch) (pv : Z)
    (status : Z) (rxp_resp : rxp_response_data) : M Global unit :=
  (if status =? 0 then ret tt
   else emit (LogMessage "ERROR: %d decoding RXP response.\n" [status])) ;;;
  if match_count rxp_resp =? 0 then ret tt
  else
    (if detected_match_count rxp_resp >? match_count rxp_resp
     then
       emit (LogMessage "WARNING: Detected %u matches but only %u returned.\n"
               [detected_match_count rxp_resp; match_count rxp_resp]) ;;;
       modify (fun g => set_match_limit (wrap64 (match_limit g + 1)) g)
     else ret tt) ;;;
    dispatch_matches this mf pv rxp_resp (Z.to_nat (match_count rxp_resp)) 0.

(** [RxpMpse::rxp_search]. *)
Definition rxp_search (fuel : nat) (this : nat) (buf : list byte) (n : Z)
    (mf : MpseMatch) (pv : Z) : M Global Z :=
  r <- submit_and_await fuel this buf n ;;
  process_response this mf pv (snd (fst r)) (snd r) ;;;
  emit (rxp_free_buffer (fst (fst r))) ;;;
  ret 0.

(** [RxpMpse::_search]: the result and the value left in [*current_state]. *)
Definition _search (fuel : nat) (this : nat) (buf : list byte) (n : Z)
    (mf : MpseMatch) (pv : Z) : M Global (Z * Z) :=
  rxp_search fuel this buf n mf pv ;;;
  ret (0, 0).

End Search.

(** ** A worked scenario *)

Definition GET : list byte := [x47; x45; x54].
Definition quiet_agent : MpseAgent :=
  {| build_tree := fun _ _ _ t => (0, t); negate_list := fun _ _ l => (0, l) |}.
Definition plain : PatternDescriptor := mkDescriptor false false.

Definition is_get_responses (e : event) : bool :=
  match e with rxp_get_responses _ _ _ => true | _ => false end.

(** A device that holds jobs of up to 16 bytes, has its response ready at
    the third time of asking, and reports [resp]. *)
Definition toy_device (resp : rxp_response_data) : RxpLibrary :=
  {| RXP_MAX_JOB_LENGTH := 16;
     prepare_job_result := fun _ => (0, 7000);
     get_responses_result := fun h =>
       if (Nat.modulo (List.length (List.filter is_get_responses h)) 3 =? 0)%nat
       then (0, 1, 9000) else (0, 0, 0);
     get_response_data_result := fun _ => (0, resp) |}.

Definition stop_always : MpseMatch := fun _ => 1.

Definition scenario_GET_twice : M Global Z :=
  this <- rxp_ctor quiet_agent ;;
  add_pattern this GET plain 101 ;;;
  add_pattern this GET plain 102 ;;;
  prep_patterns this 55 ;;;
  rxp_search (toy_device (mkResponse 1 1 [mkMatch 1 7 3])) 5 this GET 3 stop_always 77 ;;;
  get_pattern_count this.

(** ** Predicates of the statements *)

(** The text of the pattern object at address [p], when there is one. *)
Definition text_of (g : Global) (p : nat) : option string :=
  match heap g !! p with
  | Some P => pat P
  | None => None
  end.

(** Every pattern the instance holds is an object with a text. *)
Definition texts_present (g : Global) (e : RxpMpse) : Prop :=
  forall p, In p (pats e) -> exists s, text_of g p = Some s.

(** The instance holds a pattern whose text is [t]. *)
Definition holds_text (g : Global) (e : RxpMpse) (t : string) : Prop :=
  exists p, In p (pats e) /\ text_of g p = Some t.

(** [p], at position [i], is the first pattern of the instance with text
    [t]. *)
Definition first_holder (g : Global) (e : RxpMpse) (t : string)
    (i p : nat) : Prop :=
  pats e !! i = Some p /\ text_of g p = Some t /\
  forall j q, (j < i)%nat -> pats e !! j = Some q -> text_of g q <> Some t.

(** The state after [add_pattern] has made a new pattern. *)
Definition with_new_pattern (this : nat) (e : RxpMpse)
    (pattern : option string) (len : Z) (desc : PatternDescriptor) (u : Z)
    (g : Global) : Global :=
  let id := wrap16 (wrap64 (patterns g + 1)) in
  let p := List.length (heap g) in
  {| heap := heap g ++ [RxpPattern_ctor pattern desc u id];
     instances :=
       <[this := {| agent := agent e;
                    ruleidtbl := <[id := Some p]> (ruleidtbl e);
                    instance_id := instance_id e;
                    pats := pats e ++ [p] |}]> (instances g);
     duplicates := duplicates g;
     jobs_submitted := jobs_submitted g;
     match_limit := match_limit g;
     patterns := wrap64 (patterns g + 1);
     max_pattern_len := if len >? max_pattern_len g then len else max_pattern_len g;
     portid := portid g;
     trace := trace g |}.

(** ** Concrete processes *)

(** The state a run leaves behind ([g] itself if the run does not return). *)
Definition state_after {A} (m : M Global A) (g : Global) : Global :=
  match m g with
  | Ok (_, g') => g'
  | _ => g
  end.

(** One instance, no pattern yet. *)
Definition one_instance : Global := state_after (rxp_ctor quiet_agent) process_start.

(** One instance holding "GET" for the rule with handle 101. *)
Definition registry_GET : Global :=
  state_after (add_pattern 0 GET plain 101) one_instance.

(** The instance at position [this], for states that have one. *)
Definition instance_at (g : Global) (this : nat) : RxpMpse :=
  nth this (instances g)
      {| agent := quiet_agent; ruleidtbl := ∅; instance_id := 0; pats := [] |}.

(** A new instance given the one-byte pattern "a"; the result is the rule
    identifier of the pattern object that [add_pattern] made for it. *)
Definition open_instance_with_a : M Global Z :=
  this <- rxp_ctor quiet_agent ;;
  add_pattern this [x61] plain 0 ;;;
  e <- this_instance this ;;
  p <- deref OutOfBounds (last (pats e)) ;;
  P <- load_pattern p ;;
  ret (ruleid P).

(** [n] such instances one after the other, and the identifiers given. *)
Fixpoint open_instances (n : nat) : M Global (list Z) :=
  match n with
  | O => ret []
  | S n' =>
      id <- open_instance_with_a ;;
      ids <- open_instances n' ;;
      ret (id :: ids)
  end.

(** The identifiers [n] successive new patterns get when the allocator
    stands at [c]. *)
Fixpoint ids_from (c : Z) (n : nat) : list Z :=
  match n with
  | O => []
  | S n' => wrap16 (wrap64 (c + 1)) :: ids_from (wrap64 (c + 1)) n'
  end.

(** ** What finalisation asks of the agent *)

(** A call of an agent hook, without the slot it is given. *)
Inductive request : Type :=
| NegateList (key : Z)
| BuildTree (key : Z).

Definition request_of (ev : event) : option request :=
  match ev with
  | agent_build_tree _ key _ => Some (BuildTree key)
  | agent_negate_list key _ => Some (NegateList key)
  | _ => None
  end.

Definition requests (evs : list event) : list request := omap request_of evs.

(** For a context with handle [key] of a pattern with negation flag [neg]:
    the negate list or the match tree of a non-null handle, then the tree
    keyed by null. *)
Definition requests_for (neg : bool) (key : Z) : list request :=
  (if key =? 0 then []
   else [if neg then NegateList key else BuildTree key]) ++ [BuildTree 0].

Definition requests_for_pattern (P : RxpPattern) : list request :=
  flat_map (requests_for (negate P)) (map user (userctx P)).

Definition is_null_build (r : request) : bool :=
  match r with
  | BuildTree key => key =? 0
  | NegateList _ => false
  end.

Definition null_builds (rs : list request) : nat :=
  List.length (List.filter is_null_build rs).

(** What finalisation leaves alone in a pattern: everything but the tree
    and list slots of its contexts. *)
Definition shape (P : RxpPattern) : option string * Z * bool * bool * list Z :=
  (pat P, ruleid P, no_case P, negate P, map user (userctx P)).

(** The requests of the pattern at address [p]. *)
Definition requests_at (h : list RxpPattern) (p : nat) : list request :=
  match h !! p with
  | Some P => requests_for_pattern P
  | None => []
  end.

(** The reading of "built exactly once per Pattern": between [g] and [g']
    the agent was asked for as many null-keyed trees as the instance has
    patterns. *)
Definition default_tree_once_per_pattern (g g' : Global) (e : RxpMpse) : Prop :=
  null_builds (requests (drop (List.length (trace g)) (trace g'))) =
  List.length (pats e).

(** One instance holding "GET" for the rules with handles 101 and 102. *)
Definition registry_GET_twice : Global :=
  state_after (add_pattern 0 GET plain 102) registry_GET.

(** ** What a search does, in events *)

Definition truncation_format : string :=
  "WARNING: Truncating search from %d bytes to %d.\n".
Definition decode_error_format : string :=
  "ERROR: %d decoding RXP response.\n".
Definition match_limit_format : string :=
  "WARNING: Detected %u matches but only %u returned.\n".

Definition is_truncation_warning (ev : event) : bool :=
  match ev with
  | LogMessage f _ => String.eqb f truncation_format
  | _ => false
  end.

Definition is_match_limit_warning (ev : event) : bool :=
  match ev with
  | LogMessage f _ => String.eqb f match_limit_format
  | _ => false
  end.

Definition is_callback (ev : event) : bool :=
  match ev with
  | MpseMatch_call _ _ _ _ _ => true
  | _ => false
  end.

(** The job lengths handed to [rxp_prepare_job]. *)
Definition submitted_lengths (evs : list event) : list Z :=
  omap (fun ev => match ev with
                  | rxp_prepare_job _ _ _ len _ _ _ _ _ => Some len
                  | _ => None
                  end) evs.

(** [k] rounds of the response loop. *)
Definition polls (port : Z) (k : nat) : list event :=
  repeat (rxp_get_responses port 0 1) k.

(** The calls of the callback for the match [m] of the pattern object [P]:
    one per context, in the order of the vector. *)
Definition callbacks (pv : Z) (m : rxp_match_data) (P : RxpPattern)
  : list event :=
  map (fun c => MpseMatch_call (user c) (user_tree c)
                  (to_int (start_ptr m + length m)) pv (user_list c))
      (userctx P).

(** The table of the instance sends the rule identifier of [m] to the
    pattern object [P]. *)
Definition resolves (h : list RxpPattern) (e : RxpMpse) (m : rxp_match_data)
    (P : RxpPattern) : Prop :=
  exists p, ruleidtbl e !! rule_id m = Some (Some p) /\ h !! p = Some P.

(** [start_ptr + length] is a value of [int]. *)
Definition offset_fits (m : rxp_match_data) : Prop :=
  - 2 ^ 31 <= start_ptr m + length m < 2 ^ 31.

(** The matches the loop of [rxp_search] visits. *)
Definition returned_matches (resp : rxp_response_data) : list rxp_match_data :=
  take (Z.to_nat (match_count resp)) (match_data resp).

Section SearchEvents.

Context (lib : RxpLibrary).

(** The device has a response, [pkt], at the [k+1]-th time of asking after
    the events [h], and none before. *)
Definition ready_at (h : list event) (port : Z) (k : nat) (pkt : Z) : Prop :=
  (forall j, (j < k)%nat ->
     snd (fst (get_responses_result lib (h ++ polls port (S j)))) = 0) /\
  snd (fst (get_responses_result lib (h ++ polls port (S k)))) <> 0 /\
  snd (get_responses_result lib (h ++ polls port (S k))) = pkt.

Definition job_length (n : Z) : Z :=
  if n >? RXP_MAX_JOB_LENGTH lib then RXP_MAX_JOB_LENGTH lib else n.

Definition truncation_warning (n : Z) : list event :=
  if n >? RXP_MAX_JOB_LENGTH lib
  then [LogMessage truncation_format [n; RXP_MAX_JOB_LENGTH lib]]
  else [].

(** The events of a search by instance [e] up to the dispatch of the job. *)
Definition submission (g : Global) (e : RxpMpse) (buf : list byte) (n : Z)
  : list event :=
  let job := rxp_prepare_job (portid g) (wrap64 (jobs_submitted g + 1)) buf
               (job_length n) 0 (instance_id e) (instance_id e)
               (instance_id e) (instance_id e) in
  truncation_warning n ++
  [job;
   rxp_enqueue_job (portid g) 0
     (snd (prepare_job_result lib (trace g ++ truncation_warning n ++ [job])));
   rxp_dispatch_jobs (portid g) 0].

(** All events up to the decoding of the response. *)
Definition awaited (g : Global) (e : RxpMpse) (buf : list byte) (n : Z)
    (k : nat) (pkt : Z) : list event :=
  trace g ++ submission g e buf n ++ polls (portid g) (S k) ++
  [rxp_get_response_data pkt].

(** What the decoder hands back: its return value and [rxp_resp]. *)
Definition decoded (g : Global) (e : RxpMpse) (buf : list byte) (n : Z)
    (k : nat) (pkt : Z) : Z * rxp_response_data :=
  get_response_data_result lib (awaited g e buf n k pkt).

Definition limit_exceeded (resp : rxp_response_data) : bool :=
  negb (match_count resp =? 0) &&
  (detected_match_count resp >? match_count resp).

(** The events of lines 299-320 when the returned matches resolve to the
    pattern objects [Ps]. *)
Definition response_events (pv : Z) (status : Z) (resp : rxp_response_data)
    (Ps : list RxpPattern) : list event :=
  (if status =? 0 then [] else [LogMessage decode_error_format [status]]) ++
  (if limit_exceeded resp
   then [LogMessage match_limit_format
           [detected_match_count resp; match_count resp]]
   else []) ++
  concat (zip_with (callbacks pv) (returned_matches resp) Ps).

(** The state a search leaves behind when it returns. *)
Definition searched (g : Global) (e : RxpMpse) (buf : list byte) (n : Z)
    (k : nat) (pkt : Z) (pv : Z) (Ps : list RxpPattern) : Global :=
  let d := decoded g e buf n k pkt in
  {| heap := heap g;
     instances := instances g;
     duplicates := duplicates g;
     jobs_submitted := wrap64 (jobs_submitted g + 1);
     match_limit := if limit_exceeded (snd d)
                    then wrap64 (match_limit g + 1) else match_limit g;
     patterns := patterns g;
     max_pattern_len := max_pattern_len g;
     portid := portid g;
     trace := awaited g e buf n k pkt ++
              response_events pv (fst d) (snd d) Ps ++
              [rxp_free_buffer pkt] |}.

End SearchEvents.

(** The calls of the callback as the specification words them: the end
    offset is the start offset plus the length. *)
Definition expected_callbacks (pv : Z) (m : rxp_match_data) (P : RxpPattern)
  : list event :=
  map (fun c => MpseMatch_call (user c) (user_tree c)
                  (start_ptr m + length m) pv (user_list c))
      (userctx P).

(** The events of a search that returns, after those of [g]. *)
Definition search_events (lib : RxpLibrary) (g : Global) (e : RxpMpse)
    (buf : list byte) (n : Z) (k : nat) (pkt : Z) (pv : Z)
    (Ps : list RxpPattern) : list event :=
  submission lib g e buf n ++ polls (portid g) (S k) ++
  [rxp_get_response_data pkt] ++
  response_events pv (fst (decoded lib g e buf n k pkt))
                  (snd (decoded lib g e buf n k pkt)) Ps ++
  [rxp_free_buffer pkt].

(** Every entry of every rule-id table is the address of a pattern object
    that carries the entry's key as its rule identifier. *)
Definition tables_sound (g : Global) : Prop :=
  forall e id v,
    In e (instances g) -> ruleidtbl e !! id = Some v ->
    exists p P, v = Some p /\ heap g !! p = Some P /\ ruleid P = id.

(** No pattern object of the process carries [id]: no [add_pattern] call
    has assigned it. *)
Definition never_assigned (g : Global) (id : Z) : Prop :=
  forall P, In P (heap g) -> ruleid P <> id.

(** The pattern object at address [p], for states that have one. *)
Definition pattern_at (g : Global) (p : nat) : RxpPattern :=
  nth p (heap g)
      {| pat := None; ruleid := 0; no_case := false; negate := false;
         userctx := [] |}.

(** One match, of rule 1, from offset 7 and of length 3. *)
Definition one_match : rxp_response_data := mkResponse 1 1 [mkMatch 1 7 3].

(** One match, of a rule identifier that nobody was given. *)
Definition stray_match : rxp_response_data := mkResponse 1 1 [mkMatch 9 7 3].

(** Five matches detected, three returned. *)
Definition five_detected_three_returned : rxp_response_data :=
  mkResponse 3 5 [mkMatch 1 0 3; mkMatch 1 4 3; mkMatch 1 8 3].

(** Two matches detected, none returned. *)
Definition two_detected_none_returned : rxp_response_data :=
  mkResponse 0 2 [].

(** ** The life of a process *)

(** The calls the host makes on the engine while it destroys no instance
    (with the destructor: [pcall], below). *)
Inductive call : Type :=
| call_rxp_ctor (a : MpseAgent)
| call_add_pattern (this : nat) (bytes : list byte) (desc : PatternDescriptor)
                   (user : Z)
| call_prep_patterns (this : nat) (sc : Z)
| call_search (lib : RxpLibrary) (fuel : nat) (this : nat) (buf : list byte)
              (n : Z) (mf : MpseMatch) (pv : Z)
| call_rxp_init.

Definition run_call (c : call) : M Global unit :=
  match c with
  | call_rxp_ctor a => rxp_ctor a ;;; ret tt
  | call_add_pattern this bytes desc user =>
      add_pattern this bytes desc user ;;; ret tt
  | call_prep_patterns this sc => prep_patterns this sc ;;; ret tt
  | call_search lib fuel this buf n mf pv =>
      _search lib fuel this buf n mf pv ;;; ret tt
  | call_rxp_init => rxp_init
  end.

(** The states a process gets to from its start by calls that return and
    that satisfy [allowed]: the states of a process in which no instance
    has been destroyed (with destructors: [reachable_process], below). *)
Inductive reachable (allowed : call -> Prop) : Global -> Prop :=
| reachable_start : reachable allowed process_start
| reachable_call g c g' :
    reachable allowed g -> allowed c -> run_call c g = Ok (tt, g') ->
    reachable allowed g'.

Definition any_call (c : call) : Prop := True.

(** No pattern of length zero is added. *)
Definition no_empty_pattern (c : call) : Prop :=
  match c with
  | call_add_pattern _ bytes _ _ => bytes <> []
  | _ => True
  end.

(** Every pattern held by an instance of the process has a text. *)
Definition all_texts_present (g : Global) : Prop :=
  forall e, In e (instances g) -> texts_present g e.

(** Within an instance no two patterns have the same text. *)
Definition texts_distinct (g : Global) : Prop :=
  forall e, In e (instances g) -> NoDup (map (text_of g) (pats e)).

(** ** Reading an escaped text back *)

(** The value of a lowercase hexadecimal digit. *)
Definition hex_value (c : ascii) : option N :=
  let n := N_of_ascii c in
  if ((48 <=? n) && (n <=? 57))%N then Some (n - 48)%N
  else if ((97 <=? n) && (n <=? 102))%N then Some (n - 87)%N
  else None.

(** The bytes an escaped text stands for: a backslash opens a four
    character escape, any other character stands for itself. *)
Fixpoint unescape (s : string) : option (list byte) :=
  match s with
  | EmptyString => Some []
  | String c rest =>
      if Ascii.eqb c "\"%char then
        match rest with
        | String _ (String h (String l rest')) =>
            match hex_value h, hex_value l, unescape rest' with
            | Some a, Some b, Some bs =>
                match Byte.of_N (16 * a + b) with
                | Some x => Some (x :: bs)
                | None => None
                end
            | _, _, _ => None
            end
        | _ => None
        end
      else
        match unescape rest with
        | Some bs => Some (byte_of_ascii c :: bs)
        | None => None
        end
  end.

(** The characters an escaped text is made of. *)
Definition is_escape_char (c : ascii) : bool :=
  let n := Z.of_N (N_of_ascii c) in isalnum n || (n =? 92).

(** The bytes that are escaped. *)
Definition escaped_bytes (bytes : list byte) : list byte :=
  List.filter (fun b => negb (isalnum (byte_value b))) bytes.

(** ** The rule file *)

(** Arithmetic on [unsigned int]. *)
Definition wrap32 (z : Z) : Z := z mod 2 ^ 32.

(** [operator<<] for an unsigned integer: its decimal digits. *)
Definition decimal (z : Z) : string :=
  NilZero.string_of_uint (N.to_uint (Z.to_N z)).

(** The line feed. *)
Definition newline : ascii := ascii_of_nat 10.

(** [std::endl]. *)
Definition endl : string := String newline EmptyString.

(** Line 348: the first line of the file. *)
Definition rule_file_header : string := "# TICS subsets file for Snort-3.0".

(** Line 352: the head of the stanza of [instances[subset]]. *)
Definition subset_header (subset : Z) : string :=
  String.append "subset_id = "
    (String.append (decimal (wrap32 (subset + 1))) endl).

(** Line 357: the rule identifier and the text of a pattern. *)
Definition rule_line (id : Z) (t : string) : string :=
  String.append (decimal id) (String.append ", " (String.append t endl)).

(** The body of the inner loop; [out] is what has been written to
    [rulesfile] so far. The text of the pattern is dereferenced. *)
Definition write_rule (p : nat) (out : string) : M Global string :=
  P <- load_pattern p ;;
  t <- deref NullDeref (pat P) ;;
  ret (String.append out (rule_line (ruleid P) t)).

(** Lines 354-358: the patterns of one instance, in the order of its
    vector. *)
Fixpoint write_rules (ps : list nat) (out : string) : M Global string :=
  match ps with
  | [] => ret out
  | p :: rest => out' <- write_rule p out ;; write_rules rest out'
  end.

(** The outer loop from [subset] on, [es] being the instances left. *)
Fixpoint write_subsets (es : list RxpMpse) (subset : Z) (out : string)
  : M Global string :=
  match es with
  | [] => ret out
  | e :: rest =>
      out' <- write_rules (pats e) (String.append out (subset_header subset)) ;;
      write_subsets rest (wrap32 (subset + 1)) out'
  end.

(** [RxpMpse::write_rule_file] in a process in which no instance has been
    destroyed (with destroyed instances: [write_rule_file_in], below): the
    value returned and the characters written to [rulesfile]. The counter
    [subset] is an [unsigned int]
    compared with a [size_t]: with 2^32 instances or more it wraps before
    it gets to their number, and the loop does not end. *)
Definition write_rule_file (filename : string) : M Global (Z * string) :=
  es <- gets instances ;;
  if 2 ^ 32 <=? Z.of_nat (List.length es) then (fun _ => Spinning)
  else
    out <- write_subsets es 0 (String.append rule_file_header endl) ;;
    ret (0, out).

(** ** Set-up of the device *)

(** The calls of [rxp_setup] that leave the process, each with what the
    code passes: the rule file written and closed, the command given to
    [system], the start of DPDK, of the port and of the RXP, the loading of
    the compiled rules and the switching on of the port.
    [rxp_device_init] is the library's [rxp_init(portid)] that [dpdk_init]
    calls, named apart from the reset hook [rxp_init] of this file. *)
Inductive setup_event : Type :=
| rulesfile_written (filename text : string)
| system_call (command : string)
| rte_eal_init (argc : Z) (argv : list string)
| rxp_port_init (port num_queues third : Z)
| rxp_device_init (port : Z)
| rxp_program_rules_memories (port queue : Z) (path : string)
| rxp_enable (port : Z).

(** The status each of these calls returns, given the calls so far. The
    status of [rxp_enable] is never looked at. *)
Record SetupEnv : Type := mkSetupEnv {
  system_result : list setup_event -> Z;
  rte_eal_init_result : list setup_event -> Z;
  rxp_port_init_result : list setup_event -> Z;
  rxp_device_init_result : list setup_event -> Z;
  rxp_program_rules_memories_result : list setup_event -> Z
}.

(** The process during set-up: the registry and the calls made. *)
Record SetupState : Type := mkSetupState {
  registry : Global;
  setup_trace : list setup_event
}.

(** How a function that may call [exit] ends. *)
Inductive finished (A : Type) : Type :=
| Returned (a : A)
| Exited (status : Z).

Arguments Returned {A} a.
Arguments Exited {A} status.

(** A call is made. *)
Definition setup_emit (ev : setup_event) : M SetupState unit :=
  modify (fun s => {| registry := registry s;
                      setup_trace := setup_trace s ++ [ev] |}).

(** A member function of the registry, run during set-up. *)
Definition in_registry {A} (m : M Global A) : M SetupState A :=
  fun s =>
    match m (registry s) with
    | Ok (a, g) => Ok (a, {| registry := g; setup_trace := setup_trace s |})
    | Fault f => Fault f
    | Spinning => Spinning
    end.

Section Setup.

Context (env : SetupEnv).

(** [write_rule_file] with the stream it writes to. *)
Definition write_rule_file_to (filename : string) : M SetupState Z :=
  r <- in_registry (write_rule_file filename) ;;
  setup_emit (rulesfile_written filename (snd r)) ;;;
  ret (fst r).

(** [RxpMpse::build_rule_file]. *)
Definition build_rule_file (filename rulesdir : string) : M SetupState Z :=
  setup_emit
    (system_call
       (String.append "rxpc -f "
          (String.append filename
             (String.append " -o "
                (String.append rulesdir "/snort3 --ptpb 0 -F -i"))))) ;;;
  gets (fun s => system_result env (setup_trace s)).

(** [RxpMpse::program_rule_file]. *)
Definition program_rule_file (rulesdir : string) : M SetupState Z :=
  port <- gets (fun s => portid (registry s)) ;;
  setup_emit
    (rxp_program_rules_memories port 0 (String.append rulesdir "/snort3.rof")) ;;;
  gets (fun s => rxp_program_rules_memories_result env (setup_trace s)).

(** [LogMessage] and [exit(-1)]. *)
Definition fail_with (message : string) : M SetupState (finished Z) :=
  in_registry (emit (LogMessage message [])) ;;;
  ret (Exited (-1)).

(** [RxpMpse::dpdk_init]. *)
Definition dpdk_init : M SetupState (finished Z) :=
  setup_emit (rte_eal_init 4 ["snort"; "-c"; "1"; "--"]%string) ;;;
  eal <- gets (fun s => rte_eal_init_result env (setup_trace s)) ;;
  if eal <? 0 then fail_with "ERROR: Failed to initialise DPDK EAL.\n"
  else
    port <- gets (fun s => portid (registry s)) ;;
    setup_emit (rxp_port_init port 1 1) ;;;
    rxp_port <- gets (fun s => rxp_port_init_result env (setup_trace s)) ;;
    if negb (rxp_port =? 0)
    then fail_with "ERROR: Failed to initialise RXP port.\n"
    else
      port <- gets (fun s => portid (registry s)) ;;
      setup_emit (rxp_device_init port) ;;;
      rxp <- gets (fun s => rxp_device_init_result env (setup_trace s)) ;;
      if negb (rxp =? 0) then fail_with "ERROR: Failed to initialise RXP.\n"
      else ret (Returned 0).

(** [rxp_setup]. What [write_rule_file], [build_rule_file] and
    [program_rule_file] return is dropped. *)
Definition rxp_setup : M SetupState (finished unit) :=
  write_rule_file_to "/tmp/snort3.rules" ;;;
  build_rule_file "/tmp/snort3.rules" "/tmp/rules-dir" ;;;
  started <- dpdk_init ;;
  match started with
  | Exited status => ret (Exited status)
  | Returned _ =>
      program_rule_file "/tmp/rules-dir" ;;;
      port <- gets (fun s => portid (registry s)) ;;
      setup_emit (rxp_enable port) ;;;
      ret (Returned tt)
  end.

End Setup.

(** ** Destruction *)

(** Modelled from the spec: the release hooks of the host agent
    ([freeUserHandle(key)], [freeList(&listSlot)], [freeTree(&treeSlot)];
    [user_free], [list_free] and [tree_free] of [MpseAgent],
    framework/mpse.h, not among the sources), as [user_dtor] calls them.
    A release call is an event. [user_free] is given a handle;
    [list_free] and [tree_free] are given the address of a slot, and what
    they leave in the slot is theirs to say, given the release calls so
    far. *)
Inductive free_event : Type :=
| agent_user_free (user : Z)
| agent_tree_free (tree : Z)
| agent_list_free (list : Z).

Record MpseAgentFree : Type := mkAgentFree {
  list_free : list free_event -> Z -> Z;
  tree_free : list free_event -> Z -> Z
}.

(** A process in which instances are destroyed: the registry, the
    positions in [instances] of the instances whose destructor has run
    (nothing takes a pointer out of the vector: [instances] is only ever
    pushed to, line 126), and the release calls so far. *)
Record Process : Type := mkProcess {
  statics : Global;
  destroyed : gset nat;
  frees : list free_event
}.

(** A function of the registry, run in such a process. *)
Definition in_process {A} (m : M Global A) : M Process A :=
  fun pr =>
    match m (statics pr) with
    | Ok (a, g) => Ok (a, mkProcess g (destroyed pr) (frees pr))
    | Fault f => Fault f
    | Spinning => Spinning
    end.

Definition free_emit (ev : free_event) : M Process unit :=
  modify (fun pr => mkProcess (statics pr) (destroyed pr) (frees pr ++ [ev])).

(** The body of the inner loop of [user_dtor], lines 214-221, on one
    context: three releases, each behind its own test. *)
Definition dtor_context (f : MpseAgentFree) (c : UserCtx) : M Process UserCtx :=
  (if user c =? 0 then ret tt else free_emit (agent_user_free (user c))) ;;;
  l <- (if user_list c =? 0 then ret (user_list c)
        else free_emit (agent_list_free (user_list c)) ;;;
             gets (fun pr => list_free f (frees pr) (user_list c))) ;;
  t <- (if user_tree c =? 0 then ret (user_tree c)
        else free_emit (agent_tree_free (user_tree c)) ;;;
             gets (fun pr => tree_free f (frees pr) (user_tree c))) ;;
  ret {| user := user c; user_tree := t; user_list := l |}.

(** [for ( auto& c : p->userctx )]. *)
Fixpoint dtor_contexts (f : MpseAgentFree) (cs : list UserCtx)
  : M Process (list UserCtx) :=
  match cs with
  | [] => ret []
  | c :: rest =>
      c' <- dtor_context f c ;;
      rest' <- dtor_contexts f rest ;;
      ret (c' :: rest')
  end.

Definition dtor_pattern (f : MpseAgentFree) (p : nat) : M Process unit :=
  P <- in_process (load_pattern p) ;;
  cs <- dtor_contexts f (userctx P) ;;
  in_process (store_pattern p (set_userctx cs P)).

(** [for ( auto& p : pats )]. *)
Fixpoint dtor_patterns (f : MpseAgentFree) (ps : list nat) : M Process unit :=
  match ps with
  | [] => ret tt
  | p :: rest => dtor_pattern f p ;;; dtor_patterns f rest
  end.

(** The instance a call is made on. *)
Definition subject (c : call) : option nat :=
  match c with
  | call_add_pattern this _ _ _ => Some this
  | call_prep_patterns this _ => Some this
  | call_search _ _ this _ _ _ _ => Some this
  | call_rxp_ctor _ | call_rxp_init => None
  end.

(** The calls the host makes on the engine, the destructor among them. *)
Inductive pcall : Type :=
| pcall_call (c : call)
| pcall_rxp_dtor (this : nat).

Definition allowed_pcall (allowed : call -> Prop) (pc : pcall) : Prop :=
  match pc with
  | pcall_call c => allowed c
  | pcall_rxp_dtor _ => True
  end.

Section Destruction.

(** The release hooks that come with the hooks of an agent. *)
Context (release : MpseAgent -> MpseAgentFree).

(** [RxpMpse::user_dtor]. *)
Definition user_dtor (this : nat) : M Process unit :=
  e <- in_process (this_instance this) ;;
  dtor_patterns (release (agent e)) (pats e).

(** [rxp_dtor]: [delete p] runs [~RxpMpse], which calls [user_dtor]; then
    the members go, the pattern vector and the table with them (the
    pattern objects, held by plain pointers, stay), and the object is
    freed. The pointer stays in [instances]. To delete what is not a live
    instance is a fault. *)
Definition rxp_dtor (this : nat) : M Process unit :=
  dead <- gets destroyed ;;
  if bool_decide (this ∈ dead) then crash BadAddress
  else
    user_dtor this ;;;
    modify (fun pr =>
      mkProcess (statics pr) ({[this]} ∪ destroyed pr) (frees pr)).

(** A call in a process with destroyed instances: a member function of a
    destroyed instance works on freed memory. *)
Definition run_pcall (pc : pcall) : M Process unit :=
  match pc with
  | pcall_call c =>
      dead <- gets destroyed ;;
      match subject c with
      | Some this =>
          if bool_decide (this ∈ dead) then crash BadAddress
          else in_process (run_call c)
      | None => in_process (run_call c)
      end
  | pcall_rxp_dtor this => rxp_dtor this
  end.

(** The states a process gets to from its start by calls that return,
    destructors among them, the other calls satisfying [allowed]. *)
Inductive reachable_process (allowed : call -> Prop) : Process -> Prop :=
| reachable_process_start :
    reachable_process allowed (mkProcess process_start ∅ [])
| reachable_process_call pr pc pr' :
    reachable_process allowed pr -> allowed_pcall allowed pc ->
    run_pcall pc pr = Ok (tt, pr') ->
    reachable_process allowed pr'.

End Destruction.

(** The outer loop of [write_rule_file] from [subset] on in a process with
    the destroyed instances [dead]: [instances[subset]] is dereferenced,
    also when it dangles (line 354), and the counter, an [unsigned int],
    goes back to 0 after 2^32 - 1, where the loop begins again. *)
Fixpoint write_subsets_in (dead : gset nat) (es : list RxpMpse) (subset : Z)
    (out : string) : M Global string :=
  match es with
  | [] => ret out
  | e :: rest =>
      if bool_decide (Z.to_nat subset ∈ dead) then crash BadAddress
      else
        out' <- write_rules (pats e) (String.append out (subset_header subset)) ;;
        if wrap32 (subset + 1) =? 0 then (fun _ => Spinning)
        else write_subsets_in dead rest (wrap32 (subset + 1)) out'
  end.

(** [RxpMpse::write_rule_file] in a process in which instances are
    destroyed: the value returned and the characters written. *)
Definition write_rule_file_in (filename : string) : M Process (Z * string) :=
  dead <- gets destroyed ;;
  es <- gets (fun pr => instances (statics pr)) ;;
  out <- in_process
           (write_subsets_in dead es 0 (String.append rule_file_header endl)) ;;
  ret (0, out).

(** What a release leaves as it was: the registry but for the heap, and
    in the heap everything but the tree and list slots. *)
Definition released (pr pr' : Process) : Prop :=
  exists h',
    statics pr' = set_heap h' (statics pr) /\
    map shape h' = map shape (heap (statics pr)) /\
    destroyed pr' = destroyed pr.

(** In a process that adds no pattern of length zero: the patterns all
    have a text, and what was destroyed is in the vector. *)
Definition process_sound (pr : Process) : Prop :=
  all_texts_present (statics pr) /\
  forall i, i ∈ destroyed pr -> (i < List.length (instances (statics pr)))%nat.

(** ** Kinds of processes *)

(** [rxp_init] is not called. *)
Definition no_rxp_init (c : call) : Prop :=
  match c with
  | call_rxp_init => False
  | _ => True
  end.

(** No pattern of length zero is added and [rxp_init] is not called. *)
Definition plain_call (c : call) : Prop := no_empty_pattern c /\ no_rxp_init c.

(** A sequence of calls, each of which has to return. *)
Fixpoint run_calls (cs : list call) : M Global unit :=
  match cs with
  | [] => ret tt
  | c :: rest => run_call c ;;; run_calls rest
  end.

(** ** What a run keeps *)

(** A run of [m] that returns leaves the observation [f] of the state as
    it was. *)
Definition keeps {A X : Type} (f : Global -> X) (m : M Global A) : Prop :=
  forall g a g', m g = Ok (a, g') -> f g' = f g.

(** A run of [m] that returns has changed nothing but the trace, and that
    by adding events at its end. *)
Definition only_trace {A : Type} (m : M Global A) : Prop :=
  forall g a g', m g = Ok (a, g') ->
    exists evs, g' = set_trace (trace g ++ evs) g.

(** The static counters that only [add_pattern] and [rxp_init] write. *)
Definition registry_counters (g : Global) : Z * Z * Z * Z :=
  (patterns g, duplicates g, max_pattern_len g, portid g).

(** ** The steps of a process *)

(** The ways a call that returns changes the state of the process; the
    reset of [rxp_init] is among them when [with_init] is set. *)
Inductive step (with_init : bool) : Global -> Global -> Prop :=
| step_ctor a g :
    step with_init g
      (set_instances
         (instances g ++
          [{| agent := a; ruleidtbl := ∅;
              instance_id := wrap64 (Z.of_nat (List.length (instances g)) + 1);
              pats := [] |}]) g)
| step_duplicate this e p P t u g :
    instances g !! this = Some e -> In p (pats e) -> heap g !! p = Some P ->
    pat P = Some t ->
    step with_init g
      (set_duplicates (wrap64 (duplicates g + 1))
         (set_heap (<[p := push_userctx (UserCtx_ctor u) P]> (heap g)) g))
| step_new this e bytes desc u g :
    instances g !! this = Some e ->
    step with_init g
      (with_new_pattern this e (rxp_escape_pattern bytes)
         (Z.of_nat (List.length bytes)) desc u g)
| step_slots g g' :
    map shape (heap g') = map shape (heap g) ->
    instances g' = instances g ->
    registry_counters g' = registry_counters g ->
    step with_init g g'
| step_init g :
    with_init = true ->
    step with_init g
      (set_max_pattern_len 0
         (set_patterns 0 (set_match_limit 0 (set_jobs_submitted 0 g)))).

(** ** Invariants of the registry *)

(** Every pattern address held by an instance is the address of an
    object. *)
Definition pats_valid (g : Global) : Prop :=
  forall e p, In e (instances g) -> In p (pats e) ->
    (p < List.length (heap g))%nat.

(** Every pattern object is held by one instance, once: the addresses in
    the [pats] vectors, taken together, are the addresses of the heap. *)
Definition pats_partition (g : Global) : Prop :=
  Permutation (concat (map pats (instances g))) (seq 0 (List.length (heap g))).

(** The subset identifier of an instance is its position in [instances],
    counted from one. *)
Definition instance_ids_ok (g : Global) : Prop :=
  forall i e, instances g !! i = Some e ->
    instance_id e = wrap64 (Z.of_nat i + 1).

(** The number of rule contexts held by the pattern objects. *)
Definition total_contexts (h : list RxpPattern) : nat :=
  list_sum (map (fun P => List.length (userctx P)) h).

(** [duplicates] counts the contexts beyond the first of each pattern. *)
Definition duplicates_counted (g : Global) : Prop :=
  duplicates g =
  wrap64 (Z.of_nat (total_contexts (heap g)) - Z.of_nat (List.length (heap g))).

(** [patterns] counts the pattern objects, and the object made [i+1]-th
    carries the 16 low bits of [i+1] as its rule identifier. *)
Definition rule_ids_counted (g : Global) : Prop :=
  patterns g = wrap64 (Z.of_nat (List.length (heap g))) /\
  forall i P, heap g !! i = Some P -> ruleid P = wrap16 (Z.of_nat i + 1).

(** Every pattern held by an instance is what the instance's table gives
    for the pattern's own rule identifier. *)
Definition tables_complete (g : Global) : Prop :=
  forall e p P, In e (instances g) -> In p (pats e) ->
    heap g !! p = Some P -> ruleidtbl e !! ruleid P = Some (Some p).

(** The text of every pattern object is the escaped text of some bytes. *)
Definition texts_escaped (g : Global) : Prop :=
  forall P t, In P (heap g) -> pat P = Some t ->
    exists bytes, rxp_escape_pattern bytes = Some t.


(** ** The rule file in closed form *)

(** The lines of the patterns at [ps], for patterns that have a text. *)
Fixpoint rule_lines (h : list RxpPattern) (ps : list nat) : string :=
  match ps with
  | [] => EmptyString
  | p :: rest =>
      match h !! p with
      | Some P =>
          match pat P with
          | Some t => String.append (rule_line (ruleid P) t) (rule_lines h rest)
          | None => rule_lines h rest
          end
      | None => rule_lines h rest
      end
  end.

(** The stanzas of the instances [es], the first of which is at position
    [subset] of the vector. *)
Fixpoint stanzas (h : list RxpPattern) (es : list RxpMpse) (subset : Z)
  : string :=
  match es with
  | [] => EmptyString
  | e :: rest =>
      String.append (subset_header subset)
        (String.append (rule_lines h (pats e))
                       (stanzas h rest (wrap32 (subset + 1))))
  end.

Definition rule_file_text (g : Global) : string :=
  String.append rule_file_header
    (String.append endl (stanzas (heap g) (instances g) 0)).

(** The number of lines of a text: its newline characters. *)
Definition count_lines (s : string) : nat :=
  List.length (List.filter (Ascii.eqb newline) (list_ascii_of_string s)).

(** What the rule file shows of a pattern object. *)
Definition printed (P : RxpPattern) : option string * Z := (pat P, ruleid P).

(** ** What set-up calls *)

Definition is_start_call (ev : setup_event) : bool :=
  match ev with
  | rte_eal_init _ _ | rxp_port_init _ _ _ | rxp_device_init _ => true
  | _ => false
  end.

(** The command line and the path [rxp_setup] uses. *)
Definition rxpc_command : string :=
  "rxpc -f /tmp/snort3.rules -o /tmp/rules-dir/snort3 --ptpb 0 -F -i".


(** ** Example processes and environments *)

Definition POST : list byte := [x50; x4f; x53; x54].

Definition negated : PatternDescriptor := mkDescriptor false true.

(** Two instances: the first is given "GET" for the rules 101 and 102, the
    second the negated "POST" for 103 and "GET" for 104; the first is then
    finalised. *)
Definition two_instances_calls : list call :=
  [call_rxp_ctor quiet_agent;
   call_add_pattern 0 GET plain 101;
   call_add_pattern 0 GET plain 102;
   call_rxp_ctor quiet_agent;
   call_add_pattern 1 POST negated 103;
   call_add_pattern 1 GET plain 104;
   call_prep_patterns 0 7].

Definition two_instances : Global :=
  state_after (run_calls two_instances_calls) process_start.

(** An instance that was given a pattern of no bytes. *)
Definition with_empty_pattern : Global :=
  state_after
    (run_calls [call_rxp_ctor quiet_agent; call_add_pattern 0 [] plain 101])
    process_start.

(** A device that takes jobs and never has a response. *)
Definition silent_device : RxpLibrary :=
  {| RXP_MAX_JOB_LENGTH := 16;
     prepare_job_result := fun _ => (0, 7000);
     get_responses_result := fun _ => (0, 0, 0);
     get_response_data_result := fun _ => (0, mkResponse 0 0 []) |}.


(** An environment in which the port does not start. *)
Definition failing_port : SetupEnv :=
  {| system_result := fun _ => 0;
     rte_eal_init_result := fun _ => 0;
     rxp_port_init_result := fun _ => -1;
     rxp_device_init_result := fun _ => 0;
     rxp_program_rules_memories_result := fun _ => 0 |}.

(** Set-up begins for the process with two instances. *)
Definition two_instances_setup : SetupState := mkSetupState two_instances [].

(** The process with two instances after the port has failed to start. *)
Definition two_instances_port_failed : SetupState :=
  mkSetupState
    (set_trace (trace two_instances ++
                [LogMessage "ERROR: Failed to initialise RXP port.\n" []])
       two_instances)
    [rulesfile_written "/tmp/snort3.rules" (rule_file_text two_instances);
     system_call rxpc_command;
     rte_eal_init 4 ["snort"; "-c"; "1"; "--"]%string;
     rxp_port_init 0 1 1].

(** An agent whose release hooks clear the slot they are given. *)
Definition clearing_release (a : MpseAgent) : MpseAgentFree :=
  {| list_free := fun _ _ => 0; tree_free := fun _ _ => 0 |}.

(** The process with two instances, none destroyed. *)
Definition two_instances_alive : Process := mkProcess two_instances ∅ [].

(** The process with two instances after the first was destroyed. *)
Definition first_instance_destroyed : Process :=
  match rxp_dtor clearing_release 0 two_instances_alive with
  | Ok (_, pr) => pr
  | _ => two_instances_alive
  end.

(** * Properties *)

(** ** Machine integers *)

Lemma wrap64_small z : 0 <= z < 2 ^ 64 -> wrap64 z = z.
Proof. intros H. unfold wrap64. now apply Z.mod_small. Qed.

Lemma wrap16_small z : 0 <= z < 2 ^ 16 -> wrap16 z = z.
Proof. intros H. unfold wrap16. now apply Z.mod_small. Qed.

Lemma to_int_small z : - 2 ^ 31 <= z < 2 ^ 31 -> to_int z = z.
Proof. intros H. unfold to_int. rewrite Z.mod_small; lia. Qed.

(** ** The escaper *)

Example escape_GET :
  rxp_escape_pattern [x47; x45; x54] = Some "GET"%string.
Proof. reflexivity. Qed.

Example escape_crlf :
  rxp_escape_pattern [x61; x0d; x0a; xff] = Some "a\x0d\x0a\xff"%string.
Proof. reflexivity. Qed.

Example escape_empty : rxp_escape_pattern [] = None.
Proof. reflexivity. Qed.

Lemma rendered_step (b : byte) :
  rendered b =
  if negb (isalnum (byte_value b)) then sprintf_hexbyte (byte_value b)
  else String (ascii_of_byte b) EmptyString.
Proof. destruct b; vm_compute; reflexivity. Qed.

Lemma string_append_cons (a : ascii) (s t : string) :
  String.append (String a s) t = String a (String.append s t).
Proof. reflexivity. Qed.

Lemma string_append_nil (s : string) : String.append s EmptyString = s.
Proof.
  induction s as [|a s IH]; [reflexivity|].
  now rewrite string_append_cons, IH.
Qed.

Lemma string_append_assoc (a b c : string) :
  String.append (String.append a b) c = String.append a (String.append b c).
Proof.
  induction a as [|x a IH]; [reflexivity|].
  now rewrite !string_append_cons, IH.
Qed.

Lemma escape_loop_text (pat : list byte) (acc : string) :
  escape_loop pat acc = String.append acc (escaped_text pat).
Proof.
  revert acc. induction pat as [|b pat IH]; intros acc.
  - cbn [escape_loop]. unfold escaped_text. cbn [map fold_right].
    now rewrite string_append_nil.
  - unfold escaped_text. cbn [escape_loop map fold_right].
    rewrite (rendered_step b).
    destruct (negb (isalnum (byte_value b)));
      rewrite IH, string_append_assoc; reflexivity.
Qed.

Lemma escape_renders_text bytes :
  bytes <> [] -> exists t, rxp_escape_pattern bytes = Some t.
Proof.
  intros Hne. unfold rxp_escape_pattern. destruct bytes as [|b bs]; [congruence|].
  eexists. cbn [List.length]. destruct (Z.of_nat (S (List.length bs)) =? 0) eqn:H.
  - apply Z.eqb_eq in H. lia.
  - reflexivity.
Qed.

Lemma rendered_length (b : byte) :
  String.length (rendered b) =
  if is_ascii_letter b || is_ascii_digit b then 1%nat else 4%nat.
Proof. unfold rendered. now destruct (is_ascii_letter b || is_ascii_digit b). Qed.


(** C5. For a byte sequence of non-zero length the escaper returns the
    concatenation, in input order, of one rendering per byte: the byte
    itself when it is an ASCII letter or digit, otherwise the four
    characters backslash, x and two lowercase hexadecimal digits. The
    result depends on the bytes alone: equal sequences escape to equal
    text. *)
Theorem escape_renders_each_byte (bytes : list byte) :
  bytes <> [] ->
  exists text,
    rxp_escape_pattern bytes = Some text /\
    text = escaped_text bytes /\
    (forall b, In b bytes ->
       rendered b =
       if is_ascii_letter b || is_ascii_digit b
       then String (ascii_of_byte b) EmptyString
       else String "\"%char (String "x"%char
              (String (nibble (Byte.to_N b / 16))
                 (String (nibble (Byte.to_N b mod 16)) EmptyString)))) /\
    (forall b, In b bytes ->
       In (nibble (Byte.to_N b / 16)) lowercase_hex /\
       In (nibble (Byte.to_N b mod 16)) lowercase_hex) /\
    (forall bytes', bytes' = bytes -> rxp_escape_pattern bytes' = Some text).
Proof.
  intros Hne. exists (escaped_text bytes).
  assert (Hrun : rxp_escape_pattern bytes = Some (escaped_text bytes)).
  { unfold rxp_escape_pattern. destruct bytes as [|b bs]; [congruence|].
    replace (Z.of_nat (List.length (b :: bs)) =? 0) with false
      by (symmetry; apply Z.eqb_neq; cbn [List.length]; lia).
    now rewrite escape_loop_text. }
  repeat split.
  - exact Hrun.
  - destruct b; vm_compute; tauto.
  - destruct b; vm_compute; tauto.
  - intros bytes' ->. exact Hrun.
Qed.

Lemma escape_renders_each_byte_witness :
  [x47; x2f; x31] <> [] /\
  exists text,
    rxp_escape_pattern [x47; x2f; x31] = Some text /\ text = "G\x2f1"%string.
Proof.
  split; [discriminate|].
  destruct (escape_renders_each_byte [x47; x2f; x31]) as (text & H1 & H2 & _);
    [discriminate|].
  exists text. split; [exact H1 | rewrite H2; reflexivity].
Defined.

(** ** The registry *)

(** C10. The reset hook sets the jobs-submitted, match-limit, pattern-id
    and maximum-pattern-length counters to zero and leaves the duplicate
    counter, the registered instances and the pattern objects (with the
    rule identifiers they were given) as they were. *)
Theorem rxp_init_resets_four_counters (g : Global) :
  exists g',
    rxp_init g = Ok (tt, g') /\
    jobs_submitted g' = 0 /\ match_limit g' = 0 /\
    patterns g' = 0 /\ max_pattern_len g' = 0 /\
    duplicates g' = duplicates g /\
    instances g' = instances g /\
    heap g' = heap g /\
    portid g' = portid g /\ trace g' = trace g.
Proof. eexists. split; [reflexivity|]. cbn. tauto. Qed.

Lemma bind_Ok {S A B} (m : M S A) (k : A -> M S B) s a s' :
  m s = Ok (a, s') -> bind m k s = k a s'.
Proof. intros H. unfold bind. now rewrite H. Qed.

Lemma bind_Fault {S A B} (m : M S A) (k : A -> M S B) s f :
  m s = Fault f -> bind m k s = Fault f.
Proof. intros H. unfold bind. now rewrite H. Qed.

Lemma this_instance_Ok g this e :
  instances g !! this = Some e -> this_instance this g = Ok (e, g).
Proof. intros H. unfold this_instance. now rewrite H. Qed.

Lemma load_pattern_Ok g p P :
  heap g !! p = Some P -> load_pattern p g = Ok (P, g).
Proof. intros H. unfold load_pattern. now rewrite H. Qed.

Lemma text_of_Some g p t :
  text_of g p = Some t -> exists P, heap g !! p = Some P /\ pat P = Some t.
Proof.
  unfold text_of. destruct (heap g !! p) as [P|]; [|discriminate].
  intros H. now exists P.
Qed.

Lemma find_pattern_step g t p rest s :
  text_of g p = Some s ->
  find_pattern (Some t) (p :: rest) g =
  if String.eqb s t then Ok (Some p, g) else find_pattern (Some t) rest g.
Proof.
  intros (P & HP & Hs)%text_of_Some. cbn [find_pattern].
  rewrite (bind_Ok _ _ _ _ _ (load_pattern_Ok g p P HP)).
  rewrite Hs. cbn. unfold bind, ret. cbn. now destruct (String.eqb s t).
Qed.

Lemma find_pattern_absent g t ps :
  (forall q, In q ps -> exists s, text_of g q = Some s /\ s <> t) ->
  find_pattern (Some t) ps g = Ok (None, g).
Proof.
  induction ps as [|p rest IH]; intros H; [reflexivity|].
  destruct (H p) as (s & Hs & Hne); [now left|].
  rewrite (find_pattern_step g t p rest s Hs).
  apply String.eqb_neq in Hne. rewrite Hne.
  apply IH. intros q Hq. apply H. now right.
Qed.

Lemma find_pattern_found g t ps i p :
  (forall q, In q ps -> exists s, text_of g q = Some s) ->
  ps !! i = Some p -> text_of g p = Some t ->
  (forall j q, (j < i)%nat -> ps !! j = Some q -> text_of g q <> Some t) ->
  find_pattern (Some t) ps g = Ok (Some p, g).
Proof.
  revert i. induction ps as [|q rest IH]; intros i Hall Hi Ht Hbefore.
  - discriminate.
  - destruct i as [|i].
    + cbn in Hi. injection Hi as ->.
      rewrite (find_pattern_step g t p rest t Ht). now rewrite String.eqb_refl.
    + destruct (Hall q) as (s & Hs); [now left|].
      rewrite (find_pattern_step g t q rest s Hs).
      assert (Hne : s <> t).
      { intros ->. apply (Hbefore 0%nat q); [lia | reflexivity | exact Hs]. }
      apply String.eqb_neq in Hne. rewrite Hne.
      apply (IH i); auto.
      * intros r Hr. apply Hall. now right.
      * intros j r Hj Hr. apply (Hbefore (S j) r); [lia | exact Hr].
Qed.

Lemma first_holder_exists g e t :
  holds_text g e t -> exists i p, first_holder g e t i p.
Proof.
  unfold holds_text, first_holder. generalize (pats e). intros ps.
  induction ps as [|q rest IH]; intros (p & Hin & Ht).
  - destruct Hin.
  - destruct (decide (text_of g q = Some t)) as [Hq|Hq].
    + exists 0%nat, q. repeat split; [exact Hq | intros j r Hj; lia].
    + destruct Hin as [->|Hin]; [contradiction|].
      destruct IH as (i & p' & Hi & Hp' & Hbefore); [now exists p|].
      exists (S i), p'. repeat split; [exact Hi | exact Hp' |].
      intros [|j] r Hj Hr.
      * cbn in Hr. injection Hr as <-. exact Hq.
      * apply (Hbefore j r); [lia | exact Hr].
Qed.

Lemma add_pattern_duplicate g this e bytes t desc u i p P :
  instances g !! this = Some e ->
  texts_present g e ->
  rxp_escape_pattern bytes = Some t ->
  first_holder g e t i p ->
  heap g !! p = Some P ->
  add_pattern this bytes desc u g =
  Ok (0, set_duplicates (wrap64 (duplicates g + 1))
           (set_heap (<[p := push_userctx (UserCtx_ctor u) P]> (heap g)) g)).
Proof.
  intros He Hall Hesc (Hi & Ht & Hbefore) HP.
  unfold add_pattern. rewrite Hesc.
  rewrite (bind_Ok _ _ _ _ _ (this_instance_Ok g this e He)).
  rewrite (bind_Ok _ _ _ _ _ (find_pattern_found g t (pats e) i p Hall Hi Ht Hbefore)).
  rewrite (bind_Ok _ _ _ _ _ (load_pattern_Ok g p P HP)).
  reflexivity.
Qed.

Lemma add_pattern_fresh g this e bytes desc u :
  instances g !! this = Some e ->
  find_pattern (rxp_escape_pattern bytes) (pats e) g = Ok (None, g) ->
  add_pattern this bytes desc u g =
  Ok (0, with_new_pattern this e (rxp_escape_pattern bytes)
           (Z.of_nat (List.length bytes)) desc u g).
Proof.
  intros He Hfind.
  unfold add_pattern.
  rewrite (bind_Ok _ _ _ _ _ (this_instance_Ok g this e He)).
  rewrite (bind_Ok _ _ _ _ _ Hfind).
  unfold bind, gets, modify, store_instance, this_instance, ret. cbn.
  assert (Hlt : (this < List.length (instances g))%nat) by (eapply lookup_lt_Some; eauto).
  unfold with_new_pattern.
  destruct (Z.of_nat (List.length bytes) >? max_pattern_len g) eqn:Hmax; cbn.
  all: rewrite list_lookup_insert_eq by (cbn; exact Hlt); cbn.
  all: rewrite list_insert_insert_eq; reflexivity.
Qed.

Lemma holds_text_dec g e t : holds_text g e t \/ ~ holds_text g e t.
Proof.
  unfold holds_text. generalize (pats e). intros ps.
  induction ps as [|q rest IH].
  - right. intros (p & [] & _).
  - destruct (decide (text_of g q = Some t)) as [Hq|Hq].
    + left. exists q. split; [now left | exact Hq].
    + destruct IH as [(p & Hin & Hp)|Hno].
      * left. exists p. split; [now right | exact Hp].
      * right. intros (p & [->|Hin] & Hp); [contradiction|].
        apply Hno. now exists p.
Qed.

Lemma get_pattern_count_Ok g this e :
  instances g !! this = Some e ->
  get_pattern_count this g = Ok (to_int (Z.of_nat (List.length (pats e))), g).
Proof.
  intros He. unfold get_pattern_count.
  now rewrite (bind_Ok _ _ _ _ _ (this_instance_Ok g this e He)).
Qed.

(** C1. An [add_pattern] call whose bytes escape to the text of a pattern
    the instance already holds appends one context with the given handle
    to that pattern (the first holder of the text), adds one to the
    duplicate counter (a [uint64_t]: exactly one below its maximum),
    allocates no rule identifier (the allocator, the instance with its
    table and pattern vector, and the number of pattern objects are
    unchanged) and leaves [get_pattern_count] as it was; a call whose text
    the instance does not hold raises [get_pattern_count] by one (an
    [int]: below its maximum). The instance is one whose patterns all
    have a text, as they have as long as no pattern of length zero was
    added. *)
Theorem add_pattern_duplicate_or_new g this e bytes t desc u :
  instances g !! this = Some e ->
  texts_present g e ->
  rxp_escape_pattern bytes = Some t ->
  exists g' count,
    add_pattern this bytes desc u g = Ok (0, g') /\
    get_pattern_count this g = Ok (count, g) /\
    (holds_text g e t ->
       (exists i p P,
          first_holder g e t i p /\ heap g !! p = Some P /\
          heap g' = <[p := push_userctx (UserCtx_ctor u) P]> (heap g) /\
          heap g' !! p = Some (push_userctx (UserCtx_ctor u) P) /\
          userctx (push_userctx (UserCtx_ctor u) P) =
            userctx P ++ [{| user := u; user_tree := 0; user_list := 0 |}]) /\
       duplicates g' = wrap64 (duplicates g + 1) /\
       (0 <= duplicates g < 2 ^ 64 - 1 -> duplicates g' = duplicates g + 1) /\
       patterns g' = patterns g /\
       instances g' = instances g /\
       List.length (heap g') = List.length (heap g) /\
       get_pattern_count this g' = Ok (count, g')) /\
    (~ holds_text g e t ->
       duplicates g' = duplicates g /\
       (Z.of_nat (List.length (pats e)) < 2 ^ 31 - 1 ->
        get_pattern_count this g' = Ok (count + 1, g'))).
Proof.
  intros He Hall Hesc.
  destruct (holds_text_dec g e t) as [Hholds|Hnot].
  - destruct (first_holder_exists g e t Hholds) as (i & p & Hfirst).
    destruct (text_of_Some g p t (proj1 (proj2 Hfirst))) as (P & HP & _).
    eexists _, _. split; [|split; [|split]].
    + exact (add_pattern_duplicate g this e bytes t desc u i p P He Hall Hesc Hfirst HP).
    + exact (get_pattern_count_Ok g this e He).
    + intros _. split; [|repeat split].
      * exists i, p, P. repeat split; try apply Hfirst; try exact HP.
        cbn. apply list_lookup_insert_eq. eapply lookup_lt_Some; eauto.
      * cbn. intros Hrange. apply wrap64_small. lia.
      * cbn. apply length_insert.
      * apply get_pattern_count_Ok. exact He.
    + intros Hnot. contradiction.
  - assert (Hfind : find_pattern (rxp_escape_pattern bytes) (pats e) g = Ok (None, g)).
    { rewrite Hesc. apply find_pattern_absent.
      intros q Hq. destruct (Hall q Hq) as (s & Hs). exists s. split; [exact Hs|].
      intros ->. apply Hnot. now exists q. }
    eexists _, _. split; [|split; [|split]].
    + exact (add_pattern_fresh g this e bytes desc u He Hfind).
    + exact (get_pattern_count_Ok g this e He).
    + intros Hholds. contradiction.
    + intros _. split; [reflexivity|]. intros Hsmall.
      assert (Hlt : (this < List.length (instances g))%nat) by (eapply lookup_lt_Some; eauto).
      erewrite get_pattern_count_Ok.
      2:{ cbn. apply list_lookup_insert_eq. exact Hlt. }
      cbn [pats]. rewrite length_app. cbn [List.length].
      rewrite !to_int_small by lia. do 2 f_equal. lia.
Qed.

Lemma add_pattern_duplicate_or_new_witness :
  exists g',
    add_pattern 0 GET plain 102 registry_GET = Ok (0, g') /\
    duplicates g' = 1 /\ patterns g' = 1 /\
    get_pattern_count 0 g' = Ok (1, g').
Proof.
  assert (He : instances registry_GET !! 0%nat = Some (instance_at registry_GET 0))
    by (vm_compute; reflexivity).
  assert (Hall : texts_present registry_GET (instance_at registry_GET 0)).
  { intros p [<-|[]]. eexists. vm_compute. reflexivity. }
  assert (Hesc : rxp_escape_pattern GET = Some "GET"%string) by reflexivity.
  assert (Hholds : holds_text registry_GET (instance_at registry_GET 0) "GET").
  { exists 0%nat. split; [left; reflexivity | vm_compute; reflexivity]. }
  destruct (add_pattern_duplicate_or_new registry_GET 0 (instance_at registry_GET 0)
              GET "GET" plain 102 He Hall Hesc)
    as (g' & count & Hadd & Hcount & Hdup & _).
  destruct (Hdup Hholds) as (_ & Hd & _ & Hp & _ & _ & Hc).
  exists g'. repeat split.
  - exact Hadd.
  - rewrite Hd. reflexivity.
  - rewrite Hp. reflexivity.
  - rewrite Hc. vm_compute in Hcount. injection Hcount as <-. reflexivity.
Defined.

(** C4. A zero-length byte sequence makes the escaper return its null
    error value, which [add_pattern] does not test. On an instance with no
    pattern the call returns 0 and adds a pattern whose text is null, with
    a newly allocated rule identifier; on an instance whose first pattern
    is an object, comparing texts dereferences the null pointer. *)
Theorem add_pattern_zero_length g this e desc u :
  instances g !! this = Some e ->
  rxp_escape_pattern [] = None /\
  (pats e = [] ->
     add_pattern this [] desc u g =
       Ok (0, with_new_pattern this e None 0 desc u g)) /\
  (forall p rest P, pats e = p :: rest -> heap g !! p = Some P ->
     add_pattern this [] desc u g = Fault NullDeref).
Proof.
  intros He. split; [reflexivity|]. split.
  - intros Hpats.
    apply (add_pattern_fresh g this e [] desc u He).
    rewrite Hpats. reflexivity.
  - intros p rest P Hpats HP.
    unfold add_pattern.
    rewrite (bind_Ok _ _ _ _ _ (this_instance_Ok g this e He)).
    rewrite Hpats. cbn [find_pattern].
    apply bind_Fault.
    rewrite (bind_Ok _ _ _ _ _ (load_pattern_Ok g p P HP)).
    destruct (pat P); reflexivity.
Qed.

Lemma add_pattern_zero_length_witness :
  (exists g',
     add_pattern 0 [] plain 103 one_instance = Ok (0, g') /\
     patterns g' = 1 /\
     get_pattern_count 0 g' = Ok (1, g') /\
     text_of g' 0 = None) /\
  add_pattern 0 [] plain 103 registry_GET = Fault NullDeref.
Proof.
  split.
  - destruct (add_pattern_zero_length one_instance 0 (instance_at one_instance 0)
                plain 103) as (_ & Hempty & _); [vm_compute; reflexivity|].
    eexists. split; [apply Hempty; reflexivity|].
    vm_compute. repeat split; reflexivity.
  - destruct (add_pattern_zero_length registry_GET 0 (instance_at registry_GET 0)
                plain 103) as (_ & _ & Hcrash); [vm_compute; reflexivity|].
    eapply Hcrash; vm_compute; reflexivity.
Defined.

Lemma wrap64_add_l a b : wrap64 (wrap64 a + b) = wrap64 (a + b).
Proof. unfold wrap64. apply Zplus_mod_idemp_l. Qed.

Lemma ids_from_lookup c n k :
  (k < n)%nat ->
  ids_from c n !! k = Some (wrap16 (wrap64 (c + Z.of_nat k + 1))).
Proof.
  revert c k. induction n as [|n IH]; intros c k Hk; [lia|].
  destruct k as [|k]; cbn [ids_from].
  - cbn. do 3 f_equal. lia.
  - change ((?x :: ?l) !! S k) with (l !! k).
    rewrite IH by lia. rewrite <- Z.add_assoc, wrap64_add_l. do 3 f_equal. lia.
Qed.

Lemma open_instance_with_a_Ok g :
  exists g',
    open_instance_with_a g = Ok (wrap16 (wrap64 (patterns g + 1)), g') /\
    patterns g' = wrap64 (patterns g + 1).
Proof.
  unfold open_instance_with_a.
  set (e := {| agent := quiet_agent; ruleidtbl := ∅;
               instance_id := wrap64 (Z.of_nat (List.length (instances g)) + 1);
               pats := [] |}).
  set (g1 := set_instances (instances g ++ [e]) g).
  assert (Hctor : rxp_ctor quiet_agent g = Ok (List.length (instances g), g1))
    by reflexivity.
  rewrite (bind_Ok _ _ _ _ _ Hctor).
  assert (He : instances g1 !! List.length (instances g) = Some e).
  { cbn. rewrite lookup_app_r by lia. now rewrite Nat.sub_diag. }
  rewrite (bind_Ok _ _ _ _ _
             (add_pattern_fresh g1 _ e [x61] plain 0 He eq_refl)).
  set (g2 := with_new_pattern _ _ _ _ _ _ _).
  assert (Hlt : (List.length (instances g) < List.length (instances g1))%nat).
  { cbn. rewrite length_app. cbn. lia. }
  erewrite (bind_Ok _ _ _ _ _ (this_instance_Ok g2 _ _ _)).
  Unshelve.
  3:{ cbn. apply list_lookup_insert_eq. exact Hlt. }
  cbn [pats app last deref]. unfold bind, ret, load_pattern. cbn.
  rewrite lookup_app_r by lia. rewrite Nat.sub_diag. cbn.
  eexists. split; reflexivity.
Qed.

Lemma open_instances_Ok n : forall g,
  exists g', open_instances n g = Ok (ids_from (patterns g) n, g').
Proof.
  induction n as [|n IH]; intros g.
  - eexists. reflexivity.
  - destruct (open_instance_with_a_Ok g) as (g1 & H1 & Hp).
    destruct (IH g1) as (g2 & H2).
    exists g2. cbn [open_instances ids_from].
    rewrite (bind_Ok _ _ _ _ _ H1), (bind_Ok _ _ _ _ _ H2), Hp. reflexivity.
Qed.

Lemma open_instances_ids n g :
  exists ids g',
    open_instances n g = Ok (ids, g') /\
    forall k, (k < n)%nat ->
      ids !! k = Some (wrap16 (wrap64 (patterns g + Z.of_nat k + 1))).
Proof.
  destruct (open_instances_Ok n g) as (g' & Hrun).
  exists (ids_from (patterns g) n), g'. split; [exact Hrun|].
  intros k Hk. now apply ids_from_lookup.
Qed.

(** C3, at the failing input. From the start of the process, 65537 new
    patterns (each in an instance of its own) are given the identifiers
    1, ..., 65535, 0, 1: the 65536th is smaller than every one before it, and
    the 65537th repeats the first. [ruleid] is a [uint16_t] assigned from
    the 64-bit counter. *)
Theorem rule_ids_wrap_at_65536 :
  exists ids g,
    open_instances (Z.to_nat 65537) process_start = Ok (ids, g) /\
    ids !! 0%nat = Some 1 /\
    ids !! Z.to_nat 65534 = Some 65535 /\
    ids !! Z.to_nat 65535 = Some 0 /\
    ids !! Z.to_nat 65536 = Some 1.
Proof.
  destruct (open_instances_ids (Z.to_nat 65537) process_start)
    as (ids & g & Hrun & Hk).
  exists ids, g. split; [exact Hrun|].
  assert (H : forall z, 0 <= z < 65537 ->
                ids !! Z.to_nat z = Some (wrap16 (wrap64 (z + 1)))).
  { intros z Hz. rewrite Hk by lia. rewrite Z2Nat.id by lia. reflexivity. }
  clear Hk Hrun.
  split; [apply (H 0); lia|].
  split; [rewrite (H 65534) by lia; reflexivity|].
  split; [rewrite (H 65535) by lia; reflexivity|].
  rewrite (H 65536) by lia; reflexivity.
Qed.

(** Below the wrap-around the identifiers are the successive integers. *)
Lemma rule_ids_successive_below_65536 n g :
  0 <= patterns g -> patterns g + Z.of_nat n < 2 ^ 16 ->
  exists ids g',
    open_instances n g = Ok (ids, g') /\
    forall k, (k < n)%nat -> ids !! k = Some (patterns g + Z.of_nat k + 1).
Proof.
  intros H0 Hn. destruct (open_instances_ids n g) as (ids & g' & Hrun & Hk).
  exists ids, g'. split; [exact Hrun|].
  intros k Hlt. rewrite Hk by exact Hlt.
  rewrite wrap64_small by lia. rewrite wrap16_small by lia. reflexivity.
Qed.

(** ** Finalisation *)

Lemma requests_app evs1 evs2 : requests (evs1 ++ evs2) = requests evs1 ++ requests evs2.
Proof. unfold requests. apply omap_app. Qed.

Lemma set_trace_app g evs1 evs2 :
  set_trace (trace (set_trace (trace g ++ evs1) g) ++ evs2) (set_trace (trace g ++ evs1) g)
  = set_trace (trace g ++ (evs1 ++ evs2)) g.
Proof. unfold set_trace. cbn. now rewrite app_assoc. Qed.

(** One context: the events are the requests of [requests_for], the handle
    stays, and nothing but the trace changes. *)
Lemma ctor_context_spec a sc neg c g :
  exists c' evs,
    ctor_context a sc neg c g = Ok (c', set_trace (trace g ++ evs) g) /\
    user c' = user c /\
    requests evs = requests_for neg (user c) /\
    List.length (requests evs) = List.length evs.
Proof.
  unfold ctor_context, requests_for.
  destruct (user c =? 0) eqn:Hu; [|destruct neg].
  - eexists _, [_]. split; [reflexivity|]. cbn. auto.
  - eexists _, [_; _]. split.
    + unfold bind, emit, modify, gets, ret. cbn. rewrite <- app_assoc. reflexivity.
    + cbn. auto.
  - eexists _, [_; _]. split.
    + unfold bind, emit, modify, gets, ret. cbn. rewrite <- app_assoc. reflexivity.
    + cbn. auto.
Qed.

Lemma ctor_contexts_spec a sc neg cs : forall g,
  exists cs' evs,
    ctor_contexts a sc neg cs g = Ok (cs', set_trace (trace g ++ evs) g) /\
    map user cs' = map user cs /\
    requests evs = flat_map (requests_for neg) (map user cs) /\
    List.length (requests evs) = List.length evs.
Proof.
  induction cs as [|c cs IH]; intros g.
  - exists [], []. cbn. rewrite app_nil_r. destruct g; auto.
  - destruct (ctor_context_spec a sc neg c g) as (c' & evs1 & H1 & Hu & Hr1 & Hl1).
    destruct (IH (set_trace (trace g ++ evs1) g)) as (cs' & evs2 & H2 & Hus & Hr2 & Hl2).
    exists (c' :: cs'), (evs1 ++ evs2). cbn [ctor_contexts].
    rewrite (bind_Ok _ _ _ _ _ H1), (bind_Ok _ _ _ _ _ H2).
    rewrite set_trace_app. split; [reflexivity|].
    cbn [map flat_map]. rewrite Hu, Hus, requests_app, Hr1, Hr2.
    repeat split. rewrite !length_app. rewrite <- Hr1, <- Hr2. lia.
Qed.

Lemma ctor_pattern_spec a sc p P g :
  heap g !! p = Some P ->
  exists P' evs,
    ctor_pattern a sc p g =
      Ok (tt, set_heap (<[p := P']> (heap g)) (set_trace (trace g ++ evs) g)) /\
    shape P' = shape P /\
    requests evs = requests_for_pattern P /\
    List.length (requests evs) = List.length evs.
Proof.
  intros HP.
  destruct (ctor_contexts_spec a sc (negate P) (userctx P) g)
    as (cs' & evs & Hrun & Hus & Hr & Hl).
  exists (set_userctx cs' P), evs. unfold ctor_pattern.
  rewrite (bind_Ok _ _ _ _ _ (load_pattern_Ok g p P HP)).
  rewrite (bind_Ok _ _ _ _ _ Hrun).
  split; [reflexivity|]. split; [|split; assumption].
  unfold shape. cbn. now rewrite Hus.
Qed.

Lemma shapes_insert (h : list RxpPattern) p P P' :
  h !! p = Some P -> shape P' = shape P ->
  map shape (<[p := P']> h) = map shape h.
Proof.
  intros HP Hs. rewrite list_fmap_insert.
  rewrite Hs. apply list_insert_id. now rewrite list_lookup_fmap, HP.
Qed.

Lemma shapes_lookup (h h' : list RxpPattern) p P :
  map shape h' = map shape h -> h !! p = Some P ->
  exists P', h' !! p = Some P' /\ shape P' = shape P.
Proof.
  intros Hs HP.
  assert (H : map shape h' !! p = Some (shape P))
    by now rewrite Hs, list_lookup_fmap, HP.
  rewrite list_lookup_fmap in H.
  destruct (h' !! p) as [P'|]; [|discriminate].
  exists P'. split; [reflexivity|]. cbn in H. congruence.
Qed.

Lemma requests_for_pattern_shape P P' :
  shape P' = shape P -> requests_for_pattern P' = requests_for_pattern P.
Proof.
  unfold shape, requests_for_pattern. intros H. injection H as _ _ _ -> ->.
  reflexivity.
Qed.

Lemma requests_at_shapes h h' p :
  map shape h' = map shape h -> requests_at h' p = requests_at h p.
Proof.
  intros Hs. unfold requests_at.
  destruct (h !! p) as [P|] eqn:HP.
  - destruct (shapes_lookup h h' p P Hs HP) as (P' & -> & Hsh).
    now apply requests_for_pattern_shape.
  - assert (H : map shape h' !! p = None) by now rewrite Hs, list_lookup_fmap, HP.
    rewrite list_lookup_fmap in H. now destruct (h' !! p).
Qed.

Lemma ctor_patterns_spec a sc ps : forall g,
  (forall p, In p ps -> exists P, heap g !! p = Some P) ->
  exists h' evs,
    ctor_patterns a sc ps g =
      Ok (tt, set_heap h' (set_trace (trace g ++ evs) g)) /\
    map shape h' = map shape (heap g) /\
    requests evs = flat_map (requests_at (heap g)) ps /\
    List.length (requests evs) = List.length evs.
Proof.
  induction ps as [|p ps IH]; intros g Hall.
  - exists (heap g), []. cbn. rewrite app_nil_r. destruct g; auto.
  - destruct (Hall p) as (P & HP); [now left|].
    destruct (ctor_pattern_spec a sc p P g HP) as (P' & evs1 & H1 & Hsh & Hr1 & Hl1).
    set (g1 := set_heap (<[p := P']> (heap g)) (set_trace (trace g ++ evs1) g)) in *.
    assert (Hs1 : map shape (heap g1) = map shape (heap g))
      by (cbn; eapply shapes_insert; eauto).
    destruct (IH g1) as (h' & evs2 & H2 & Hs2 & Hr2 & Hl2).
    { intros q Hq. destruct (Hall q) as (Q & HQ); [now right|].
      destruct (shapes_lookup _ _ q Q Hs1 HQ) as (Q' & HQ' & _). now exists Q'. }
    exists h', (evs1 ++ evs2). cbn [ctor_patterns].
    rewrite (bind_Ok _ _ _ _ _ H1), H2.
    split; [|split; [|split]].
    + unfold g1, set_heap, set_trace. cbn. now rewrite app_assoc.
    + now rewrite Hs2, Hs1.
    + cbn [flat_map]. rewrite requests_app, Hr1, Hr2. f_equal.
      * unfold requests_at. now rewrite HP.
      * apply flat_map_ext. intros q. now apply requests_at_shapes.
    + rewrite requests_app, !length_app. lia.
Qed.

Lemma null_builds_app rs1 rs2 :
  null_builds (rs1 ++ rs2) = (null_builds rs1 + null_builds rs2)%nat.
Proof. unfold null_builds. now rewrite List.filter_app, length_app. Qed.

Lemma null_builds_for neg key : null_builds (requests_for neg key) = 1%nat.
Proof.
  unfold requests_for. destruct (key =? 0) eqn:H; [reflexivity|].
  destruct neg; unfold null_builds; cbn; now rewrite ?H.
Qed.

Lemma null_builds_pattern P :
  null_builds (requests_for_pattern P) = List.length (userctx P).
Proof.
  unfold requests_for_pattern.
  induction (userctx P) as [|c cs IH]; [reflexivity|].
  cbn [map flat_map]. rewrite null_builds_app, null_builds_for, IH. reflexivity.
Qed.

(** C6, as the code has it. On an instance whose patterns are all objects,
    [prep_patterns] returns 0 and calls the agent, pattern by pattern and
    context by context in order: for a context with a non-null handle the
    negate list if the pattern is negated and the match tree otherwise,
    and then, for every context, the tree keyed by null. The null-keyed
    tree is therefore asked for once per context of a pattern. Nothing
    else is done, and only the tree and list slots of the contexts
    change. *)
Theorem prep_patterns_builds_per_context g this e sc :
  instances g !! this = Some e ->
  (forall p, In p (pats e) -> exists P, heap g !! p = Some P) ->
  exists g' evs,
    prep_patterns this sc g = Ok (0, g') /\
    trace g' = trace g ++ evs /\
    List.length (requests evs) = List.length evs /\
    requests evs = flat_map (requests_at (heap g)) (pats e) /\
    (forall p P, In p (pats e) -> heap g !! p = Some P ->
       requests_at (heap g) p =
         flat_map (requests_for (negate P)) (map user (userctx P)) /\
       null_builds (requests_at (heap g) p) = List.length (userctx P)) /\
    map shape (heap g') = map shape (heap g) /\
    instances g' = instances g.
Proof.
  intros He Hall.
  destruct (ctor_patterns_spec (agent e) sc (pats e) g Hall)
    as (h' & evs & Hrun & Hs & Hr & Hl).
  assert (Huc : user_ctor this sc g =
                  Ok (tt, set_heap h' (set_trace (trace g ++ evs) g))).
  { unfold user_ctor.
    now rewrite (bind_Ok _ _ _ _ _ (this_instance_Ok g this e He)). }
  eexists _, evs. unfold prep_patterns.
  rewrite (bind_Ok _ _ _ _ _ Huc).
  split; [reflexivity|]. split; [reflexivity|].
  split; [exact Hl|]. split; [exact Hr|]. split; [|split; [exact Hs | reflexivity]].
  intros p P Hp HP. unfold requests_at. rewrite HP.
  split; [reflexivity | apply null_builds_pattern].
Qed.

Lemma prep_patterns_builds_per_context_witness :
  exists g' evs,
    prep_patterns 0 55 registry_GET_twice = Ok (0, g') /\
    trace g' = trace registry_GET_twice ++ evs /\
    requests evs = [BuildTree 101; BuildTree 0; BuildTree 102; BuildTree 0].
Proof.
  destruct (prep_patterns_builds_per_context registry_GET_twice 0
              (instance_at registry_GET_twice 0) 55)
    as (g' & evs & Hrun & Htrace & _ & Hreq & _).
  - vm_compute. reflexivity.
  - intros p [<-|[]]. eexists. vm_compute. reflexivity.
  - exists g', evs. repeat split; [exact Hrun | exact Htrace |].
    rewrite Hreq. vm_compute. reflexivity.
Defined.

(** C6, as stated, fails on an instance that holds "GET" for two rules: it
    has one pattern, and finalisation asks for two null-keyed trees. *)
Lemma default_tree_built_for_each_context :
  exists g',
    prep_patterns 0 55 registry_GET_twice = Ok (0, g') /\
    List.length (pats (instance_at registry_GET_twice 0)) = 1%nat /\
    null_builds (requests (drop (List.length (trace registry_GET_twice)) (trace g')))
      = 2%nat /\
    ~ default_tree_once_per_pattern registry_GET_twice g'
        (instance_at registry_GET_twice 0).
Proof.
  eexists. split; [vm_compute; reflexivity|].
  split; [reflexivity|]. split; [reflexivity|].
  unfold default_tree_once_per_pattern. vm_compute. discriminate.
Qed.

(** ** Search *)

Section SearchFacts.

Context (lib : RxpLibrary).

Lemma polls_S port k : polls port (S k) = rxp_get_responses port 0 1 :: polls port k.
Proof. reflexivity. Qed.

Lemma await_response_ready k : forall fuel g pkt,
  ready_at lib (trace g) (portid g) k pkt -> (k < fuel)%nat ->
  await_response lib fuel g =
    Ok (pkt, set_trace (trace g ++ polls (portid g) (S k)) g).
Proof.
  induction k as [|k IH]; intros fuel g pkt (Hbefore & Hnow & Hpkt) Hfuel;
    (destruct fuel as [|fuel]; [lia|]); cbn [await_response];
    unfold bind, gets, emit, modify; cbn.
  - change (trace g ++ [rxp_get_responses (portid g) 0 1])
      with (trace g ++ polls (portid g) 1).
    apply Z.eqb_neq in Hnow. rewrite Hnow. unfold ret. now rewrite Hpkt.
  - change (trace g ++ [rxp_get_responses (portid g) 0 1])
      with (trace g ++ polls (portid g) 1).
    rewrite (Hbefore 0%nat) by lia. cbn [Z.eqb].
    rewrite (IH fuel _ pkt).
    + cbn. rewrite <- app_assoc. reflexivity.
    + cbn. repeat split.
      * intros j Hj. rewrite <- app_assoc. apply (Hbefore (S j)). lia.
      * rewrite <- app_assoc. exact Hnow.
      * rewrite <- app_assoc. exact Hpkt.
    + lia.
Qed.

Lemma submit_and_await_Ok fuel this e buf n g k pkt :
  instances g !! this = Some e ->
  ready_at lib (trace g ++ submission lib g e buf n) (portid g) k pkt ->
  (k < fuel)%nat ->
  submit_and_await lib fuel this buf n g =
    Ok ((pkt, fst (decoded lib g e buf n k pkt), snd (decoded lib g e buf n k pkt)),
        set_trace (awaited lib g e buf n k pkt)
          (set_jobs_submitted (wrap64 (jobs_submitted g + 1)) g)).
Proof.
  intros He Hready Hfuel. unfold submit_and_await.
  rewrite (bind_Ok _ _ _ _ _ (this_instance_Ok g this e He)).
  unfold decoded, awaited, submission, truncation_warning, job_length in *.
  destruct (n >? RXP_MAX_JOB_LENGTH lib);
    unfold bind at 1; unfold bind at 1; cbn [emit modify ret];
    unfold bind, gets, emit, modify, ret; cbn;
    match goal with
    | |- context [await_response lib fuel ?g1] =>
        rewrite (await_response_ready k fuel g1 pkt)
    end; cbn; rewrite <- ?app_assoc; cbn; try exact Hfuel; try reflexivity.
  all: rewrite <- ?app_assoc in Hready; cbn in Hready; exact Hready.
Qed.

Lemma fire_Ok mf to pv cs : forall g,
  fire mf to pv cs g =
    Ok (tt, set_trace
              (trace g ++
               map (fun c => MpseMatch_call (user c) (user_tree c) to pv (user_list c)) cs)
              g).
Proof.
  induction cs as [|c cs IH]; intros g.
  - cbn. rewrite app_nil_r. now destruct g.
  - cbn [fire]. unfold bind, emit, modify, gets. cbn. rewrite IH. cbn.
    rewrite <- app_assoc. reflexivity.
Qed.

Lemma ruleidtbl_at_Ok this e id v g :
  instances g !! this = Some e ->
  ruleidtbl e !! id = Some v ->
  ruleidtbl_at this id g = Ok (v, g).
Proof.
  intros He Hv. unfold ruleidtbl_at.
  rewrite (bind_Ok _ _ _ _ _ (this_instance_Ok g this e He)).
  now rewrite Hv.
Qed.

Lemma dispatch_match_Ok this e mf pv m P g :
  instances g !! this = Some e ->
  resolves (heap g) e m P ->
  dispatch_match this mf pv m g =
    Ok (tt, set_trace (trace g ++ callbacks pv m P) g).
Proof.
  intros He (p & Htbl & HP). unfold dispatch_match.
  rewrite (bind_Ok _ _ _ _ _ (ruleidtbl_at_Ok this e _ _ g He Htbl)).
  cbn [deref]. unfold bind at 1. cbn [ret].
  rewrite (bind_Ok _ _ _ _ _ (load_pattern_Ok g p P HP)).
  apply fire_Ok.
Qed.

Lemma dispatch_matches_Ok this e mf pv resp n : forall i g Ps,
  instances g !! this = Some e ->
  Forall2 (resolves (heap g) e) (take n (drop i (match_data resp))) Ps ->
  List.length (take n (drop i (match_data resp))) = n ->
  dispatch_matches this mf pv resp n i g =
    Ok (tt, set_trace
              (trace g ++
               concat (zip_with (callbacks pv) (take n (drop i (match_data resp))) Ps))
              g).
Proof.
  induction n as [|n IH]; intros i g Ps He Hres Hlen.
  - cbn. rewrite app_nil_r. now destruct g.
  - destruct (drop i (match_data resp)) as [|m rest] eqn:Hdrop; [discriminate|].
    assert (Hm : match_data resp !! i = Some m).
    { pose proof (lookup_drop (match_data resp) i 0) as H.
      rewrite Hdrop, Nat.add_0_r in H. now symmetry. }
    assert (Hrest : drop (S i) (match_data resp) = rest).
    { replace (S i) with (i + 1)%nat by lia.
      rewrite <- drop_drop, Hdrop. reflexivity. }
    cbn [take] in Hres, Hlen |- *.
    inversion Hres as [|m' P ms' Ps' HmP Hres' E1 E2]. clear Hres. subst m' ms' Ps.
    rewrite <- Hrest in Hres', Hlen |- *.
    cbn [dispatch_matches]. rewrite Hm. unfold bind at 1. cbn [deref ret].
    rewrite (bind_Ok _ _ _ _ _ (dispatch_match_Ok this e mf pv m P g He HmP)).
    rewrite (IH (S i) _ Ps').
    + cbn. rewrite <- app_assoc. reflexivity.
    + exact He.
    + exact Hres'.
    + cbn in Hlen. lia.
Qed.

Lemma process_response_Ok this e mf pv status resp Ps g :
  instances g !! this = Some e ->
  Forall2 (resolves (heap g) e) (returned_matches resp) Ps ->
  List.length (returned_matches resp) = Z.to_nat (match_count resp) ->
  process_response this mf pv status resp g =
    Ok (tt, set_match_limit
              (if limit_exceeded resp then wrap64 (match_limit g + 1)
               else match_limit g)
              (set_trace (trace g ++ response_events pv status resp Ps) g)).
Proof.
  intros He Hres Hlen. unfold process_response, response_events, limit_exceeded.
  unfold returned_matches in *.
  destruct (match_count resp =? 0) eqn:Hmc.
  - apply Z.eqb_eq in Hmc. rewrite Hmc in *. cbn [Z.to_nat take] in *.
    inversion Hres; subst. cbn.
    destruct (status =? 0); unfold bind, emit, modify, ret; cbn;
      rewrite ?app_nil_r; now destruct g.
  - pose proof (dispatch_matches_Ok this e mf pv resp
                  (Z.to_nat (match_count resp)) 0) as Hd.
    cbn [drop] in Hd. cbn [negb andb].
    destruct (status =? 0), (detected_match_count resp >? match_count resp);
      unfold bind, emit, modify, ret; cbn;
      (rewrite (Hd _ Ps); [| exact He | exact Hres | exact Hlen]); cbn;
      rewrite <- ?app_assoc; reflexivity.
Qed.

Lemma rxp_search_Ok fuel this e buf n mf pv g k pkt Ps :
  instances g !! this = Some e ->
  ready_at lib (trace g ++ submission lib g e buf n) (portid g) k pkt ->
  (k < fuel)%nat ->
  Forall2 (resolves (heap g) e)
          (returned_matches (snd (decoded lib g e buf n k pkt))) Ps ->
  List.length (returned_matches (snd (decoded lib g e buf n k pkt))) =
    Z.to_nat (match_count (snd (decoded lib g e buf n k pkt))) ->
  rxp_search lib fuel this buf n mf pv g =
    Ok (0, searched lib g e buf n k pkt pv Ps).
Proof.
  intros He Hready Hfuel Hres Hlen. unfold rxp_search.
  rewrite (bind_Ok _ _ _ _ _ (submit_and_await_Ok fuel this e buf n g k pkt He Hready Hfuel)).
  cbn [fst snd].
  erewrite (bind_Ok _ _ _ _ _ (process_response_Ok this e mf pv _ _ Ps _ _ _ _)).
  - unfold bind, emit, modify, ret, searched. cbn. rewrite <- !app_assoc. reflexivity.
Unshelve.
  all: cbn; auto.
Qed.

End SearchFacts.

Section SearchClaims.

Context (lib : RxpLibrary).

Lemma filter_polls (f : event -> bool) port k :
  f (rxp_get_responses port 0 1) = false -> List.filter f (polls port k) = [].
Proof.
  intros Hf. induction k as [|k IH]; [reflexivity|].
  cbn. now rewrite Hf.
Qed.

Lemma omap_polls {A} (f : event -> option A) port k :
  f (rxp_get_responses port 0 1) = None -> omap f (polls port k) = [].
Proof.
  intros Hf. induction k as [|k IH]; [reflexivity|].
  cbn. now rewrite Hf.
Qed.

Lemma filter_all_callbacks (f : event -> bool) pv ms : forall Ps,
  (forall a b c d e, f (MpseMatch_call a b c d e) = true) ->
  List.filter f (concat (zip_with (callbacks pv) ms Ps)) =
  concat (zip_with (callbacks pv) ms Ps).
Proof.
  intros Ps Hf. apply forallb_filter_id. apply forallb_forall.
  intros ev Hin. apply in_concat in Hin. destruct Hin as (l & Hl & Hev).
  apply list_elem_of_In, elem_of_lookup_zip_with in Hl.
  destruct Hl as (i & m & P & -> & _ & _).
  unfold callbacks in Hev. apply in_map_iff in Hev.
  destruct Hev as (c & <- & _). apply Hf.
Qed.

Lemma filter_no_callbacks (f : event -> bool) pv ms : forall Ps,
  (forall a b c d e, f (MpseMatch_call a b c d e) = false) ->
  List.filter f (concat (zip_with (callbacks pv) ms Ps)) = [].
Proof.
  intros Ps Hf.
  assert (H : forall l, (forall ev, In ev l -> f ev = false) -> List.filter f l = []).
  { induction l as [|x l IH]; intros Hl; [reflexivity|].
    cbn. rewrite (Hl x) by now left. apply IH. intros ev Hev. apply Hl. now right. }
  apply H. intros ev Hin. apply in_concat in Hin. destruct Hin as (l & Hl & Hev).
  apply list_elem_of_In, elem_of_lookup_zip_with in Hl.
  destruct Hl as (i & m & P & -> & _ & _).
  unfold callbacks in Hev. apply in_map_iff in Hev.
  destruct Hev as (c & <- & _). apply Hf.
Qed.

Lemma omap_no_callbacks {A} (f : event -> option A) pv ms : forall Ps,
  (forall a b c d e, f (MpseMatch_call a b c d e) = None) ->
  omap f (concat (zip_with (callbacks pv) ms Ps)) = [].
Proof.
  intros Ps Hf.
  assert (H : forall l, (forall ev, In ev l -> f ev = None) -> omap f l = []).
  { induction l as [|x l IH]; intros Hl; [reflexivity|].
    cbn. rewrite (Hl x) by now left. apply IH. intros ev Hev. apply Hl. now right. }
  apply H. intros ev Hin. apply in_concat in Hin. destruct Hin as (l & Hl & Hev).
  apply list_elem_of_In, elem_of_lookup_zip_with in Hl.
  destruct Hl as (i & m & P & -> & _ & _).
  unfold callbacks in Hev. apply in_map_iff in Hev.
  destruct Hev as (c & <- & _). apply Hf.
Qed.

Lemma callbacks_expected pv ms : forall Ps,
  Forall offset_fits ms ->
  zip_with (callbacks pv) ms Ps = zip_with (expected_callbacks pv) ms Ps.
Proof.
  induction ms as [|m ms IH]; intros Ps Hfit; [reflexivity|].
  destruct Ps as [|P Ps]; [reflexivity|].
  inversion Hfit as [|? ? Hm Hms]; subst. cbn [zip_with].
  rewrite (IH Ps Hms). f_equal.
  unfold callbacks, expected_callbacks. now rewrite to_int_small.
Qed.

Lemma searched_trace g e buf n k pkt pv Ps :
  trace (searched lib g e buf n k pkt pv Ps) =
  trace g ++ search_events lib g e buf n k pkt pv Ps.
Proof.
  unfold searched, search_events, awaited. cbn [trace].
  rewrite <- !app_assoc. reflexivity.
Qed.

Lemma callbacks_of_search g e buf n k pkt pv Ps :
  List.filter is_callback (search_events lib g e buf n k pkt pv Ps) =
  concat (zip_with (callbacks pv)
            (returned_matches (snd (decoded lib g e buf n k pkt))) Ps).
Proof.
  unfold search_events, response_events, submission, truncation_warning.
  rewrite !List.filter_app, filter_polls by reflexivity.
  rewrite filter_all_callbacks by reflexivity.
  destruct (n >? RXP_MAX_JOB_LENGTH lib), (fst (decoded lib g e buf n k pkt) =? 0),
    (limit_exceeded (snd (decoded lib g e buf n k pkt)));
    cbn; now rewrite ?app_nil_r.
Qed.

(** C2. In a search that gets its response and whose returned matches all
    resolve in the table of the instance, the callback is called, for
    each returned match in order, once for every context of the pattern
    that owns the rule identifier, in the order of the context vector,
    with the start offset plus the length as end offset; these are all
    the calls of the callback, and the state left behind is the same
    whatever the callback returns. *)
Theorem every_match_fires_every_context fuel this e buf n pv g k pkt Ps :
  instances g !! this = Some e ->
  ready_at lib (trace g ++ submission lib g e buf n) (portid g) k pkt ->
  (k < fuel)%nat ->
  Forall2 (resolves (heap g) e)
          (returned_matches (snd (decoded lib g e buf n k pkt))) Ps ->
  List.length (returned_matches (snd (decoded lib g e buf n k pkt))) =
    Z.to_nat (match_count (snd (decoded lib g e buf n k pkt))) ->
  Forall offset_fits (returned_matches (snd (decoded lib g e buf n k pkt))) ->
  exists g' evs,
    (forall mf : MpseMatch, rxp_search lib fuel this buf n mf pv g = Ok (0, g')) /\
    trace g' = trace g ++ evs /\
    List.filter is_callback evs =
      concat (zip_with (expected_callbacks pv)
                (returned_matches (snd (decoded lib g e buf n k pkt))) Ps).
Proof.
  intros He Hready Hfuel Hres Hlen Hfit.
  exists (searched lib g e buf n k pkt pv Ps),
         (search_events lib g e buf n k pkt pv Ps).
  split; [|split].
  - intros mf. now apply rxp_search_Ok.
  - apply searched_trace.
  - rewrite callbacks_of_search. now rewrite callbacks_expected.
Qed.


Lemma truncation_warnings_of_search g e buf n k pkt pv Ps :
  List.filter is_truncation_warning (search_events lib g e buf n k pkt pv Ps) =
  truncation_warning lib n.
Proof.
  unfold search_events, response_events, submission, truncation_warning.
  rewrite !List.filter_app, filter_polls by reflexivity.
  rewrite filter_no_callbacks by reflexivity.
  destruct (n >? RXP_MAX_JOB_LENGTH lib), (fst (decoded lib g e buf n k pkt) =? 0),
    (limit_exceeded (snd (decoded lib g e buf n k pkt)));
    reflexivity.
Qed.

Lemma match_limit_warnings_of_search g e buf n k pkt pv Ps :
  List.filter is_match_limit_warning (search_events lib g e buf n k pkt pv Ps) =
  if limit_exceeded (snd (decoded lib g e buf n k pkt))
  then [LogMessage match_limit_format
          [detected_match_count (snd (decoded lib g e buf n k pkt));
           match_count (snd (decoded lib g e buf n k pkt))]]
  else [].
Proof.
  unfold search_events, response_events, submission, truncation_warning.
  rewrite !List.filter_app, filter_polls by reflexivity.
  rewrite filter_no_callbacks by reflexivity.
  destruct (n >? RXP_MAX_JOB_LENGTH lib), (fst (decoded lib g e buf n k pkt) =? 0),
    (limit_exceeded (snd (decoded lib g e buf n k pkt)));
    reflexivity.
Qed.

Lemma submitted_lengths_of_search g e buf n k pkt pv Ps :
  submitted_lengths (search_events lib g e buf n k pkt pv Ps) = [job_length lib n].
Proof.
  unfold submitted_lengths, search_events, response_events, submission,
    truncation_warning.
  rewrite !omap_app, omap_polls by reflexivity.
  rewrite omap_no_callbacks by reflexivity.
  destruct (n >? RXP_MAX_JOB_LENGTH lib), (fst (decoded lib g e buf n k pkt) =? 0),
    (limit_exceeded (snd (decoded lib g e buf n k pkt)));
    reflexivity.
Qed.

(** *** A rule identifier that does not resolve *)

Lemma dispatch_match_miss this e mf pv m g :
  instances g !! this = Some e ->
  ruleidtbl e !! rule_id m = None ->
  dispatch_match this mf pv m g = Fault NullDeref.
Proof.
  intros He Hmiss. unfold dispatch_match, ruleidtbl_at.
  unfold bind at 1. unfold bind at 1.
  rewrite (this_instance_Ok g this e He), Hmiss. reflexivity.
Qed.

Lemma never_assigned_miss g e id :
  tables_sound g -> In e (instances g) -> never_assigned g id ->
  ruleidtbl e !! id = None.
Proof.
  intros Hsound He Hnever.
  destruct (ruleidtbl e !! id) as [v|] eqn:Hv; [|reflexivity].
  destruct (Hsound e id v He Hv) as (p & P & _ & HP & Hid).
  exfalso. apply (Hnever P); [|exact Hid].
  apply list_elem_of_In, list_elem_of_lookup. now exists p.
Qed.

Lemma dispatch_matches_stray this e mf pv resp n : forall i0 g j m,
  instances g !! this = Some e ->
  (forall id v, ruleidtbl e !! id = Some v ->
     exists p P, v = Some p /\ heap g !! p = Some P) ->
  (j < n)%nat ->
  match_data resp !! (i0 + j)%nat = Some m ->
  ruleidtbl e !! rule_id m = None ->
  dispatch_matches this mf pv resp n i0 g = Fault NullDeref.
Proof.
  induction n as [|n IH]; intros i0 g j m He Hsound Hj Hm Hmiss; [lia|].
  cbn [dispatch_matches].
  destruct j as [|j].
  - rewrite Nat.add_0_r in Hm. rewrite Hm. unfold bind at 1. cbn [deref ret].
    now rewrite (bind_Fault _ _ _ _ (dispatch_match_miss this e mf pv m g He Hmiss)).
  - destruct (match_data resp !! i0) as [m0|] eqn:Hm0.
    2:{ apply lookup_ge_None in Hm0. apply lookup_lt_Some in Hm. lia. }
    unfold bind at 1. cbn [deref ret].
    destruct (ruleidtbl e !! rule_id m0) as [v|] eqn:Hv.
    + destruct (Hsound _ _ Hv) as (p & P & -> & HP).
      assert (Hres : resolves (heap g) e m0 P) by (exists p; auto).
      rewrite (bind_Ok _ _ _ _ _ (dispatch_match_Ok this e mf pv m0 P g He Hres)).
      apply (IH (S i0) _ j m); auto.
      * lia.
      * now replace (S i0 + j)%nat with (i0 + S j)%nat by lia.
    + now rewrite (bind_Fault _ _ _ _ (dispatch_match_miss this e mf pv m0 g He Hv)).
Qed.

Lemma process_response_stray this e mf pv status resp g i m :
  instances g !! this = Some e ->
  (forall id v, ruleidtbl e !! id = Some v ->
     exists p P, v = Some p /\ heap g !! p = Some P) ->
  returned_matches resp !! i = Some m ->
  ruleidtbl e !! rule_id m = None ->
  process_response this mf pv status resp g = Fault NullDeref.
Proof.
  intros He Hsound Hm Hmiss. unfold returned_matches in Hm.
  apply lookup_take_Some in Hm. destruct Hm as (Hm & Hi).
  unfold process_response.
  assert (Hmc : (match_count resp =? 0) = false).
  { apply Z.eqb_neq. intros H0. rewrite H0 in Hi. cbn in Hi. lia. }
  rewrite Hmc.
  destruct (status =? 0), (detected_match_count resp >? match_count resp);
    unfold bind, emit, modify, ret; cbn;
    erewrite (dispatch_matches_stray this e mf pv resp _ 0 _ i m); eauto.
Qed.

(** C7, what the code does. A search that gets its response, in a process
    whose tables are sound (as they are in every state a process gets to),
    and in which some returned match carries a rule identifier that no
    [add_pattern] call has assigned, looks the identifier up with
    [operator[]], is handed the null pointer of the entry this makes, and
    dereferences it for its contexts (lines 313-315): undefined behaviour,
    here the fault [NullDeref], whatever the callback. The source tests
    nothing, logs nothing and aborts nothing at this place: the loud
    diagnostic that the specification asks for is not produced. *)
Theorem unassigned_rule_id_dereferences_null fuel this e buf n pv g k pkt i m :
  instances g !! this = Some e ->
  tables_sound g ->
  ready_at lib (trace g ++ submission lib g e buf n) (portid g) k pkt ->
  (k < fuel)%nat ->
  returned_matches (snd (decoded lib g e buf n k pkt)) !! i = Some m ->
  never_assigned g (rule_id m) ->
  forall mf : MpseMatch,
    rxp_search lib fuel this buf n mf pv g = Fault NullDeref /\
    (forall r, rxp_search lib fuel this buf n mf pv g <> Ok r).
Proof.
  intros He Hsound Hready Hfuel Hm Hnever mf.
  assert (Hin : In e (instances g)).
  { apply list_elem_of_In, list_elem_of_lookup. now exists this. }
  assert (Hfault : rxp_search lib fuel this buf n mf pv g = Fault NullDeref).
  { unfold rxp_search.
    rewrite (bind_Ok _ _ _ _ _
               (submit_and_await_Ok lib fuel this e buf n g k pkt He Hready Hfuel)).
    cbn [fst snd]. apply bind_Fault.
    apply (process_response_stray this e mf pv _ _ _ i m).
    - exact He.
    - intros id v Hv. destruct (Hsound e id v Hin Hv) as (p & P & -> & HP & _).
      now exists p, P.
    - exact Hm.
    - now apply (never_assigned_miss g e). }
  split; [exact Hfault|]. intros r. rewrite Hfault. discriminate.
Qed.

(** *** Limits *)

(** C8, as the code has it. In a search that gets its response and whose
    returned matches all resolve, a response with a non-zero match count
    below its detected match count makes the search log the warning once,
    add one to the match-limit counter (a [uint64_t]: exactly one below its
    maximum), call the callback for the returned matches and no others,
    submit no second job, and return 0. *)
Theorem match_limit_counted_when_matches_returned
    fuel this e buf n mf pv g k pkt Ps :
  instances g !! this = Some e ->
  ready_at lib (trace g ++ submission lib g e buf n) (portid g) k pkt ->
  (k < fuel)%nat ->
  Forall2 (resolves (heap g) e)
          (returned_matches (snd (decoded lib g e buf n k pkt))) Ps ->
  List.length (returned_matches (snd (decoded lib g e buf n k pkt))) =
    Z.to_nat (match_count (snd (decoded lib g e buf n k pkt))) ->
  match_count (snd (decoded lib g e buf n k pkt)) <> 0 ->
  detected_match_count (snd (decoded lib g e buf n k pkt)) >
    match_count (snd (decoded lib g e buf n k pkt)) ->
  exists g' evs,
    rxp_search lib fuel this buf n mf pv g = Ok (0, g') /\
    trace g' = trace g ++ evs /\
    List.filter is_match_limit_warning evs =
      [LogMessage match_limit_format
         [detected_match_count (snd (decoded lib g e buf n k pkt));
          match_count (snd (decoded lib g e buf n k pkt))]] /\
    match_limit g' = wrap64 (match_limit g + 1) /\
    (0 <= match_limit g < 2 ^ 64 - 1 -> match_limit g' = match_limit g + 1) /\
    List.filter is_callback evs =
      concat (zip_with (callbacks pv)
                (returned_matches (snd (decoded lib g e buf n k pkt))) Ps) /\
    List.length Ps = Z.to_nat (match_count (snd (decoded lib g e buf n k pkt))) /\
    List.length (submitted_lengths evs) = 1%nat.
Proof.
  intros He Hready Hfuel Hres Hlen Hmc Hdet.
  assert (Hex : limit_exceeded (snd (decoded lib g e buf n k pkt)) = true).
  { unfold limit_exceeded. apply andb_true_intro. split.
    - apply negb_true_iff, Z.eqb_neq, Hmc.
    - apply Z.gtb_lt. lia. }
  exists (searched lib g e buf n k pkt pv Ps),
         (search_events lib g e buf n k pkt pv Ps).
  split; [now apply rxp_search_Ok|].
  split; [apply searched_trace|].
  split; [rewrite match_limit_warnings_of_search; now rewrite Hex|].
  split; [cbn; now rewrite Hex|].
  split; [cbn; rewrite Hex; intros Hr; apply wrap64_small; lia|].
  split; [apply callbacks_of_search|].
  split; [rewrite <- Hlen; symmetry; eapply Forall2_length; eauto|].
  now rewrite submitted_lengths_of_search.
Qed.

(** *** The job size *)

Lemma submit_and_await_clamped fuel this buf n g :
  n > RXP_MAX_JOB_LENGTH lib ->
  submit_and_await lib fuel this buf n g =
  submit_and_await lib fuel this buf (RXP_MAX_JOB_LENGTH lib)
    (set_trace
       (trace g ++ [LogMessage truncation_format [n; RXP_MAX_JOB_LENGTH lib]]) g).
Proof.
  intros Hn. unfold submit_and_await.
  assert (H1 : (n >? RXP_MAX_JOB_LENGTH lib) = true) by (apply Z.gtb_lt; lia).
  assert (H2 : (RXP_MAX_JOB_LENGTH lib >? RXP_MAX_JOB_LENGTH lib) = false)
    by (rewrite Z.gtb_ltb; apply Z.ltb_irrefl).
  rewrite H1, H2.
  destruct (instances g !! this) as [e|] eqn:He.
  - rewrite (bind_Ok _ _ _ _ _ (this_instance_Ok g this e He)).
    rewrite (bind_Ok _ _ _ _ _ (this_instance_Ok (set_trace _ g) this e He)).
    reflexivity.
  - assert (Hbad : forall g', instances g' = instances g ->
                     this_instance this g' = Fault BadAddress).
    { intros g' Hg'. unfold this_instance. now rewrite Hg', He. }
    rewrite (bind_Fault _ _ _ _ (Hbad g eq_refl)).
    symmetry. apply bind_Fault, Hbad. reflexivity.
Qed.

(** C9. A search that gets its response and whose returned matches all
    resolve returns 0 after submitting one job. When the length passed
    is above [RXP_MAX_JOB_LENGTH] the job has exactly that length, one
    truncation warning is logged, and the search is the search of
    [RXP_MAX_JOB_LENGTH] bytes of the same buffer made after the warning:
    the callback is called for the matches the device returns for that
    job. When the length is at or below the limit the job has the length
    passed and no truncation warning is logged. *)
Theorem job_length_clamped_with_one_warning
    fuel this e buf n mf pv g k pkt Ps :
  instances g !! this = Some e ->
  ready_at lib (trace g ++ submission lib g e buf n) (portid g) k pkt ->
  (k < fuel)%nat ->
  Forall2 (resolves (heap g) e)
          (returned_matches (snd (decoded lib g e buf n k pkt))) Ps ->
  List.length (returned_matches (snd (decoded lib g e buf n k pkt))) =
    Z.to_nat (match_count (snd (decoded lib g e buf n k pkt))) ->
  exists g' evs,
    rxp_search lib fuel this buf n mf pv g = Ok (0, g') /\
    trace g' = trace g ++ evs /\
    List.filter is_callback evs =
      concat (zip_with (callbacks pv)
                (returned_matches (snd (decoded lib g e buf n k pkt))) Ps) /\
    (n > RXP_MAX_JOB_LENGTH lib ->
       submitted_lengths evs = [RXP_MAX_JOB_LENGTH lib] /\
       List.filter is_truncation_warning evs =
         [LogMessage truncation_format [n; RXP_MAX_JOB_LENGTH lib]] /\
       rxp_search lib fuel this buf n mf pv g =
       rxp_search lib fuel this buf (RXP_MAX_JOB_LENGTH lib) mf pv
         (set_trace
            (trace g ++ [LogMessage truncation_format [n; RXP_MAX_JOB_LENGTH lib]])
            g)) /\
    (n <= RXP_MAX_JOB_LENGTH lib ->
       submitted_lengths evs = [n] /\
       List.filter is_truncation_warning evs = []).
Proof.
  intros He Hready Hfuel Hres Hlen.
  exists (searched lib g e buf n k pkt pv Ps),
         (search_events lib g e buf n k pkt pv Ps).
  split; [now apply rxp_search_Ok|].
  split; [apply searched_trace|].
  split; [apply callbacks_of_search|].
  rewrite submitted_lengths_of_search, truncation_warnings_of_search.
  unfold job_length, truncation_warning. split; intros Hn.
  - assert (H1 : (n >? RXP_MAX_JOB_LENGTH lib) = true) by (apply Z.gtb_lt; lia).
    rewrite H1. split; [reflexivity|]. split; [reflexivity|].
    unfold rxp_search. unfold bind at 1 4.
    now rewrite submit_and_await_clamped.
  - assert (H1 : (n >? RXP_MAX_JOB_LENGTH lib) = false)
      by (rewrite Z.gtb_ltb; apply Z.ltb_ge; lia).
    rewrite H1. split; reflexivity.
Qed.

End SearchClaims.

Lemma every_match_fires_every_context_witness :
  exists g' evs,
    (forall mf : MpseMatch,
       rxp_search (toy_device one_match) 5 0 GET 3 mf 77 registry_GET_twice
       = Ok (0, g')) /\
    trace g' = trace registry_GET_twice ++ evs /\
    List.filter is_callback evs =
      [MpseMatch_call 101 0 10 77 0; MpseMatch_call 102 0 10 77 0].
Proof.
  assert (Hret : returned_matches
                   (snd (decoded (toy_device one_match) registry_GET_twice
                           (instance_at registry_GET_twice 0) GET 3 2 9000))
                 = [mkMatch 1 7 3]) by reflexivity.
  destruct (every_match_fires_every_context (toy_device one_match) 5 0
              (instance_at registry_GET_twice 0) GET 3 77 registry_GET_twice
              2 9000 [pattern_at registry_GET_twice 0])
    as (g' & evs & Hrun & Htrace & Hcalls).
  - vm_compute. reflexivity.
  - repeat split.
    + intros [|[|j]] Hj; [reflexivity | reflexivity | lia].
    + vm_compute. discriminate.
  - lia.
  - rewrite Hret. constructor; [|constructor].
    exists 0%nat. split; vm_compute; reflexivity.
  - reflexivity.
  - rewrite Hret. constructor; [|constructor]. unfold offset_fits. cbn. lia.
  - exists g', evs. split; [exact Hrun|]. split; [exact Htrace|].
    rewrite Hcalls. vm_compute. reflexivity.
Defined.
(** ** Soundness of the tables is an invariant *)

Lemma find_pattern_inv pattern ps : forall g r g',
  find_pattern pattern ps g = Ok (r, g') ->
  g' = g /\ forall p, r = Some p -> exists P, heap g !! p = Some P.
Proof.
  induction ps as [|q ps IH]; intros g r g' H.
  - cbn in H. injection H as <- <-. split; [reflexivity|]. discriminate.
  - cbn [find_pattern] in H. unfold bind at 1 in H. unfold load_pattern in H.
    destruct (heap g !! q) as [Q|] eqn:HQ; [|discriminate]. cbn [deref ret] in H.
    unfold bind at 1 in H. destruct (pat Q) as [s|]; [|discriminate].
    cbn [deref ret] in H. unfold bind at 1 in H.
    destruct pattern as [t|]; [|discriminate]. cbn [deref ret] in H.
    destruct (String.eqb s t).
    + injection H as <- <-. split; [reflexivity|].
      intros p [= <-]. now exists Q.
    + now apply IH.
Qed.

Lemma tables_sound_start : tables_sound process_start.
Proof. intros e id v []. Qed.

Lemma tables_sound_rxp_ctor a g this g' :
  tables_sound g -> rxp_ctor a g = Ok (this, g') -> tables_sound g'.
Proof.
  intros Hsound [= <- <-] e id v Hin Hv. cbn in Hin.
  apply in_app_or in Hin. destruct Hin as [Hin|[<-|[]]].
  - exact (Hsound e id v Hin Hv).
  - cbn in Hv. now rewrite lookup_empty in Hv.
Qed.

Lemma tables_sound_rxp_init g g' :
  tables_sound g -> rxp_init g = Ok (tt, g') -> tables_sound g'.
Proof. intros Hsound [= <-]. exact Hsound. Qed.

Lemma tables_sound_add_pattern this bytes desc u g r g' :
  tables_sound g ->
  add_pattern this bytes desc u g = Ok (r, g') ->
  tables_sound g'.
Proof.
  intros Hsound Hadd.
  destruct (instances g !! this) as [e|] eqn:He.
  2:{ unfold add_pattern, bind, this_instance in Hadd. now rewrite He in Hadd. }
  destruct (find_pattern (rxp_escape_pattern bytes) (pats e) g)
    as [[found g1]| |] eqn:Hfind.
  2,3: unfold add_pattern in Hadd;
       rewrite (bind_Ok _ _ _ _ _ (this_instance_Ok g this e He)) in Hadd;
       unfold bind in Hadd; now rewrite Hfind in Hadd.
  destruct (find_pattern_inv _ _ _ _ _ Hfind) as (-> & Hfound).
  destruct found as [p|].
  - destruct (Hfound p eq_refl) as (P & HP).
    unfold add_pattern in Hadd.
    rewrite (bind_Ok _ _ _ _ _ (this_instance_Ok g this e He)) in Hadd.
    rewrite (bind_Ok _ _ _ _ _ Hfind) in Hadd.
    rewrite (bind_Ok _ _ _ _ _ (load_pattern_Ok g p P HP)) in Hadd.
    injection Hadd as <- <-.
    intros e' id v Hin Hv. cbn in Hin.
    destruct (Hsound e' id v Hin Hv) as (q & Q & -> & HQ & Hid).
    destruct (decide (q = p)) as [->|Hne].
    + exists p, (push_userctx (UserCtx_ctor u) P). cbn.
      rewrite list_lookup_insert_eq by (eapply lookup_lt_Some; eauto).
      repeat split. congruence.
    + exists q, Q. cbn. rewrite list_lookup_insert_ne by congruence. auto.
  - rewrite (add_pattern_fresh g this e bytes desc u He Hfind) in Hadd.
    injection Hadd as <- <-.
    assert (Hold : forall e0 id v, In e0 (instances g) ->
              ruleidtbl e0 !! id = Some v ->
              exists q Q, v = Some q /\
                (heap g ++ [RxpPattern_ctor (rxp_escape_pattern bytes) desc u
                              (wrap16 (wrap64 (patterns g + 1)))]) !! q = Some Q /\
                ruleid Q = id).
    { intros e0 id v Hin Hv.
      destruct (Hsound e0 id v Hin Hv) as (q & Q & -> & HQ & Hid).
      exists q, Q. repeat split; [|exact Hid].
      apply lookup_app_l_Some. exact HQ. }
    intros e' id v Hin Hv. cbn [with_new_pattern heap instances] in *.
    apply list_elem_of_In, list_elem_of_lookup in Hin. destruct Hin as (i & Hi).
    apply list_lookup_insert_Some in Hi.
    destruct Hi as [(-> & <- & Hlt)|(Hne & Hi)].
    + cbn [ruleidtbl] in Hv. apply lookup_insert_Some in Hv.
      destruct Hv as [(<- & <-)|(Hne & Hv)].
      * eexists _, _. split; [reflexivity|]. split.
        -- rewrite lookup_app_r by lia. rewrite Nat.sub_diag. reflexivity.
        -- reflexivity.
      * apply (Hold e id v); [|exact Hv].
        apply list_elem_of_In, list_elem_of_lookup. now exists i.
    + apply (Hold e' id v); [|exact Hv].
      apply list_elem_of_In, list_elem_of_lookup. now exists i.
Qed.

Lemma tables_sound_registry_GET_twice : tables_sound registry_GET_twice.
Proof.
  apply (tables_sound_add_pattern 0 GET plain 102 registry_GET 0); [|reflexivity].
  apply (tables_sound_add_pattern 0 GET plain 101 one_instance 0); [|reflexivity].
  apply (tables_sound_rxp_ctor quiet_agent process_start 0); [|reflexivity].
  apply tables_sound_start.
Qed.

Lemma toy_device_ready resp g e buf n pkt :
  List.filter is_get_responses (trace g) = [] ->
  pkt = 9000 ->
  ready_at (toy_device resp)
    (trace g ++ submission (toy_device resp) g e buf n) (portid g) 2 pkt.
Proof.
  intros Hnone ->.
  assert (Hcount : forall j,
            List.length
              (List.filter is_get_responses
                 ((trace g ++ submission (toy_device resp) g e buf n) ++
                  polls (portid g) j)) = j).
  { intros j. rewrite !List.filter_app, Hnone.
    unfold submission, truncation_warning.
    destruct (n >? RXP_MAX_JOB_LENGTH (toy_device resp)); cbn [app List.filter is_get_responses];
      induction j as [|j IH]; cbn in *; auto. }
  unfold ready_at. cbn [get_responses_result toy_device].
  repeat split.
  - intros j Hj. rewrite Hcount. destruct j as [|[|j]]; [reflexivity | reflexivity | lia].
  - rewrite Hcount. cbn. discriminate.
  - rewrite Hcount. reflexivity.
Qed.

Lemma unassigned_rule_id_dereferences_null_witness :
  rxp_search (toy_device stray_match) 5 0 GET 3 stop_always 77 registry_GET_twice
  = Fault NullDeref.
Proof.
  apply (unassigned_rule_id_dereferences_null (toy_device stray_match) 5 0
           (instance_at registry_GET_twice 0) GET 3 77 registry_GET_twice
           2 9000 0 (mkMatch 9 7 3)).
  - reflexivity.
  - exact tables_sound_registry_GET_twice.
  - apply toy_device_ready; reflexivity.
  - lia.
  - reflexivity.
  - intros P [<-|[]]. vm_compute. discriminate.
Defined.

Lemma match_limit_counted_when_matches_returned_witness :
  exists g' evs,
    rxp_search (toy_device five_detected_three_returned) 5 0 GET 3 stop_always 77
      registry_GET = Ok (0, g') /\
    trace g' = trace registry_GET ++ evs /\
    match_limit g' = match_limit registry_GET + 1 /\
    List.length (List.filter is_match_limit_warning evs) = 1%nat /\
    List.filter is_callback evs =
      [MpseMatch_call 101 0 3 77 0; MpseMatch_call 101 0 7 77 0;
       MpseMatch_call 101 0 11 77 0].
Proof.
  set (e := instance_at registry_GET 0).
  set (P := pattern_at registry_GET 0).
  assert (Hret : returned_matches
                   (snd (decoded (toy_device five_detected_three_returned)
                           registry_GET e GET 3 2 9000))
                 = [mkMatch 1 0 3; mkMatch 1 4 3; mkMatch 1 8 3]) by reflexivity.
  assert (Hres : forall m, rule_id m = 1 -> resolves (heap registry_GET) e m P).
  { intros m Hm. exists 0%nat. rewrite Hm. split; reflexivity. }
  destruct (match_limit_counted_when_matches_returned
              (toy_device five_detected_three_returned) 5 0 e GET 3 stop_always 77
              registry_GET 2 9000 [P; P; P])
    as (g' & evs & Hrun & Htrace & Hwarn & Hlimit & _ & Hcalls & _).
  - reflexivity.
  - apply toy_device_ready; reflexivity.
  - lia.
  - rewrite Hret. repeat constructor; now apply Hres.
  - reflexivity.
  - cbn. discriminate.
  - cbn. reflexivity.
  - exists g', evs. split; [exact Hrun|]. split; [exact Htrace|].
    split; [rewrite Hlimit; reflexivity|].
    split; [rewrite Hwarn; reflexivity|].
    rewrite Hcalls, Hret. reflexivity.
Defined.

(** C8, as stated, fails on a response with two matches detected and none
    returned: the search returns with the match-limit counter where it
    was and without the warning. *)
Lemma match_limit_not_counted_without_matches :
  exists g',
    rxp_search (toy_device two_detected_none_returned) 5 0 GET 3 stop_always 77
      registry_GET_twice = Ok (0, g') /\
    detected_match_count two_detected_none_returned >
      match_count two_detected_none_returned /\
    match_limit g' = match_limit registry_GET_twice /\
    List.filter is_match_limit_warning (trace g') = [].
Proof.
  eexists. split; [vm_compute; reflexivity|].
  split; [reflexivity|]. split; reflexivity.
Qed.

Lemma job_length_clamped_with_one_warning_witness :
  exists g' evs,
    rxp_search (toy_device one_match) 5 0 (GET ++ GET ++ GET ++ GET ++ GET ++ GET)
      18 stop_always 77 registry_GET_twice = Ok (0, g') /\
    trace g' = trace registry_GET_twice ++ evs /\
    submitted_lengths evs = [16] /\
    List.length (List.filter is_truncation_warning evs) = 1%nat /\
    List.filter is_callback evs =
      [MpseMatch_call 101 0 10 77 0; MpseMatch_call 102 0 10 77 0].
Proof.
  set (e := instance_at registry_GET_twice 0).
  set (P := pattern_at registry_GET_twice 0).
  set (buf := GET ++ GET ++ GET ++ GET ++ GET ++ GET).
  assert (Hret : returned_matches
                   (snd (decoded (toy_device one_match)
                           registry_GET_twice e buf 18 2 9000))
                 = [mkMatch 1 7 3]) by reflexivity.
  destruct (job_length_clamped_with_one_warning
              (toy_device one_match) 5 0 e buf 18 stop_always 77
              registry_GET_twice 2 9000 [P])
    as (g' & evs & Hrun & Htrace & Hcalls & Hover & _).
  - reflexivity.
  - apply toy_device_ready; reflexivity.
  - lia.
  - rewrite Hret. repeat constructor. exists 0%nat. split; reflexivity.
  - reflexivity.
  - destruct Hover as (Hlen & Hwarn & _); [cbn; lia|].
    exists g', evs. split; [exact Hrun|]. split; [exact Htrace|].
    split; [exact Hlen|]. split; [rewrite Hwarn; reflexivity|].
    rewrite Hcalls, Hret. reflexivity.
Defined.

(** ** What the calls keep *)

Lemma bind_Ok_inv {S A B} (m : M S A) (k : A -> M S B) s b s2 :
  bind m k s = Ok (b, s2) ->
  exists a s1, m s = Ok (a, s1) /\ k a s1 = Ok (b, s2).
Proof.
  unfold bind. destruct (m s) as [[a s1]| |]; [|discriminate..].
  intros H. now exists a, s1.
Qed.

(** Finalisation changes the tree and list slots only. *)
Lemma ctor_patterns_keeps a sc ps : forall g u g',
  ctor_patterns a sc ps g = Ok (u, g') ->
  map shape (heap g') = map shape (heap g) /\ instances g' = instances g.
Proof.
  induction ps as [|p ps IH]; intros g u g' H.
  - injection H as _ <-. auto.
  - cbn [ctor_patterns] in H.
    apply bind_Ok_inv in H. destruct H as ([] & g1 & H1 & H2).
    destruct (heap g !! p) as [P|] eqn:HP.
    2:{ unfold ctor_pattern, bind, load_pattern in H1. now rewrite HP in H1. }
    destruct (ctor_pattern_spec a sc p P g HP) as (P' & evs & Hrun & Hsh & _).
    rewrite Hrun in H1. injection H1 as <-.
    destruct (IH _ _ _ H2) as (Hs & Hi). split.
    + rewrite Hs. cbn. eapply shapes_insert; eauto.
    + rewrite Hi. reflexivity.
Qed.

Lemma prep_patterns_keeps this sc g r g' :
  prep_patterns this sc g = Ok (r, g') ->
  map shape (heap g') = map shape (heap g) /\ instances g' = instances g.
Proof.
  intros H. unfold prep_patterns in H.
  apply bind_Ok_inv in H. destruct H as ([] & g1 & H1 & H2).
  injection H2 as _ <-. unfold user_ctor in H1.
  apply bind_Ok_inv in H1. destruct H1 as (e & g0 & He & H1).
  unfold this_instance in He.
  destruct (instances g !! this); [|discriminate]. injection He as <- <-.
  eapply ctor_patterns_keeps; eauto.
Qed.

(** A search that returns has changed no pattern and no instance. *)
Lemma await_response_keeps lib fuel : forall g pkt g',
  await_response lib fuel g = Ok (pkt, g') ->
  heap g' = heap g /\ instances g' = instances g.
Proof.
  induction fuel as [|fuel IH]; intros g pkt g' H; [discriminate|].
  cbn [await_response] in H. unfold bind, gets, emit, modify in H.
  cbn [fst snd] in H.
  match type of H with
  | (if ?c then _ else _) _ = _ => destruct c
  end.
  - apply IH in H. cbn in H. exact H.
  - injection H as _ <-. auto.
Qed.

Lemma submit_and_await_keeps lib fuel this buf n g r g' :
  submit_and_await lib fuel this buf n g = Ok (r, g') ->
  heap g' = heap g /\ instances g' = instances g.
Proof.
  intros H. unfold submit_and_await in H.
  apply bind_Ok_inv in H. destruct H as (e & g0 & He & H).
  unfold this_instance in He.
  destruct (instances g !! this); [|discriminate]. injection He as <- <-.
  destruct (n >? RXP_MAX_JOB_LENGTH lib);
    unfold bind at 1 in H; unfold bind at 1 in H; cbn [emit modify ret] in H;
    unfold bind, gets, emit, modify, ret in H; cbn in H;
    match type of H with
    | context [await_response lib fuel ?g1] =>
        destruct (await_response lib fuel g1) as [[pkt g2]| |] eqn:Haw;
        [|discriminate..];
        apply await_response_keeps in Haw; cbn in Haw
    end;
    injection H as _ <-; exact Haw.
Qed.

Lemma dispatch_match_keeps this mf pv m g u g' :
  dispatch_match this mf pv m g = Ok (u, g') ->
  heap g' = heap g /\ instances g' = instances g.
Proof.
  intros H. unfold dispatch_match in H.
  apply bind_Ok_inv in H. destruct H as (v & g1 & Hv & H).
  unfold ruleidtbl_at in Hv.
  apply bind_Ok_inv in Hv. destruct Hv as (e & g0 & He & Hv).
  unfold this_instance in He.
  destruct (instances g !! this) as [e'|]; [|discriminate].
  injection He as <- <-.
  destruct (ruleidtbl e' !! rule_id m) as [w|].
  - injection Hv as <- <-.
    destruct w as [p|]; [|discriminate].
    cbn [deref] in H. unfold bind at 1 in H. cbn [ret] in H.
    apply bind_Ok_inv in H. destruct H as (P & g2 & HP & H).
    unfold load_pattern in HP.
    destruct (heap g !! p); [|discriminate]. injection HP as <- <-.
    rewrite fire_Ok in H. injection H as _ <-. auto.
  - unfold bind, store_instance, modify, ret in Hv. injection Hv as <- <-.
    discriminate.
Qed.

Lemma dispatch_matches_keeps this mf pv resp n : forall i g u g',
  dispatch_matches this mf pv resp n i g = Ok (u, g') ->
  heap g' = heap g /\ instances g' = instances g.
Proof.
  induction n as [|n IH]; intros i g u g' H.
  - injection H as _ <-. auto.
  - cbn [dispatch_matches] in H.
    apply bind_Ok_inv in H. destruct H as (m & g0 & Hm & H).
    destruct (match_data resp !! i); [|discriminate]. injection Hm as <- <-.
    apply bind_Ok_inv in H. destruct H as ([] & g1 & H1 & H2).
    apply dispatch_match_keeps in H1. apply IH in H2.
    destruct H1 as (E1 & E2), H2 as (E3 & E4). split; congruence.
Qed.

Lemma process_response_keeps this mf pv status resp g u g' :
  process_response this mf pv status resp g = Ok (u, g') ->
  heap g' = heap g /\ instances g' = instances g.
Proof.
  intros H. unfold process_response in H.
  apply bind_Ok_inv in H. destruct H as ([] & g1 & H1 & H).
  assert (Hg1 : heap g1 = heap g /\ instances g1 = instances g).
  { destruct (status =? 0); injection H1 as <-; auto. }
  destruct Hg1 as (E1 & E2).
  destruct (match_count resp =? 0).
  - injection H as _ <-. auto.
  - apply bind_Ok_inv in H. destruct H as ([] & g2 & H2 & H).
    apply dispatch_matches_keeps in H. destruct H as (E3 & E4).
    assert (Hg2 : heap g2 = heap g1 /\ instances g2 = instances g1).
    { destruct (detected_match_count resp >? match_count resp);
        injection H2 as <-; auto. }
    destruct Hg2 as (E5 & E6). split; congruence.
Qed.

Lemma rxp_search_keeps lib fuel this buf n mf pv g r g' :
  rxp_search lib fuel this buf n mf pv g = Ok (r, g') ->
  heap g' = heap g /\ instances g' = instances g.
Proof.
  intros H. unfold rxp_search in H.
  apply bind_Ok_inv in H. destruct H as (x & g1 & H1 & H).
  apply bind_Ok_inv in H. destruct H as ([] & g2 & H2 & H).
  injection H as _ <-.
  apply submit_and_await_keeps in H1. apply process_response_keeps in H2.
  destruct H1 as (E1 & E2), H2 as (E3 & E4). cbn. split; congruence.
Qed.

Lemma tables_sound_shapes g g' :
  map shape (heap g') = map shape (heap g) -> instances g' = instances g ->
  tables_sound g -> tables_sound g'.
Proof.
  intros Hs Hi Hsound e id v Hin Hv. rewrite Hi in Hin.
  destruct (Hsound e id v Hin Hv) as (p & P & -> & HP & Hid).
  destruct (shapes_lookup _ _ p P Hs HP) as (P' & HP' & Hsh).
  exists p, P'. repeat split; [exact HP'|].
  unfold shape in Hsh. congruence.
Qed.

Lemma texts_present_shapes g g' :
  map shape (heap g') = map shape (heap g) -> instances g' = instances g ->
  all_texts_present g -> all_texts_present g'.
Proof.
  intros Hs Hi Hall e Hin p Hp. rewrite Hi in Hin.
  destruct (Hall e Hin p Hp) as (s & Htext).
  destruct (text_of_Some g p s Htext) as (P & HP & Hpat).
  destruct (shapes_lookup _ _ p P Hs HP) as (P' & HP' & Hsh).
  exists s. unfold text_of. rewrite HP'. unfold shape in Hsh. congruence.
Qed.

Lemma all_texts_present_add_pattern this bytes desc u g r g' :
  bytes <> [] ->
  all_texts_present g ->
  add_pattern this bytes desc u g = Ok (r, g') ->
  all_texts_present g'.
Proof.
  intros Hne Hall Hadd.
  destruct (escape_renders_text bytes Hne) as (t & Hesc).
  destruct (instances g !! this) as [e|] eqn:He.
  2:{ unfold add_pattern, bind, this_instance in Hadd. now rewrite He in Hadd. }
  assert (Hin : In e (instances g)).
  { apply list_elem_of_In, list_elem_of_lookup. now exists this. }
  destruct (holds_text_dec g e t) as [Hholds|Hnot].
  - destruct (first_holder_exists g e t Hholds) as (i & p & Hfirst).
    destruct (text_of_Some g p t (proj1 (proj2 Hfirst))) as (P & HP & HPt).
    rewrite (add_pattern_duplicate g this e bytes t desc u i p P
               He (Hall e Hin) Hesc Hfirst HP) in Hadd.
    injection Hadd as _ <-.
    intros e' Hin' q Hq. cbn in Hin'.
    destruct (Hall e' Hin' q Hq) as (s & Hs). exists s.
    unfold text_of in *. cbn.
    destruct (decide (q = p)) as [->|Hqp].
    + rewrite list_lookup_insert_eq by (eapply lookup_lt_Some; eauto).
      rewrite HP in Hs. exact Hs.
    + rewrite list_lookup_insert_ne by congruence. exact Hs.
  - assert (Hfind : find_pattern (rxp_escape_pattern bytes) (pats e) g = Ok (None, g)).
    { rewrite Hesc. apply find_pattern_absent.
      intros q Hq. destruct (Hall e Hin q Hq) as (s & Hs). exists s.
      split; [exact Hs|]. intros ->. apply Hnot. now exists q. }
    rewrite (add_pattern_fresh g this e bytes desc u He Hfind) in Hadd.
    injection Hadd as _ <-.
    assert (Hold : forall e0 q, In e0 (instances g) -> In q (pats e0) ->
              exists s, text_of (with_new_pattern this e (rxp_escape_pattern bytes)
                                   (Z.of_nat (List.length bytes)) desc u g) q = Some s).
    { intros e0 q Hin0 Hq. destruct (Hall e0 Hin0 q Hq) as (s & Hs). exists s.
      destruct (text_of_Some g q s Hs) as (Q & HQ & HQt).
      unfold text_of. cbn. now rewrite (lookup_app_l_Some _ _ _ _ HQ). }
    intros e' Hin' q Hq. cbn [with_new_pattern instances] in Hin'.
    apply list_elem_of_In, list_elem_of_lookup in Hin'. destruct Hin' as (j & Hj).
    apply list_lookup_insert_Some in Hj.
    destruct Hj as [(-> & <- & Hlt)|(Hne' & Hj)].
    + cbn [pats] in Hq. apply in_app_or in Hq. destruct Hq as [Hq|[<-|[]]].
      * now apply (Hold e q).
      * exists t. unfold text_of. cbn.
        rewrite lookup_app_r by lia. rewrite Nat.sub_diag. cbn. exact Hesc.
    + apply (Hold e' q); [|exact Hq].
      apply list_elem_of_In, list_elem_of_lookup. now exists j.
Qed.

Lemma run_call_keeps_tables c g g' :
  tables_sound g -> run_call c g = Ok (tt, g') -> tables_sound g'.
Proof.
  intros Hsound Hrun. destruct c; cbn [run_call] in Hrun.
  - apply bind_Ok_inv in Hrun. destruct Hrun as (this & g1 & H1 & [= <-]).
    eapply tables_sound_rxp_ctor; eauto.
  - apply bind_Ok_inv in Hrun. destruct Hrun as (r & g1 & H1 & [= <-]).
    eapply tables_sound_add_pattern; eauto.
  - apply bind_Ok_inv in Hrun. destruct Hrun as (r & g1 & H1 & [= <-]).
    destruct (prep_patterns_keeps _ _ _ _ _ H1) as (Hs & Hi).
    eapply tables_sound_shapes; eauto.
  - apply bind_Ok_inv in Hrun. destruct Hrun as (r & g1 & H1 & [= <-]).
    unfold _search in H1.
    apply bind_Ok_inv in H1. destruct H1 as (r' & g2 & H1 & [= _ <-]).
    destruct (rxp_search_keeps _ _ _ _ _ _ _ _ _ _ H1) as (Hh & Hi).
    apply (tables_sound_shapes g); [now rewrite Hh | exact Hi | exact Hsound].
  - eapply tables_sound_rxp_init; eauto.
Qed.

(** The tables are sound in every state a process gets to. *)
Lemma reachable_tables_sound g : reachable any_call g -> tables_sound g.
Proof.
  induction 1 as [|g c g' _ IH _ Hrun]; [apply tables_sound_start|].
  eapply run_call_keeps_tables; eauto.
Qed.

Lemma run_call_keeps_texts c g g' :
  no_empty_pattern c ->
  all_texts_present g -> run_call c g = Ok (tt, g') -> all_texts_present g'.
Proof.
  intros Hc Hall Hrun. destruct c; cbn [run_call] in Hrun.
  - apply bind_Ok_inv in Hrun. destruct Hrun as (this & g1 & [= <- <-] & [= <-]).
    intros e Hin p Hp. cbn in Hin.
    apply in_app_or in Hin. destruct Hin as [Hin|[<-|[]]].
    + exact (Hall e Hin p Hp).
    + destruct Hp.
  - apply bind_Ok_inv in Hrun. destruct Hrun as (r & g1 & H1 & [= <-]).
    eapply all_texts_present_add_pattern; eauto.
  - apply bind_Ok_inv in Hrun. destruct Hrun as (r & g1 & H1 & [= <-]).
    destruct (prep_patterns_keeps _ _ _ _ _ H1) as (Hs & Hi).
    eapply texts_present_shapes; eauto.
  - apply bind_Ok_inv in Hrun. destruct Hrun as (r & g1 & H1 & [= <-]).
    unfold _search in H1.
    apply bind_Ok_inv in H1. destruct H1 as (r' & g2 & H1 & [= _ <-]).
    destruct (rxp_search_keeps _ _ _ _ _ _ _ _ _ _ H1) as (Hh & Hi).
    apply (texts_present_shapes g); [now rewrite Hh | exact Hi | exact Hall].
  - injection Hrun as <-. exact Hall.
Qed.


(** ** Texts within an instance are distinct *)

Lemma text_of_shapes g g' q :
  map shape (heap g') = map shape (heap g) -> text_of g' q = text_of g q.
Proof.
  intros Hs. unfold text_of.
  destruct (heap g !! q) as [Q|] eqn:HQ.
  - destruct (shapes_lookup _ _ q Q Hs HQ) as (Q' & -> & Hsh).
    unfold shape in Hsh. congruence.
  - assert (H : map shape (heap g') !! q = None)
      by now rewrite Hs, list_lookup_fmap, HQ.
    rewrite list_lookup_fmap in H. now destruct (heap g' !! q).
Qed.

Lemma texts_distinct_shapes g g' :
  map shape (heap g') = map shape (heap g) -> instances g' = instances g ->
  texts_distinct g -> texts_distinct g'.
Proof.
  intros Hs Hi Hd e Hin. rewrite Hi in Hin.
  erewrite map_ext; [exact (Hd e Hin)|].
  intros q. now apply text_of_shapes.
Qed.

Lemma texts_distinct_add_pattern this bytes desc u g r g' :
  bytes <> [] ->
  all_texts_present g -> texts_distinct g ->
  add_pattern this bytes desc u g = Ok (r, g') ->
  texts_distinct g'.
Proof.
  intros Hne Hall Hd Hadd.
  destruct (escape_renders_text bytes Hne) as (t & Hesc).
  destruct (instances g !! this) as [e|] eqn:He.
  2:{ unfold add_pattern, bind, this_instance in Hadd. now rewrite He in Hadd. }
  assert (Hin : In e (instances g)).
  { apply list_elem_of_In, list_elem_of_lookup. now exists this. }
  destruct (holds_text_dec g e t) as [Hholds|Hnot].
  - destruct (first_holder_exists g e t Hholds) as (i & p & Hfirst).
    destruct (text_of_Some g p t (proj1 (proj2 Hfirst))) as (P & HP & HPt).
    rewrite (add_pattern_duplicate g this e bytes t desc u i p P
               He (Hall e Hin) Hesc Hfirst HP) in Hadd.
    injection Hadd as _ <-.
    intros e' Hin'. cbn in Hin'.
    erewrite map_ext; [exact (Hd e' Hin')|].
    intros q. unfold text_of. cbn.
    destruct (decide (q = p)) as [->|Hqp].
    + rewrite list_lookup_insert_eq by (eapply lookup_lt_Some; eauto).
      now rewrite HP.
    + now rewrite list_lookup_insert_ne by congruence.
  - assert (Hfind : find_pattern (rxp_escape_pattern bytes) (pats e) g = Ok (None, g)).
    { rewrite Hesc. apply find_pattern_absent.
      intros q Hq. destruct (Hall e Hin q Hq) as (s & Hs). exists s.
      split; [exact Hs|]. intros ->. apply Hnot. now exists q. }
    rewrite (add_pattern_fresh g this e bytes desc u He Hfind) in Hadd.
    injection Hadd as _ <-.
    set (g' := with_new_pattern this e (rxp_escape_pattern bytes)
                 (Z.of_nat (List.length bytes)) desc u g).
    assert (Hold : forall e0, In e0 (instances g) ->
              map (text_of g') (pats e0) = map (text_of g) (pats e0)).
    { intros e0 Hin0. apply map_ext_in. intros q Hq.
      destruct (Hall e0 Hin0 q Hq) as (s & Hs).
      destruct (text_of_Some g q s Hs) as (Q & HQ & HQt).
      unfold text_of. cbn. now rewrite (lookup_app_l_Some _ _ _ _ HQ), HQ. }
    intros e' Hin'. cbn [g' with_new_pattern instances] in Hin'.
    apply list_elem_of_In, list_elem_of_lookup in Hin'. destruct Hin' as (j & Hj).
    apply list_lookup_insert_Some in Hj.
    destruct Hj as [(-> & <- & Hlt)|(Hne' & Hj)].
    + cbn [pats]. rewrite map_app. cbn [map].
      rewrite (Hold e Hin).
      assert (Hnew : text_of g' (List.length (heap g)) = Some t).
      { unfold text_of. cbn. rewrite lookup_app_r by lia.
        rewrite Nat.sub_diag. cbn. exact Hesc. }
      rewrite Hnew. apply NoDup_app. split; [exact (Hd e Hin)|].
      split; [|apply NoDup_singleton].
      intros x Hx Hx'. apply list_elem_of_singleton in Hx'. subst x.
      apply list_elem_of_In, in_map_iff in Hx. destruct Hx as (q & Hq & Hqin).
      apply Hnot. now exists q.
    + rewrite Hold; [apply Hd|];
        apply list_elem_of_In, list_elem_of_lookup; now exists j.
Qed.

Lemma run_call_keeps_texts_distinct c g g' :
  no_empty_pattern c ->
  all_texts_present g -> texts_distinct g ->
  run_call c g = Ok (tt, g') -> texts_distinct g'.
Proof.
  intros Hc Hall Hd Hrun. destruct c; cbn [run_call] in Hrun.
  - apply bind_Ok_inv in Hrun. destruct Hrun as (this & g1 & [= <- <-] & [= <-]).
    intros e Hin. cbn in Hin.
    apply in_app_or in Hin. destruct Hin as [Hin|[<-|[]]].
    + exact (Hd e Hin).
    + constructor.
  - apply bind_Ok_inv in Hrun. destruct Hrun as (r & g1 & H1 & [= <-]).
    eapply texts_distinct_add_pattern; eauto.
  - apply bind_Ok_inv in Hrun. destruct Hrun as (r & g1 & H1 & [= <-]).
    destruct (prep_patterns_keeps _ _ _ _ _ H1) as (Hs & Hi).
    eapply texts_distinct_shapes; eauto.
  - apply bind_Ok_inv in Hrun. destruct Hrun as (r & g1 & H1 & [= <-]).
    unfold _search in H1.
    apply bind_Ok_inv in H1. destruct H1 as (r' & g2 & H1 & [= _ <-]).
    destruct (rxp_search_keeps _ _ _ _ _ _ _ _ _ _ H1) as (Hh & Hi).
    apply (texts_distinct_shapes g); [now rewrite Hh | exact Hi | exact Hd].
  - injection Hrun as <-. exact Hd.
Qed.

(** As long as no pattern of length zero is added, every pattern held has
    a text and no instance holds a text twice: a text names one pattern of
    an instance. *)
Lemma reachable_texts_present_distinct g :
  reachable no_empty_pattern g -> all_texts_present g /\ texts_distinct g.
Proof.
  induction 1 as [|g c g' _ (IHp & IHd) Hc Hrun].
  - split; intros e [].
  - split.
    + eapply run_call_keeps_texts; eauto.
    + eapply run_call_keeps_texts_distinct; eauto.
Qed.

(** The scenario of the specification: "GET" for rule 101 and again for
    rule 102, then a match of rule identifier 1 ending at offset 10. One
    pattern, one duplicate, and the callback for 101 and then for 102. *)
Example scenario_GET_twice_runs :
  exists g,
    scenario_GET_twice process_start = Ok (1, g) /\
    duplicates g = 1 /\ patterns g = 1 /\
    List.filter is_callback (trace g) =
      [MpseMatch_call 101 0 10 77 0; MpseMatch_call 102 0 10 77 0].
Proof. eexists. split; [vm_compute; reflexivity|]. repeat split. Qed.

(** ** More on the escaper *)

Lemma alnum_not_backslash (b : byte) :
  is_ascii_letter b || is_ascii_digit b = true ->
  Ascii.eqb (ascii_of_byte b) "\"%char = false.
Proof. destruct b; vm_compute; intros H; try reflexivity; discriminate. Qed.

Lemma hex_value_high (b : byte) :
  hex_value (nibble (Byte.to_N b / 16)) = Some (Byte.to_N b / 16)%N.
Proof. destruct b; vm_compute; reflexivity. Qed.

Lemma hex_value_low (b : byte) :
  hex_value (nibble (Byte.to_N b mod 16)) = Some (Byte.to_N b mod 16)%N.
Proof. destruct b; vm_compute; reflexivity. Qed.

Lemma byte_of_nibbles (b : byte) :
  Byte.of_N (16 * (Byte.to_N b / 16) + Byte.to_N b mod 16) = Some b.
Proof. destruct b; vm_compute; reflexivity. Qed.

Lemma unescape_rendered (b : byte) (s : string) :
  unescape (String.append (rendered b) s) =
  match unescape s with
  | Some bs => Some (b :: bs)
  | None => None
  end.
Proof.
  unfold rendered.
  destruct (is_ascii_letter b || is_ascii_digit b) eqn:Halnum.
  - rewrite string_append_cons.
    change (String.append EmptyString s) with s.
    cbn [unescape]. rewrite (alnum_not_backslash b Halnum).
    now rewrite byte_of_ascii_of_byte.
  - rewrite !string_append_cons.
    change (String.append EmptyString s) with s.
    cbn [unescape]. change (Ascii.eqb "\"%char "\"%char) with true. cbv iota.
    rewrite hex_value_high, hex_value_low.
    destruct (unescape s) as [bs|]; [|reflexivity].
    now rewrite byte_of_nibbles.
Qed.

Lemma unescape_escaped_text (bytes : list byte) :
  unescape (escaped_text bytes) = Some bytes.
Proof.
  induction bytes as [|b bytes IH]; [reflexivity|].
  unfold escaped_text in *. cbn [map fold_right].
  now rewrite unescape_rendered, IH.
Qed.

Lemma rxp_escape_pattern_text (bytes : list byte) (t : string) :
  rxp_escape_pattern bytes = Some t -> t = escaped_text bytes /\ bytes <> [].
Proof.
  unfold rxp_escape_pattern. destruct bytes as [|b bs]; [discriminate|].
  destruct (Z.of_nat (List.length (b :: bs)) =? 0); [discriminate|].
  intros H. split; [|discriminate].
  assert (Ht : t = escape_loop (b :: bs) EmptyString) by congruence.
  rewrite Ht. apply (escape_loop_text (b :: bs) EmptyString).
Qed.

(** X1. Two byte sequences with the same escaped text are the same sequence:
    to deduplicate by text is to deduplicate by bytes. *)
Theorem escape_injective (bytes1 bytes2 : list byte) (t : string) :
  rxp_escape_pattern bytes1 = Some t ->
  rxp_escape_pattern bytes2 = Some t ->
  bytes1 = bytes2.
Proof.
  intros (H1 & _)%rxp_escape_pattern_text (H2 & _)%rxp_escape_pattern_text.
  assert (H : Some bytes1 = Some bytes2).
  { rewrite <- (unescape_escaped_text bytes1), <- (unescape_escaped_text bytes2).
    now rewrite <- H1, <- H2. }
  now injection H.
Qed.

Lemma escape_injective_witness :
  rxp_escape_pattern [x61; x2f] = Some "a\x2f"%string /\
  [x61; x2f] = [x61; x2f].
Proof.
  split; [reflexivity|].
  apply (escape_injective [x61; x2f] [x61; x2f] "a\x2f"); reflexivity.
Defined.

Lemma rendered_chars (b : byte) :
  forallb is_escape_char (list_ascii_of_string (rendered b)) = true.
Proof. destruct b; vm_compute; reflexivity. Qed.

Lemma list_ascii_of_string_append (s t : string) :
  list_ascii_of_string (String.append s t) =
  list_ascii_of_string s ++ list_ascii_of_string t.
Proof.
  induction s as [|a s IH]; [reflexivity|].
  rewrite string_append_cons. cbn [list_ascii_of_string]. now rewrite IH.
Qed.

Lemma escaped_text_chars (bytes : list byte) :
  forallb is_escape_char (list_ascii_of_string (escaped_text bytes)) = true.
Proof.
  induction bytes as [|b bytes IH]; [reflexivity|].
  unfold escaped_text in *. cbn [map fold_right].
  rewrite list_ascii_of_string_append, forallb_app, rendered_chars, IH.
  reflexivity.
Qed.

(** X2. The escaped text is made of ASCII letters, digits and backslashes only:
    it has no newline, no comma and no blank in it. *)
Theorem escape_alphabet (bytes : list byte) (t : string) :
  rxp_escape_pattern bytes = Some t ->
  forall c, In c (list_ascii_of_string t) ->
    is_escape_char c = true /\
    c <> ascii_of_nat 10 /\ c <> ","%char /\ c <> " "%char.
Proof.
  intros (-> & _)%rxp_escape_pattern_text c Hc.
  pose proof (escaped_text_chars bytes) as Hall.
  rewrite forallb_forall in Hall. specialize (Hall c Hc).
  split; [exact Hall|].
  repeat split; intros ->; vm_compute in Hall; discriminate.
Qed.

Lemma escape_alphabet_witness :
  rxp_escape_pattern [x61; x0a] = Some "a\x0a"%string /\
  "\"%char <> ascii_of_nat 10.
Proof.
  split; [reflexivity|].
  apply (escape_alphabet [x61; x0a] "a\x0a" eq_refl "\"%char).
  right. left. reflexivity.
Defined.

Lemma string_length_append (s t : string) :
  String.length (String.append s t) = (String.length s + String.length t)%nat.
Proof.
  induction s as [|a s IH]; [reflexivity|].
  rewrite string_append_cons. cbn [String.length]. now rewrite IH.
Qed.

Lemma rendered_length_isalnum (b : byte) :
  String.length (rendered b) =
  if negb (isalnum (byte_value b)) then 4%nat else 1%nat.
Proof. destruct b; vm_compute; reflexivity. Qed.

(** X3. The escaped text has one character for each byte and three more for
    each byte that is not a letter or a digit; so between one and four
    times as many characters as there are bytes. *)
Theorem escape_length (bytes : list byte) (t : string) :
  rxp_escape_pattern bytes = Some t ->
  String.length t =
    (List.length bytes + 3 * List.length (escaped_bytes bytes))%nat /\
  (List.length bytes <= String.length t <= 4 * List.length bytes)%nat.
Proof.
  intros (-> & _)%rxp_escape_pattern_text.
  assert (H : String.length (escaped_text bytes) =
              (List.length bytes + 3 * List.length (escaped_bytes bytes))%nat /\
              (List.length (escaped_bytes bytes) <= List.length bytes)%nat).
  { induction bytes as [|b bytes (IH1 & IH2)]; [split; reflexivity|].
    unfold escaped_text in *. cbn [map fold_right].
    rewrite string_length_append, IH1, rendered_length_isalnum.
    unfold escaped_bytes in *. cbn [List.filter List.length].
    destruct (negb (isalnum (byte_value b))); cbn [List.length]; lia. }
  destruct H as (H1 & H2). split; [exact H1 | lia].
Qed.

Lemma escape_length_witness :
  rxp_escape_pattern [x61; x0a] = Some "a\x0a"%string /\
  String.length "a\x0a"%string = 5%nat.
Proof.
  split; [reflexivity|].
  destruct (escape_length [x61; x0a] "a\x0a" eq_refl) as (H & _).
  exact H.
Defined.

(** ** What a run keeps *)

Lemma keeps_ret {A X} (f : Global -> X) (a : A) : keeps f (ret a).
Proof. intros g a' g' [= _ <-]. reflexivity. Qed.

Lemma keeps_bind {A B X} (f : Global -> X) (m : M Global A) (k : A -> M Global B) :
  keeps f m -> (forall a, keeps f (k a)) -> keeps f (bind m k).
Proof.
  intros Hm Hk g b g' H. apply bind_Ok_inv in H.
  destruct H as (a & g1 & H1 & H2).
  rewrite (Hk a _ _ _ H2). exact (Hm _ _ _ H1).
Qed.

Lemma keeps_gets {A X} (f : Global -> X) (h : Global -> A) : keeps f (gets h).
Proof. intros g a g' [= _ <-]. reflexivity. Qed.

Lemma keeps_modify {X} (f : Global -> X) (h : Global -> Global) :
  (forall g, f (h g) = f g) -> keeps f (modify h).
Proof.
  intros Hh g a g' H. unfold modify in H.
  assert (Hg : g' = h g) by congruence. rewrite Hg. apply Hh.
Qed.

Lemma keeps_deref {A X} (f : Global -> X) (flt : fault) (o : option A) :
  keeps f (deref flt o).
Proof. destruct o; [apply keeps_ret | intros g a g' H; discriminate]. Qed.

Lemma keeps_emit {X} (f : Global -> X) (ev : event) :
  (forall g t, f (set_trace t g) = f g) -> keeps f (emit ev).
Proof. intros Hf. apply keeps_modify. intros g. apply Hf. Qed.

Lemma keeps_this_instance {X} (f : Global -> X) this : keeps f (this_instance this).
Proof.
  intros g e g' H. unfold this_instance in H.
  destruct (instances g !! this); [|discriminate]. now injection H as _ <-.
Qed.

Lemma keeps_load_pattern {X} (f : Global -> X) p : keeps f (load_pattern p).
Proof.
  intros g e g' H. unfold load_pattern in H.
  destruct (heap g !! p); [|discriminate]. now injection H as _ <-.
Qed.

Section KeepsCounters.

Variable X : Type.
Variable f : Global -> X.
Hypothesis f_trace : forall g t, f (set_trace t g) = f g.
Hypothesis f_heap : forall g h, f (set_heap h g) = f g.
Hypothesis f_instances : forall g l, f (set_instances l g) = f g.

Lemma keeps_frame_emit ev : keeps f (emit ev).
Proof. apply keeps_emit, f_trace. Qed.

Lemma keeps_frame_store_pattern p P : keeps f (store_pattern p P).
Proof. apply keeps_modify. intros g. apply f_heap. Qed.

Lemma keeps_frame_store_instance this e : keeps f (store_instance this e).
Proof. apply keeps_modify. intros g. apply f_instances. Qed.

Ltac frame_step :=
  first
    [ apply keeps_ret
    | apply keeps_gets
    | apply keeps_deref
    | apply keeps_this_instance
    | apply keeps_load_pattern
    | apply keeps_frame_emit
    | apply keeps_frame_store_pattern
    | apply keeps_frame_store_instance
    | apply keeps_bind; [|intros] ].

Lemma keeps_ctor_context a sc neg c : keeps f (ctor_context a sc neg c).
Proof.
  unfold ctor_context.
  apply keeps_bind; [|intros; repeat frame_step].
  destruct (user c =? 0); [apply keeps_ret|].
  destruct neg; repeat frame_step.
Qed.

Lemma keeps_ctor_contexts a sc neg cs : keeps f (ctor_contexts a sc neg cs).
Proof.
  induction cs as [|c cs IH]; cbn [ctor_contexts]; [apply keeps_ret|].
  apply keeps_bind; [apply keeps_ctor_context|intros].
  apply keeps_bind; [exact IH|intros]. apply keeps_ret.
Qed.

Lemma keeps_ctor_patterns a sc ps : keeps f (ctor_patterns a sc ps).
Proof.
  induction ps as [|p ps IH]; cbn [ctor_patterns]; [apply keeps_ret|].
  apply keeps_bind; [|intros; exact IH].
  unfold ctor_pattern. frame_step; [frame_step|].
  apply keeps_bind; [apply keeps_ctor_contexts|intros]. frame_step.
Qed.

Lemma keeps_prep_patterns this sc : keeps f (prep_patterns this sc).
Proof.
  unfold prep_patterns, user_ctor.
  apply keeps_bind; [|intros; apply keeps_ret].
  apply keeps_bind; [apply keeps_this_instance|intros].
  apply keeps_ctor_patterns.
Qed.

Lemma keeps_await_response lib fuel : keeps f (await_response lib fuel).
Proof.
  induction fuel as [|fuel IH]; cbn [await_response].
  - intros g a g' H. discriminate.
  - repeat frame_step.
    match goal with |- keeps f (if ?c then _ else _) => destruct c end;
      [exact IH | apply keeps_ret].
Qed.

Lemma keeps_fire mf to pv cs : keeps f (fire mf to pv cs).
Proof.
  induction cs as [|c cs IH]; cbn [fire]; [apply keeps_ret|].
  repeat frame_step. exact IH.
Qed.

Lemma keeps_dispatch_match this mf pv m : keeps f (dispatch_match this mf pv m).
Proof.
  unfold dispatch_match, ruleidtbl_at.
  apply keeps_bind.
  - apply keeps_bind; [apply keeps_this_instance|intros e].
    destruct (ruleidtbl e !! rule_id m); repeat frame_step.
  - intros. repeat frame_step. apply keeps_fire.
Qed.

Lemma keeps_dispatch_matches this mf pv resp n :
  forall i, keeps f (dispatch_matches this mf pv resp n i).
Proof.
  induction n as [|n IH]; intros i; cbn [dispatch_matches]; [apply keeps_ret|].
  frame_step; [frame_step|].
  apply keeps_bind; [apply keeps_dispatch_match|intros]. apply IH.
Qed.

Hypothesis f_jobs : forall g z, f (set_jobs_submitted z g) = f g.

Lemma keeps_submit_and_await lib fuel this buf n :
  keeps f (submit_and_await lib fuel this buf n).
Proof.
  unfold submit_and_await.
  frame_step; [frame_step|].
  apply keeps_bind.
  { destruct (n >? RXP_MAX_JOB_LENGTH lib); repeat frame_step. }
  intros. apply keeps_bind; [apply keeps_modify; intros; apply f_jobs|intros].
  do 6 (apply keeps_bind; [frame_step|intros]).
  apply keeps_bind; [apply keeps_await_response|intros].
  repeat frame_step.
Qed.

End KeepsCounters.

Section KeepsResponse.

Variable X : Type.
Variable f : Global -> X.
Hypothesis f_trace : forall g t, f (set_trace t g) = f g.
Hypothesis f_heap : forall g h, f (set_heap h g) = f g.
Hypothesis f_instances : forall g l, f (set_instances l g) = f g.
Hypothesis f_limit : forall g z, f (set_match_limit z g) = f g.

Lemma keeps_process_response this mf pv status resp :
  keeps f (process_response this mf pv status resp).
Proof.
  unfold process_response.
  apply keeps_bind.
  { destruct (status =? 0); [apply keeps_ret | now apply keeps_emit]. }
  intros. destruct (match_count resp =? 0); [apply keeps_ret|].
  apply keeps_bind.
  - destruct (detected_match_count resp >? match_count resp); [|apply keeps_ret].
    apply keeps_bind; [now apply keeps_emit|intros].
    apply keeps_modify. intros. apply f_limit.
  - intros. now apply keeps_dispatch_matches.
Qed.

End KeepsResponse.

Lemma keeps_rxp_search {X} (f : Global -> X) lib fuel this buf n mf pv :
  (forall g t, f (set_trace t g) = f g) ->
  (forall g h, f (set_heap h g) = f g) ->
  (forall g l, f (set_instances l g) = f g) ->
  (forall g z, f (set_jobs_submitted z g) = f g) ->
  (forall g z, f (set_match_limit z g) = f g) ->
  keeps f (rxp_search lib fuel this buf n mf pv).
Proof.
  intros Ht Hh Hi Hj Hl. unfold rxp_search.
  apply keeps_bind; [now apply keeps_submit_and_await|intros].
  apply keeps_bind; [now apply keeps_process_response|intros].
  apply keeps_bind; [now apply keeps_emit|intros]. apply keeps_ret.
Qed.

Lemma keeps_counters_prep_patterns this sc :
  keeps registry_counters (prep_patterns this sc) /\
  keeps jobs_submitted (prep_patterns this sc) /\
  keeps match_limit (prep_patterns this sc).
Proof. repeat split; apply keeps_prep_patterns; reflexivity. Qed.

Lemma keeps_counters_rxp_search lib fuel this buf n mf pv :
  keeps registry_counters (rxp_search lib fuel this buf n mf pv).
Proof. apply keeps_rxp_search; reflexivity. Qed.

(** ** The steps of a process *)

Lemma find_pattern_found_in pattern ps : forall g p g',
  find_pattern pattern ps g = Ok (Some p, g') ->
  In p ps /\ exists t, pattern = Some t /\ text_of g p = Some t.
Proof.
  induction ps as [|q ps IH]; intros g p g' H.
  - discriminate.
  - cbn [find_pattern] in H. unfold bind at 1 in H. unfold load_pattern in H.
    destruct (heap g !! q) as [Q|] eqn:HQ; [|discriminate]. cbn [deref ret] in H.
    unfold bind at 1 in H. destruct (pat Q) as [s|] eqn:Hs; [|discriminate].
    cbn [deref ret] in H. unfold bind at 1 in H.
    destruct pattern as [t|]; [|discriminate]. cbn [deref ret] in H.
    destruct (String.eqb s t) eqn:Hst.
    + injection H as <- <-. apply String.eqb_eq in Hst. subst s.
      split; [now left|]. exists t. split; [reflexivity|].
      unfold text_of. now rewrite HQ.
    + destruct (IH _ _ _ H) as (Hin & Ht). split; [now right | exact Ht].
Qed.

(** The two ways [add_pattern] returns. *)
Lemma add_pattern_cases this bytes desc u g r g' :
  add_pattern this bytes desc u g = Ok (r, g') ->
  r = 0 /\
  exists e, instances g !! this = Some e /\
    ((exists p P t,
        In p (pats e) /\ heap g !! p = Some P /\ pat P = Some t /\
        rxp_escape_pattern bytes = Some t /\
        g' = set_duplicates (wrap64 (duplicates g + 1))
               (set_heap (<[p := push_userctx (UserCtx_ctor u) P]> (heap g)) g)) \/
     g' = with_new_pattern this e (rxp_escape_pattern bytes)
            (Z.of_nat (List.length bytes)) desc u g).
Proof.
  intros Hadd.
  destruct (instances g !! this) as [e|] eqn:He.
  2:{ unfold add_pattern, bind, this_instance in Hadd. now rewrite He in Hadd. }
  destruct (find_pattern (rxp_escape_pattern bytes) (pats e) g)
    as [[found g1]| |] eqn:Hfind.
  2,3: unfold add_pattern in Hadd;
       rewrite (bind_Ok _ _ _ _ _ (this_instance_Ok g this e He)) in Hadd;
       unfold bind in Hadd; now rewrite Hfind in Hadd.
  destruct (find_pattern_inv _ _ _ _ _ Hfind) as (-> & _).
  destruct found as [p|].
  - destruct (find_pattern_found_in _ _ _ _ _ Hfind) as (Hin & t & Hesc & Ht).
    destruct (text_of_Some g p t Ht) as (P & HP & HPt).
    unfold add_pattern in Hadd.
    rewrite (bind_Ok _ _ _ _ _ (this_instance_Ok g this e He)) in Hadd.
    rewrite (bind_Ok _ _ _ _ _ Hfind) in Hadd.
    rewrite (bind_Ok _ _ _ _ _ (load_pattern_Ok g p P HP)) in Hadd.
    injection Hadd as <- <-. split; [reflexivity|].
    exists e. split; [reflexivity|]. left. exists p, P, t. auto.
  - rewrite (add_pattern_fresh g this e bytes desc u He Hfind) in Hadd.
    injection Hadd as <- <-. split; [reflexivity|].
    exists e. split; [reflexivity|]. now right.
Qed.

Lemma run_call_step c g g' :
  run_call c g = Ok (tt, g') ->
  step true g g' /\ (no_rxp_init c -> step false g g').
Proof.
  intros Hrun. destruct c; cbn [run_call] in Hrun.
  - apply bind_Ok_inv in Hrun. destruct Hrun as (this & g1 & [= <- <-] & [= <-]).
    split; [|intros _]; apply step_ctor.
  - apply bind_Ok_inv in Hrun. destruct Hrun as (r & g1 & H1 & [= <-]).
    destruct (add_pattern_cases _ _ _ _ _ _ _ H1) as (_ & e & He & Hcase).
    destruct Hcase as [(p & P & t & Hin & HP & HPt & _ & ->)| ->].
    + split; [|intros _]; eapply step_duplicate; eauto.
    + split; [|intros _]; now apply step_new.
  - apply bind_Ok_inv in Hrun. destruct Hrun as (r & g1 & H1 & [= <-]).
    destruct (prep_patterns_keeps _ _ _ _ _ H1) as (Hs & Hi).
    pose proof (proj1 (keeps_counters_prep_patterns this sc) _ _ _ H1) as Hc.
    split; [|intros _]; now apply step_slots.
  - apply bind_Ok_inv in Hrun. destruct Hrun as (r & g1 & H1 & [= <-]).
    unfold _search in H1.
    apply bind_Ok_inv in H1. destruct H1 as (r' & g2 & H1 & [= _ <-]).
    destruct (rxp_search_keeps _ _ _ _ _ _ _ _ _ _ H1) as (Hh & Hi).
    pose proof (keeps_counters_rxp_search _ _ _ _ _ _ _ _ _ _ H1) as Hc.
    split; [|intros _]; (apply step_slots; [now rewrite Hh | exact Hi | exact Hc]).
  - split; [|intros []]. unfold rxp_init, bind, modify in Hrun.
    injection Hrun as <-. now apply step_init.
Qed.

(** To show that a property holds in every state a process gets to, show
    that it holds at the start and that every step keeps it. *)
Lemma reachable_invariant (allowed : call -> Prop) (I : Global -> Prop) :
  I process_start ->
  (forall g g', I g -> step true g g' -> I g') ->
  forall g, reachable allowed g -> I g.
Proof.
  intros H0 Hstep g Hg. induction Hg as [|g c g' _ IH _ Hrun]; [exact H0|].
  apply (Hstep g g' IH). now apply (run_call_step c).
Qed.

Lemma reachable_invariant_no_init (allowed : call -> Prop) (I : Global -> Prop) :
  (forall c, allowed c -> no_rxp_init c) ->
  I process_start ->
  (forall g g', I g -> step false g g' -> I g') ->
  forall g, reachable allowed g -> I g.
Proof.
  intros Hall H0 Hstep g Hg. induction Hg as [|g c g' _ IH Hc Hrun]; [exact H0|].
  apply (Hstep g g' IH). apply (run_call_step c); auto.
Qed.

Lemma reachable_weaken (A B : call -> Prop) g :
  (forall c, A c -> B c) -> reachable A g -> reachable B g.
Proof.
  intros HAB Hg. induction Hg as [|g c g' _ IH Hc Hrun]; [constructor|].
  eapply reachable_call; eauto.
Qed.
(** ** Invariants of the registry *)

Lemma In_list_insert {A} (l : list A) i y x :
  In x (<[i := y]> l) -> x = y \/ In x l.
Proof.
  intros Hin. apply list_elem_of_In, list_elem_of_lookup in Hin.
  destruct Hin as (j & Hj). apply list_lookup_insert_Some in Hj.
  destruct Hj as [(_ & -> & _)|(_ & Hj)]; [now left|].
  right. apply list_elem_of_In, list_elem_of_lookup. now exists j.
Qed.

Lemma In_lookup {A} (l : list A) i x : l !! i = Some x -> In x l.
Proof. intros H. apply list_elem_of_In, list_elem_of_lookup. now exists i. Qed.

Lemma shapes_length (h h' : list RxpPattern) :
  map shape h' = map shape h -> List.length h' = List.length h.
Proof. intros H. apply (f_equal (@List.length _)) in H. now rewrite !length_map in H. Qed.

Lemma step_false_true g g' : step false g g' -> step true g g'.
Proof.
  intros H. destruct H; try discriminate.
  - apply step_ctor.
  - eapply step_duplicate; eauto.
  - now apply step_new.
  - now apply step_slots.
Qed.

Lemma step_heap_length b g g' :
  step b g g' -> (List.length (heap g) <= List.length (heap g'))%nat.
Proof.
  intros H. destruct H; cbn.
  - lia.
  - rewrite length_insert. lia.
  - rewrite length_app. cbn. lia.
  - match goal with H : map shape _ = _ |- _ => apply shapes_length in H end. lia.
  - lia.
Qed.

(** *** Addresses *)

Lemma pats_valid_step g g' : pats_valid g -> step true g g' -> pats_valid g'.
Proof.
  intros Hv Hstep. destruct Hstep as [a g|this e q Q t u g He Hq HQ HQt
                                     |this e bytes desc u g He|g g' Hs Hi Hc|g _];
    intros e0 p He0 Hp; cbn in *.
  - apply in_app_or in He0. destruct He0 as [He0|[<-|[]]]; [eauto|destruct Hp].
  - rewrite length_insert. eauto.
  - rewrite length_app. cbn.
    apply In_list_insert in He0. destruct He0 as [->|He0].
    + cbn in Hp. apply in_app_or in Hp. destruct Hp as [Hp|[<-|[]]]; [|lia].
      specialize (Hv e p (In_lookup _ _ _ He) Hp). lia.
    + specialize (Hv e0 p He0 Hp). lia.
  - rewrite Hi in He0. rewrite (shapes_length _ _ Hs). eauto.
  - eauto.
Qed.

Lemma reachable_pats_valid g : reachable any_call g -> pats_valid g.
Proof.
  apply reachable_invariant; [intros e p []|]. apply pats_valid_step.
Qed.

(** X4. On every instance of every state a process gets to, [prep_patterns]
    returns 0: the patterns it visits are all there. *)
Theorem prep_patterns_returns g this e sc :
  reachable any_call g ->
  instances g !! this = Some e ->
  exists g', prep_patterns this sc g = Ok (0, g').
Proof.
  intros Hg He.
  assert (Hall : forall p, In p (pats e) -> exists P, heap g !! p = Some P).
  { intros p Hp. apply lookup_lt_is_Some.
    apply (reachable_pats_valid g Hg e p); [eapply In_lookup; eauto | exact Hp]. }
  destruct (ctor_patterns_spec (agent e) sc (pats e) g Hall)
    as (h' & evs & Hrun & _).
  eexists. unfold prep_patterns, user_ctor, bind.
  rewrite (this_instance_Ok g this e He), Hrun. reflexivity.
Qed.

(** *** Subset identifiers *)

Lemma instance_ids_step g g' :
  instance_ids_ok g -> step true g g' -> instance_ids_ok g'.
Proof.
  intros Hv Hstep. destruct Hstep as [a g|this e q Q t u g He Hq HQ HQt
                                     |this e bytes desc u g He|g g' Hs Hi Hc|g _];
    intros i e0 Hi0; cbn in *.
  - destruct (decide (i < List.length (instances g))%nat) as [Hlt|Hge].
    + rewrite lookup_app_l in Hi0 by exact Hlt. eauto.
    + rewrite lookup_app_r in Hi0 by lia.
      destruct (i - List.length (instances g))%nat as [|k] eqn:Hk; [|destruct k; discriminate].
      injection Hi0 as <-. cbn. do 2 f_equal. lia.
  - eauto.
  - apply list_lookup_insert_Some in Hi0.
    destruct Hi0 as [(<- & <- & _)|(_ & Hi0)]; [cbn|]; eauto.
  - rewrite Hi in Hi0. eauto.
  - eauto.
Qed.

Lemma reachable_instance_ids g : reachable any_call g -> instance_ids_ok g.
Proof.
  apply reachable_invariant; [intros i e H; discriminate|].
  apply instance_ids_step.
Qed.

(** *** The duplicate counter *)

Lemma total_contexts_app h1 h2 :
  total_contexts (h1 ++ h2) = (total_contexts h1 + total_contexts h2)%nat.
Proof. unfold total_contexts. now rewrite map_app, list_sum_app. Qed.

Lemma total_contexts_cons Q h :
  total_contexts (Q :: h) = (List.length (userctx Q) + total_contexts h)%nat.
Proof. reflexivity. Qed.

Lemma total_contexts_insert h : forall p P P',
  h !! p = Some P ->
  List.length (userctx P') = S (List.length (userctx P)) ->
  total_contexts (<[p := P']> h) = S (total_contexts h).
Proof.
  induction h as [|Q h IH]; intros p P P' HP Hlen; [discriminate|].
  destruct p as [|p].
  - injection HP as ->.
    change (<[0%nat := P']> (P :: h)) with (P' :: h).
    rewrite !total_contexts_cons. lia.
  - change (<[S p := P']> (Q :: h)) with (Q :: <[p := P']> h).
    rewrite !total_contexts_cons, (IH p P P' HP Hlen). lia.
Qed.

Lemma total_contexts_shapes h h' :
  map shape h' = map shape h -> total_contexts h' = total_contexts h.
Proof.
  intros Hs. unfold total_contexts. f_equal.
  assert (H : map (fun s : option string * Z * bool * bool * list Z =>
                     List.length (snd s)) (map shape h') =
              map (fun s => List.length (snd s)) (map shape h))
    by now rewrite Hs.
  rewrite !map_map in H. cbn in H.
  erewrite map_ext; [erewrite H|]; [apply map_ext|];
    intros P; cbn; now rewrite length_map.
Qed.

Lemma wrap64_sub_add a b : wrap64 (wrap64 (a - b) + 1) = wrap64 (a + 1 - b).
Proof. rewrite wrap64_add_l. f_equal. lia. Qed.

Lemma duplicates_counted_step g g' :
  duplicates_counted g -> step true g g' -> duplicates_counted g'.
Proof.
  unfold duplicates_counted.
  intros Hv Hstep. destruct Hstep as [a g|this e q Q t u g He Hq HQ HQt
                                     |this e bytes desc u g He|g g' Hs Hi Hc|g _];
    cbn -[total_contexts] in *.
  - exact Hv.
  - rewrite length_insert, Hv.
    rewrite (total_contexts_insert _ q Q) by
      (try exact HQ; cbn; rewrite length_app; cbn; lia).
    rewrite wrap64_sub_add. f_equal. lia.
  - rewrite total_contexts_app, length_app, Hv. cbn. f_equal.
    unfold total_contexts. cbn. lia.
  - rewrite (total_contexts_shapes _ _ Hs), (shapes_length _ _ Hs).
    unfold registry_counters in Hc. congruence.
  - exact Hv.
Qed.

(** X5. In every state a process gets to, [rxp_init] or not, the duplicate
    counter is the number of rule contexts held beyond the first of each
    pattern, modulo 2^64. *)
Theorem duplicates_count_extra_contexts g :
  reachable any_call g ->
  duplicates g =
  wrap64 (Z.of_nat (total_contexts (heap g)) - Z.of_nat (List.length (heap g))).
Proof.
  apply (reachable_invariant any_call duplicates_counted); [reflexivity|].
  apply duplicates_counted_step.
Qed.

(** *** Rule identifiers *)

Lemma wrap16_wrap64 z : wrap16 (wrap64 z) = wrap16 z.
Proof.
  unfold wrap16, wrap64. apply Z.mod_mod_divide.
  exists (2 ^ 48). reflexivity.
Qed.

Lemma rule_ids_counted_step g g' :
  rule_ids_counted g -> step false g g' -> rule_ids_counted g'.
Proof.
  unfold rule_ids_counted.
  intros (Hp & Hid) Hstep.
  destruct Hstep as [a g|this e q Q t u g He Hq HQ HQt
                    |this e bytes desc u g He|g g' Hs Hi Hc|g Hf];
    cbn in *.
  - auto.
  - rewrite length_insert. split; [exact Hp|].
    intros i P HP. apply list_lookup_insert_Some in HP.
    destruct HP as [(<- & <- & _)|(_ & HP)]; cbn; eauto.
  - rewrite length_app. cbn. split.
    + rewrite Hp, wrap64_add_l. f_equal. lia.
    + intros i P HP.
      destruct (decide (i < List.length (heap g))%nat) as [Hlt|Hge].
      * rewrite lookup_app_l in HP by exact Hlt. eauto.
      * rewrite lookup_app_r in HP by lia.
        destruct (i - List.length (heap g))%nat as [|k] eqn:Hk;
          [|destruct k; discriminate].
        injection HP as <-. cbn.
        rewrite Hp, wrap64_add_l, wrap16_wrap64. f_equal. lia.
  - rewrite (shapes_length _ _ Hs). split.
    + unfold registry_counters in Hc. congruence.
    + intros i P HP.
      destruct (shapes_lookup _ _ i P (eq_sym Hs) HP) as (P0 & HP0 & Hsh).
      rewrite <- (Hid i P0 HP0). unfold shape in Hsh. congruence.
  - discriminate.
Qed.

Lemma reachable_rule_ids_counted g : reachable no_rxp_init g -> rule_ids_counted g.
Proof.
  apply reachable_invariant_no_init; [auto| |apply rule_ids_counted_step].
  split; [reflexivity|]. intros i P H. discriminate.
Qed.

(** X6. As long as [rxp_init] is not called, the pattern counter is the number
    of pattern objects (modulo 2^64), the pattern made [i+1]-th carries the
    16 low bits of [i+1], and so, among the first 65535 patterns of a
    process, a pattern made later has the greater rule identifier. *)
Theorem rule_ids_follow_creation g :
  reachable no_rxp_init g ->
  patterns g = wrap64 (Z.of_nat (List.length (heap g))) /\
  (forall i P, heap g !! i = Some P -> ruleid P = wrap16 (Z.of_nat i + 1)) /\
  (forall i j Pi Pj,
     (i < j)%nat -> Z.of_nat j < 65535 ->
     heap g !! i = Some Pi -> heap g !! j = Some Pj ->
     0 < ruleid Pi < ruleid Pj).
Proof.
  intros Hg. destruct (reachable_rule_ids_counted g Hg) as (Hp & Hid).
  split; [exact Hp|]. split; [exact Hid|].
  intros i j Pi Pj Hij Hj Hi' Hj'.
  rewrite (Hid i Pi Hi'), (Hid j Pj Hj').
  rewrite !wrap16_small by lia. lia.
Qed.
(** *** Tables give back the patterns that were added *)

Lemma tables_complete_step g g' :
  rule_ids_counted g -> pats_valid g ->
  Z.of_nat (List.length (heap g')) < 2 ^ 16 ->
  tables_complete g -> step false g g' -> tables_complete g'.
Proof.
  intros (Hp & Hid) Hv Hb Hc Hstep.
  destruct Hstep as [a g|this e q Q t u g He Hq HQ HQt
                    |this e bytes desc u g He|g g' Hs Hi Hcn|g Hf];
    intros e0 p P0 He0 Hp0 HP0; cbn in *.
  - apply in_app_or in He0. destruct He0 as [He0|[<-|[]]]; [eauto|destruct Hp0].
  - apply list_lookup_insert_Some in HP0.
    destruct HP0 as [(<- & <- & _)|(_ & HP0)]; cbn; eauto.
  - rewrite length_app in Hb. cbn in Hb.
    assert (Hnew : wrap16 (wrap64 (patterns g + 1)) =
                   Z.of_nat (List.length (heap g)) + 1).
    { rewrite Hp, wrap64_add_l, wrap16_wrap64. apply wrap16_small. lia. }
    assert (Hold : forall p P, (p < List.length (heap g))%nat ->
                     (heap g ++ [RxpPattern_ctor (rxp_escape_pattern bytes) desc u
                                   (wrap16 (wrap64 (patterns g + 1)))]) !! p = Some P ->
                     heap g !! p = Some P /\ ruleid P = Z.of_nat p + 1).
    { intros p1 P1 Hlt H1. rewrite lookup_app_l in H1 by exact Hlt.
      split; [exact H1|]. rewrite (Hid p1 P1 H1). apply wrap16_small. lia. }
    apply In_list_insert in He0. destruct He0 as [->|He0].
    + cbn in Hp0 |- *. apply in_app_or in Hp0. destruct Hp0 as [Hp0|[<-|[]]].
      * pose proof (Hv e p (In_lookup _ _ _ He) Hp0) as Hlt.
        destruct (Hold p P0 Hlt HP0) as (HP & Hr).
        rewrite lookup_insert_ne by lia.
        apply (Hc e p P0 (In_lookup _ _ _ He) Hp0 HP).
      * rewrite lookup_app_r in HP0 by lia.
        rewrite Nat.sub_diag in HP0. injection HP0 as <-. cbn.
        apply lookup_insert_eq.
    + pose proof (Hv e0 p He0 Hp0) as Hlt.
      destruct (Hold p P0 Hlt HP0) as (HP & Hr). eauto.
  - rewrite Hi in He0.
    destruct (shapes_lookup _ _ p P0 (eq_sym Hs) HP0) as (P1 & HP1 & Hsh).
    assert (Hr : ruleid P0 = ruleid P1) by (unfold shape in Hsh; congruence).
    rewrite Hr. eauto.
  - discriminate.
Qed.

Lemma reachable_tables_complete g :
  reachable no_rxp_init g ->
  rule_ids_counted g /\ pats_valid g /\
  (Z.of_nat (List.length (heap g)) < 2 ^ 16 -> tables_complete g).
Proof.
  apply (reachable_invariant_no_init no_rxp_init
           (fun g => rule_ids_counted g /\ pats_valid g /\
              (Z.of_nat (List.length (heap g)) < 2 ^ 16 -> tables_complete g)));
    [auto| |].
  - split; [split; [reflexivity|intros i P H; discriminate]|].
    split; [intros e p []|]. intros _ e p P [].
  - intros g0 g1 (Hr & Hv & Hc) Hstep.
    split; [eapply rule_ids_counted_step; eauto|].
    split; [eapply pats_valid_step; eauto using step_false_true|].
    intros Hb. eapply tables_complete_step; eauto.
    apply Hc. pose proof (step_heap_length _ _ _ Hstep). lia.
Qed.

(** X7. As long as [rxp_init] is not called and fewer than 65536 patterns have
    been made, a match whose rule identifier is that of a pattern an
    instance holds resolves, in that instance's table, to that very
    pattern: the table is the inverse of the identifiers handed out. *)
Theorem held_pattern_resolves g this e p P s l :
  reachable no_rxp_init g ->
  Z.of_nat (List.length (heap g)) < 2 ^ 16 ->
  instances g !! this = Some e -> In p (pats e) -> heap g !! p = Some P ->
  resolves (heap g) e {| rule_id := ruleid P; start_ptr := s; length := l |} P.
Proof.
  intros Hg Hb He Hp HP.
  destruct (reachable_tables_complete g Hg) as (_ & _ & Hc).
  exists p. split; [|exact HP]. cbn.
  apply (Hc Hb e p P (In_lookup _ _ _ He) Hp HP).
Qed.

(** *** Texts *)

Lemma texts_escaped_step g g' :
  texts_escaped g -> step true g g' -> texts_escaped g'.
Proof.
  intros Hv Hstep. destruct Hstep as [a g|this e q Q t u g He Hq HQ HQt
                                     |this e bytes desc u g He|g g' Hs Hi Hc|g _];
    intros P0 t0 HP0 Ht0; cbn in *.
  - eauto.
  - apply In_list_insert in HP0. destruct HP0 as [->|HP0]; [|eauto].
    cbn in Ht0. apply (Hv Q t0 (In_lookup _ _ _ HQ) Ht0).
  - apply in_app_or in HP0. destruct HP0 as [HP0|[<-|[]]]; [eauto|].
    cbn in Ht0. now exists bytes.
  - apply list_elem_of_In, list_elem_of_lookup in HP0. destruct HP0 as (i & HP0).
    destruct (shapes_lookup _ _ i P0 (eq_sym Hs) HP0) as (P1 & HP1 & Hsh).
    apply (Hv P1 t0 (In_lookup _ _ _ HP1)).
    unfold shape in Hsh. congruence.
  - eauto.
Qed.

Lemma reachable_texts_escaped g : reachable any_call g -> texts_escaped g.
Proof.
  apply reachable_invariant; [intros P t []|]. apply texts_escaped_step.
Qed.

(** ** Sequences of calls *)

Lemma run_calls_reachable (A : call -> Prop) cs : forall g g',
  reachable A g -> Forall A cs -> run_calls cs g = Ok (tt, g') ->
  reachable A g'.
Proof.
  induction cs as [|c cs IH]; intros g g' Hg Hall Hrun.
  - injection Hrun as <-. exact Hg.
  - cbn [run_calls] in Hrun. apply bind_Ok_inv in Hrun.
    destruct Hrun as ([] & g1 & H1 & H2).
    apply Forall_cons_iff in Hall. destruct Hall as (Hc & Hall).
    apply (IH g1 g'); [|exact Hall|exact H2].
    eapply reachable_call; eauto.
Qed.

Lemma two_instances_plain : reachable plain_call two_instances.
Proof.
  apply (run_calls_reachable plain_call two_instances_calls process_start);
    [constructor| |vm_compute; reflexivity].
  unfold two_instances_calls.
  repeat (apply List.Forall_cons; [split; cbn; try discriminate; exact I|]).
  apply List.Forall_nil.
Qed.

Lemma two_instances_any : reachable any_call two_instances.
Proof. apply (reachable_weaken plain_call); [intros; exact I|apply two_instances_plain]. Qed.

Lemma two_instances_no_init : reachable no_rxp_init two_instances.
Proof. apply (reachable_weaken plain_call); [now intros c (_ & H)|apply two_instances_plain]. Qed.

Lemma two_instances_no_empty : reachable no_empty_pattern two_instances.
Proof. apply (reachable_weaken plain_call); [now intros c (H & _)|apply two_instances_plain]. Qed.
Lemma prep_patterns_returns_witness :
  exists g', prep_patterns 1 7 two_instances = Ok (0, g').
Proof.
  apply (prep_patterns_returns two_instances 1 (instance_at two_instances 1) 7);
    [apply two_instances_any | vm_compute; reflexivity].
Defined.

Lemma duplicates_count_extra_contexts_witness :
  duplicates two_instances =
  wrap64 (Z.of_nat (total_contexts (heap two_instances)) -
          Z.of_nat (List.length (heap two_instances))).
Proof. apply (duplicates_count_extra_contexts two_instances), two_instances_any. Defined.

Lemma rule_ids_follow_creation_witness :
  patterns two_instances = wrap64 (Z.of_nat (List.length (heap two_instances))) /\
  (forall i P, heap two_instances !! i = Some P -> ruleid P = wrap16 (Z.of_nat i + 1)) /\
  (forall i j Pi Pj,
     (i < j)%nat -> Z.of_nat j < 65535 ->
     heap two_instances !! i = Some Pi -> heap two_instances !! j = Some Pj ->
     0 < ruleid Pi < ruleid Pj).
Proof. apply (rule_ids_follow_creation two_instances), two_instances_no_init. Defined.

Lemma held_pattern_resolves_witness :
  resolves (heap two_instances) (instance_at two_instances 1)
    {| rule_id := ruleid (pattern_at two_instances 2); start_ptr := 4; length := 3 |}
    (pattern_at two_instances 2).
Proof.
  apply (held_pattern_resolves two_instances 1 (instance_at two_instances 1) 2
           (pattern_at two_instances 2) 4 3).
  - apply two_instances_no_init.
  - vm_compute. reflexivity.
  - vm_compute. reflexivity.
  - vm_compute. auto.
  - vm_compute. reflexivity.
Defined.

(** *** Who holds a pattern *)

Lemma concat_pats_insert l : forall i e e' p,
  l !! i = Some e -> pats e' = pats e ++ [p] ->
  Permutation (concat (map pats (<[i := e']> l))) (p :: concat (map pats l)).
Proof.
  induction l as [|a l IH]; intros i e e' p He Hp; [discriminate|].
  destruct i as [|i].
  - injection He as ->.
    change (<[0%nat := e']> (e :: l)) with (e' :: l). cbn [map concat].
    rewrite Hp, <- app_assoc. cbn. symmetry. apply Permutation_middle.
  - change (<[S i := e']> (a :: l)) with (a :: <[i := e']> l). cbn [map concat].
    rewrite (IH i e e' p He Hp). symmetry. apply Permutation_middle.
Qed.

Lemma pats_partition_step g g' :
  pats_partition g -> step true g g' -> pats_partition g'.
Proof.
  unfold pats_partition.
  intros Hv Hstep. destruct Hstep as [a g|this e q Q t u g He Hq HQ HQt
                                     |this e bytes desc u g He|g g' Hs Hi Hc|g _];
    cbn [heap instances set_heap set_instances set_duplicates set_jobs_submitted
         set_match_limit set_patterns set_max_pattern_len with_new_pattern].
  - rewrite map_app, concat_app. cbn. now rewrite app_nil_r.
  - now rewrite length_insert.
  - rewrite length_app. cbn [List.length]. rewrite Nat.add_1_r, seq_S. cbn.
    erewrite (concat_pats_insert _ this e _ (List.length (heap g)) He);
      [|reflexivity].
    rewrite Hv. apply Permutation_cons_append.
  - now rewrite Hi, (shapes_length _ _ Hs).
  - exact Hv.
Qed.

Lemma reachable_pats_partition g : reachable any_call g -> pats_partition g.
Proof.
  apply reachable_invariant; [apply Permutation_refl|]. apply pats_partition_step.
Qed.

Lemma NoDup_concat_lookup {A} (ls : list (list A)) :
  NoDup (concat ls) ->
  forall i j a b x,
    ls !! i = Some a -> ls !! j = Some b -> In x a -> In x b -> i = j.
Proof.
  induction ls as [|c ls IH]; intros Hnd i j a b x Hi Hj Ha Hb; [discriminate|].
  cbn in Hnd. apply NoDup_app in Hnd. destruct Hnd as (_ & Hdis & Hnd).
  assert (Hout : forall k d, ls !! k = Some d -> In x c -> In x d -> False).
  { intros k d Hk Hc Hd. apply (Hdis x); [now apply list_elem_of_In|].
    apply list_elem_of_In, in_concat. exists d. split; [|exact Hd].
    eapply In_lookup; eauto. }
  destruct i as [|i], j as [|j]; cbn in Hi, Hj.
  - reflexivity.
  - injection Hi as <-. destruct (Hout j b Hj Ha Hb).
  - injection Hj as <-. destruct (Hout i a Hi Hb Ha).
  - f_equal. eapply IH; eauto.
Qed.


Lemma pats_partition_disjoint g :
  pats_partition g ->
  forall i j e e' p,
    instances g !! i = Some e -> instances g !! j = Some e' ->
    In p (pats e) -> In p (pats e') -> i = j.
Proof.
  intros Hperm i j e e' p Hi Hj Hp Hp'. unfold pats_partition in Hperm.
  assert (Hnd : NoDup (concat (map pats (instances g)))).
  { rewrite Hperm. apply NoDup_ListNoDup, List.seq_NoDup. }
  apply (NoDup_concat_lookup _ Hnd i j (pats e) (pats e') p);
    try assumption; rewrite list_lookup_fmap; [now rewrite Hi|now rewrite Hj].
Qed.



(** *** Dispatch in a state the process got to *)

(** X9. In every state a process gets to, the dispatch of a match either finds
    its rule identifier in the table of the instance, and then calls back
    for the contexts of a pattern object that carries that identifier, or
    does not find it, and then dereferences the null entry it has just
    made. A table never names a dead or foreign object. *)
Theorem dispatch_fails_only_on_missing_id g this e mf pv m :
  reachable any_call g ->
  instances g !! this = Some e ->
  (exists p P,
     ruleidtbl e !! rule_id m = Some (Some p) /\ heap g !! p = Some P /\
     ruleid P = rule_id m /\
     dispatch_match this mf pv m g =
       Ok (tt, set_trace (trace g ++ callbacks pv m P) g)) \/
  (ruleidtbl e !! rule_id m = None /\
   dispatch_match this mf pv m g = Fault NullDeref).
Proof.
  intros Hg He.
  destruct (ruleidtbl e !! rule_id m) as [v|] eqn:Hv.
  - left.
    destruct (reachable_tables_sound g Hg e (rule_id m) v (In_lookup _ _ _ He) Hv)
      as (p & P & -> & HP & Hid).
    exists p, P. repeat split; try assumption.
    apply (dispatch_match_Ok this e); [exact He|]. now exists p.
  - right. split; [reflexivity|]. now apply (dispatch_match_miss this e).
Qed.

Lemma dispatch_fails_only_on_missing_id_witness :
  (exists p P,
     ruleidtbl (instance_at two_instances 1) !! 2 = Some (Some p) /\
     heap two_instances !! p = Some P /\ ruleid P = 2 /\
     dispatch_match 1 stop_always 9 (mkMatch 2 7 3)
       two_instances =
       Ok (tt, set_trace (trace two_instances ++ callbacks 9 (mkMatch 2 7 3) P)
                 two_instances)) \/
  (ruleidtbl (instance_at two_instances 1) !! 2 = None /\
   dispatch_match 1 stop_always 9 (mkMatch 2 7 3)
     two_instances = Fault NullDeref).
Proof.
  apply (dispatch_fails_only_on_missing_id two_instances 1
           (instance_at two_instances 1) stop_always 9 (mkMatch 2 7 3));
    [apply two_instances_any | vm_compute; reflexivity].
Defined.
(** ** The registry, call after call *)

Lemma add_pattern_reachable (A : call -> Prop) g this bytes desc u r g' :
  reachable A g -> A (call_add_pattern this bytes desc u) ->
  add_pattern this bytes desc u g = Ok (r, g') -> reachable A g'.
Proof.
  intros Hg Hc Hadd.
  apply (reachable_call A g (call_add_pattern this bytes desc u) g' Hg Hc).
  cbn [run_call]. unfold bind. now rewrite Hadd.
Qed.

(** X10. A pattern that has just been added is found again: as long as
    [rxp_init] is not called and the rule identifiers have not wrapped, a
    match that carries the rule identifier of the pattern holding the added
    text makes the instance call back for the contexts of that pattern, the
    last of which is the one just added. *)
Theorem added_pattern_is_dispatched g this bytes desc u r g' mf pv s l :
  reachable plain_call g ->
  bytes <> [] ->
  Z.of_nat (List.length (heap g)) < 2 ^ 16 - 1 ->
  add_pattern this bytes desc u g = Ok (r, g') ->
  exists p P,
    heap g' !! p = Some P /\ pat P = rxp_escape_pattern bytes /\
    last (userctx P) = Some (UserCtx_ctor u) /\
    dispatch_match this mf pv (mkMatch (ruleid P) s l) g' =
      Ok (tt, set_trace (trace g' ++ callbacks pv (mkMatch (ruleid P) s l) P) g').
Proof.
  intros Hg Hne Hb Hadd.
  assert (Hg' : reachable no_rxp_init g').
  { apply (reachable_weaken plain_call); [now intros c (_ & H)|].
    eapply add_pattern_reachable; eauto. now split. }
  destruct (reachable_tables_complete g' Hg') as (_ & _ & Hc).
  destruct (add_pattern_cases _ _ _ _ _ _ _ Hadd) as (_ & e & He & Hcase).
  assert (Hfound : exists e' p P,
             instances g' !! this = Some e' /\ In p (pats e') /\
             heap g' !! p = Some P /\ pat P = rxp_escape_pattern bytes /\
             last (userctx P) = Some (UserCtx_ctor u) /\
             Z.of_nat (List.length (heap g')) < 2 ^ 16).
  { destruct Hcase as [(p & P & t & Hin & HP & HPt & Ht & ->)| ->].
    - exists e, p, (push_userctx (UserCtx_ctor u) P). cbn.
      rewrite length_insert.
      repeat split; try assumption; try lia.
      + apply list_lookup_insert_eq. now apply lookup_lt_Some in HP.
      + congruence.
      + apply last_snoc.
    - eexists _, (List.length (heap g)), _. cbn. rewrite length_app. cbn.
      split; [apply list_lookup_insert_eq; now apply lookup_lt_Some in He|].
      split; [cbn; apply in_or_app; right; now left|].
      split; [rewrite lookup_app_r by lia; now rewrite Nat.sub_diag|].
      cbn. repeat split. lia. }
  destruct Hfound as (e' & p & P & He' & Hin & HP & HPt & Hlast & Hb').
  exists p, P. repeat split; try assumption.
  apply (dispatch_match_Ok this e'); [exact He'|].
  exists p. split; [|exact HP]. cbn.
  apply (Hc Hb' e' p P (In_lookup _ _ _ He') Hin HP).
Qed.

Lemma added_pattern_is_dispatched_witness :
  exists p P,
    heap (state_after (add_pattern 1 GET negated 105) two_instances) !! p = Some P /\
    pat P = rxp_escape_pattern GET /\
    last (userctx P) = Some (UserCtx_ctor 105) /\
    dispatch_match 1 stop_always 9 (mkMatch (ruleid P) 4 3)
      (state_after (add_pattern 1 GET negated 105) two_instances) =
      Ok (tt, set_trace
                (trace (state_after (add_pattern 1 GET negated 105) two_instances) ++
                 callbacks 9 (mkMatch (ruleid P) 4 3) P)
                (state_after (add_pattern 1 GET negated 105) two_instances)).
Proof.
  apply (added_pattern_is_dispatched two_instances 1 GET negated 105 0
           (state_after (add_pattern 1 GET negated 105) two_instances)
           stop_always 9 4 3).
  - apply two_instances_plain.
  - discriminate.
  - vm_compute. reflexivity.
  - vm_compute. reflexivity.
Defined.

(** *** The descriptor of a duplicate *)

Lemma find_pattern_holds t ps g :
  (exists p, In p ps /\ text_of g p = Some t) ->
  forall g', find_pattern (Some t) ps g <> Ok (None, g').
Proof.
  induction ps as [|q ps IH]; intros (p & Hin & Hp) g'; [destruct Hin|].
  cbn [find_pattern]. unfold bind at 1. unfold load_pattern.
  destruct (heap g !! q) as [Q|] eqn:HQ; [|discriminate]. cbn [deref ret].
  unfold bind at 1. destruct (pat Q) as [s|] eqn:Hs; [|discriminate].
  cbn [deref ret]. unfold bind at 1. cbn [deref ret].
  destruct (String.eqb s t) eqn:Hst; [discriminate|].
  apply IH. exists p. split; [|exact Hp].
  destruct Hin as [<-|Hin]; [|exact Hin].
  unfold text_of in Hp. rewrite HQ, Hs in Hp. injection Hp as ->.
  rewrite String.eqb_refl in Hst. discriminate.
Qed.

(** X11. When the instance already holds the text, [add_pattern] does not look
    at the descriptor: the case and negation flags of a duplicate are
    dropped, those of the first pattern with the text stay. *)
Theorem duplicate_ignores_descriptor g this e bytes t desc desc' u :
  instances g !! this = Some e ->
  rxp_escape_pattern bytes = Some t ->
  holds_text g e t ->
  add_pattern this bytes desc u g = add_pattern this bytes desc' u g.
Proof.
  intros He Ht Hholds.
  pose proof (find_pattern_holds t (pats e) g Hholds) as Hfind.
  unfold add_pattern, bind. rewrite Ht, (this_instance_Ok g this e He).
  destruct (find_pattern (Some t) (pats e) g) as [[[p|] g1]| |] eqn:Hf;
    try reflexivity.
  destruct (Hfind g1 eq_refl).
Qed.

Lemma duplicate_ignores_descriptor_witness :
  add_pattern 0 GET plain 105 two_instances =
  add_pattern 0 GET negated 105 two_instances.
Proof.
  apply (duplicate_ignores_descriptor two_instances 0 (instance_at two_instances 0)
           GET "GET" plain negated 105).
  - vm_compute. reflexivity.
  - vm_compute. reflexivity.
  - exists 0%nat. split; [vm_compute; auto | vm_compute; reflexivity].
Defined.

(** *** Rule identifiers after a reset *)

Lemma texts_absent g e t :
  texts_present g e -> ~ holds_text g e t ->
  forall q, In q (pats e) -> exists s, text_of g q = Some s /\ s <> t.
Proof.
  intros Hp Hn q Hq. destruct (Hp q Hq) as (s & Hs).
  exists s. split; [exact Hs|]. intros ->. apply Hn. now exists q.
Qed.

(** X12. After [rxp_init] the next new pattern gets the rule identifier 1
    again, whatever identifiers are in use. In an instance whose tables are
    sound (every entry leads to a pattern object that carries the entry's
    key, as in every state the calls of the registry lead to) and whose
    patterns all have a text, the table then sends 1 to the new pattern;
    every pattern the instance held before is still held, unchanged, but
    one that carried the identifier 1 is no longer to be found under any
    key of the table: no match reaches it any more. *)
Theorem rule_ids_restart_after_rxp_init g this e bytes t desc u :
  instances g !! this = Some e ->
  tables_sound g ->
  texts_present g e ->
  rxp_escape_pattern bytes = Some t ->
  ~ holds_text g e t ->
  exists g' e' P,
    (rxp_init ;;; add_pattern this bytes desc u) g = Ok (0, g') /\
    instances g' !! this = Some e' /\
    heap g' !! List.length (heap g) = Some P /\
    ruleid P = 1 /\ pat P = Some t /\
    ruleidtbl e' !! 1 = Some (Some (List.length (heap g))) /\
    (forall p, In p (pats e) -> In p (pats e') /\ heap g' !! p = heap g !! p) /\
    (forall p P0, In p (pats e) -> heap g !! p = Some P0 -> ruleid P0 = 1 ->
       forall id, ruleidtbl e' !! id <> Some (Some p)).
Proof.
  intros He Hsound Hp Ht Hn.
  set (g0 := set_max_pattern_len 0
               (set_patterns 0 (set_match_limit 0 (set_jobs_submitted 0 g)))).
  assert (Hinit : rxp_init g = Ok (tt, g0)) by reflexivity.
  assert (Hadd : add_pattern this bytes desc u g0 =
                 Ok (0, with_new_pattern this e (rxp_escape_pattern bytes)
                          (Z.of_nat (List.length bytes)) desc u g0)).
  { apply add_pattern_fresh; [exact He|]. rewrite Ht.
    apply (find_pattern_absent g0 t (pats e)).
    apply (texts_absent g e t Hp Hn). }
  assert (Hone : wrap16 (wrap64 (0 + 1)) = 1) by reflexivity.
  eexists _, _, _.
  split; [|split; [|split; [|split; [|split; [|split; [|split]]]]]].
  - unfold bind. rewrite Hinit. exact Hadd.
  - cbn. apply list_lookup_insert_eq. now apply lookup_lt_Some in He.
  - cbn. rewrite lookup_app_r by lia. now rewrite Nat.sub_diag.
  - cbn. exact Hone.
  - cbn. exact Ht.
  - cbn. rewrite Hone. apply lookup_insert_eq.
  - intros p Hin. cbn. split; [apply in_or_app; now left|].
    destruct (Hp p Hin) as (s & Hs). apply text_of_Some in Hs.
    destruct Hs as (P & HP & _).
    apply lookup_app_l. now apply lookup_lt_Some in HP.
  - intros p P0 Hin HP Hid id. cbn. rewrite Hone.
    destruct (decide (id = 1)) as [->|Hne].
    + rewrite lookup_insert_eq. intros [= Heq].
      apply lookup_lt_Some in HP. lia.
    + rewrite lookup_insert_ne by congruence. intros Hv.
      destruct (Hsound e id (Some p) (In_lookup _ _ _ He) Hv)
        as (p' & P' & [= <-] & HP' & Hid').
      congruence.
Qed.

Lemma rule_ids_restart_after_rxp_init_witness :
  exists g' e' P,
    (rxp_init ;;; add_pattern 0 POST plain 105) two_instances = Ok (0, g') /\
    instances g' !! 0%nat = Some e' /\
    heap g' !! List.length (heap two_instances) = Some P /\
    ruleid P = 1 /\ pat P = Some "POST"%string /\
    ruleidtbl e' !! 1 = Some (Some (List.length (heap two_instances))) /\
    (forall p, In p (pats (instance_at two_instances 0)) ->
       In p (pats e') /\ heap g' !! p = heap two_instances !! p) /\
    (forall p P0, In p (pats (instance_at two_instances 0)) ->
       heap two_instances !! p = Some P0 -> ruleid P0 = 1 ->
       forall id, ruleidtbl e' !! id <> Some (Some p)).
Proof.
  apply (rule_ids_restart_after_rxp_init two_instances 0
           (instance_at two_instances 0) POST "POST" plain 105).
  - vm_compute. reflexivity.
  - apply reachable_tables_sound, two_instances_any.
  - apply (proj1 (reachable_texts_present_distinct two_instances
                    two_instances_no_empty)).
    vm_compute. auto.
  - vm_compute. reflexivity.
  - intros (p & Hin & Hp). vm_compute in Hin.
    destruct Hin as [<-|[]]. vm_compute in Hp. discriminate.
Defined.
(** *** Texts and lengths *)

(** X13. As long as no pattern of length zero is added, an instance holds at
    most one pattern for a text, and so for a byte sequence: two places of
    its pattern vector with the same text are the same place, and every
    place has a text. *)
Theorem one_pattern_per_text g this e i j p q :
  reachable no_empty_pattern g ->
  instances g !! this = Some e ->
  pats e !! i = Some p -> pats e !! j = Some q ->
  (exists t, text_of g p = Some t) /\
  (text_of g p = text_of g q -> i = j).
Proof.
  intros Hg He Hi Hj.
  destruct (reachable_texts_present_distinct g Hg) as (Hpres & Hdist).
  pose proof (In_lookup _ _ _ He) as Hin.
  split; [apply (Hpres e Hin p), (In_lookup _ _ _ Hi)|].
  intros Heq.
  apply (NoDup_lookup (map (text_of g) (pats e)) i j (text_of g p));
    [apply Hdist, Hin| |]; rewrite list_lookup_fmap.
  - now rewrite Hi.
  - rewrite Hj. cbn. now rewrite Heq.
Qed.

Lemma one_pattern_per_text_witness :
  (exists t, text_of two_instances 1 = Some t) /\
  (text_of two_instances 1 = text_of two_instances 2 -> 0%nat = 1%nat).
Proof.
  apply (one_pattern_per_text two_instances 1 (instance_at two_instances 1)
           0 1 1 2).
  - apply two_instances_no_empty.
  - vm_compute. reflexivity.
  - vm_compute. reflexivity.
  - vm_compute. reflexivity.
Defined.

(** *** The longest pattern *)





(** ** What a search leaves behind *)

Lemma set_trace_same g : set_trace (trace g ++ []) g = g.
Proof. destruct g. unfold set_trace. cbn. now rewrite app_nil_r. Qed.

Lemma only_trace_ret {A} (a : A) : only_trace (ret a).
Proof. intros g b g' [= _ <-]. exists []. symmetry. apply set_trace_same. Qed.

Lemma only_trace_gets {A} (f : Global -> A) : only_trace (gets f).
Proof. intros g b g' [= _ <-]. exists []. symmetry. apply set_trace_same. Qed.

Lemma only_trace_deref {A} f (o : option A) : only_trace (deref f o).
Proof.
  intros g b g' H. destruct o; [|discriminate]. injection H as _ <-.
  exists []. symmetry. apply set_trace_same.
Qed.

Lemma only_trace_emit ev : only_trace (emit ev).
Proof. intros g b g' [= <-]. now exists [ev]. Qed.

Lemma only_trace_bind {A B} (m : M Global A) (k : A -> M Global B) :
  only_trace m -> (forall a, only_trace (k a)) -> only_trace (bind m k).
Proof.
  intros Hm Hk g b g' H. apply bind_Ok_inv in H.
  destruct H as (a & g1 & H1 & H2).
  destruct (Hm _ _ _ H1) as (evs1 & ->).
  destruct (Hk a _ _ _ H2) as (evs2 & ->).
  exists (evs1 ++ evs2). apply set_trace_app.
Qed.

Lemma only_trace_this_instance this : only_trace (this_instance this).
Proof. intros g a g' H. now apply (only_trace_deref BadAddress (instances g !! this) g a). Qed.

Lemma only_trace_load_pattern p : only_trace (load_pattern p).
Proof. intros g a g' H. now apply (only_trace_deref BadAddress (heap g !! p) g a). Qed.

Lemma only_trace_await_response lib fuel : only_trace (await_response lib fuel).
Proof.
  induction fuel as [|fuel IH]; [intros g a g' H; discriminate|].
  cbn [await_response].
  apply only_trace_bind; [apply only_trace_gets|intros port].
  apply only_trace_bind; [apply only_trace_emit|intros _].
  apply only_trace_bind; [apply only_trace_gets|intros r].
  destruct (snd (fst r) =? 0); [exact IH|apply only_trace_ret].
Qed.

Lemma only_trace_fire mf to pv cs : only_trace (fire mf to pv cs).
Proof.
  induction cs as [|c cs IH]; cbn [fire]; [apply only_trace_ret|].
  apply only_trace_bind; [apply only_trace_emit|intros _].
  apply only_trace_bind; [apply only_trace_gets|intros _]. exact IH.
Qed.

(** A dispatch that returns has found its rule identifier in the table:
    had it made the null entry, it would not have returned. *)
Lemma only_trace_dispatch_match this mf pv m :
  only_trace (dispatch_match this mf pv m).
Proof.
  intros g a g' H. unfold dispatch_match, ruleidtbl_at in H.
  unfold bind at 1 2 in H. unfold this_instance in H.
  destruct (instances g !! this) as [e|]; [|discriminate]. cbn [deref ret] in H.
  destruct (ruleidtbl e !! rule_id m) as [[p|]|]; try discriminate.
  cbn [ret] in H.
  revert H. apply (only_trace_bind (load_pattern p)
                     (fun P => fire mf (to_int (start_ptr m + length m)) pv (userctx P)));
    [apply only_trace_load_pattern|intros P; apply only_trace_fire].
Qed.

Lemma only_trace_dispatch_matches this mf pv resp n : forall i,
  only_trace (dispatch_matches this mf pv resp n i).
Proof.
  induction n as [|n IH]; intros i; cbn [dispatch_matches]; [apply only_trace_ret|].
  apply only_trace_bind; [apply only_trace_deref|intros m].
  apply only_trace_bind; [apply only_trace_dispatch_match|intros _]. apply IH.
Qed.

Lemma submit_and_await_inv lib fuel this buf n g r g1 :
  submit_and_await lib fuel this buf n g = Ok (r, g1) ->
  exists e evs,
    instances g !! this = Some e /\
    g1 = set_trace (trace g ++ submission lib g e buf n ++ evs)
           (set_jobs_submitted (wrap64 (jobs_submitted g + 1)) g).
Proof.
  intros H. unfold submit_and_await in H.
  apply bind_Ok_inv in H. destruct H as (e & g0 & He & H).
  unfold this_instance in He.
  destruct (instances g !! this) as [e0|]; [|discriminate].
  injection He as <- <-. exists e0.
  apply bind_Ok_inv in H. destruct H as (n' & ga & Hn & H).
  assert (Hclamp : n' = job_length lib n /\
                   ga = set_trace (trace g ++ truncation_warning lib n) g).
  { unfold job_length, truncation_warning.
    destruct (n >? RXP_MAX_JOB_LENGTH lib).
    - injection Hn as <- <-. auto.
    - injection Hn as <- <-. split; [reflexivity|].
      symmetry. apply set_trace_same. }
  destruct Hclamp as (-> & ->).
  apply bind_Ok_inv in H. destruct H as ([] & gb & Hb & H). injection Hb as <-.
  apply bind_Ok_inv in H. destruct H as (port & gc & Hc & H). injection Hc as <- <-.
  apply bind_Ok_inv in H. destruct H as (job_id & gd & Hd & H). injection Hd as <- <-.
  apply bind_Ok_inv in H. destruct H as ([] & ge & Hev & H). injection Hev as <-.
  apply bind_Ok_inv in H. destruct H as (job & gf & Hf & H). injection Hf as <- <-.
  apply bind_Ok_inv in H. destruct H as ([] & gg & Hg & H). injection Hg as <-.
  apply bind_Ok_inv in H. destruct H as ([] & gh & Hh & H). injection Hh as <-.
  assert (Hrest :
    only_trace
      (pkt <- await_response lib fuel ;;
       emit (rxp_get_response_data pkt) ;;;
       decoded <- gets (fun g => get_response_data_result lib (trace g)) ;;
       ret (pkt, fst decoded, snd decoded))).
  { apply only_trace_bind; [apply only_trace_await_response|intros pkt].
    apply only_trace_bind; [apply only_trace_emit|intros _].
    apply only_trace_bind; [apply only_trace_gets|intros d]. apply only_trace_ret. }
  destruct (Hrest _ _ _ H) as (evs & ->). exists evs.
  split; [reflexivity|].
  unfold submission, set_trace, set_jobs_submitted. cbn.
  f_equal. rewrite <- !app_assoc. reflexivity.
Qed.

Lemma process_response_inv this mf pv status resp g u g2 :
  process_response this mf pv status resp g = Ok (u, g2) ->
  exists evs limit,
    (limit = match_limit g \/ limit = wrap64 (match_limit g + 1)) /\
    g2 = set_trace (trace g ++ evs) (set_match_limit limit g).
Proof.
  intros H. unfold process_response in H.
  apply bind_Ok_inv in H. destruct H as ([] & g1 & H1 & H).
  assert (Hg1 : exists evs1, g1 = set_trace (trace g ++ evs1) g).
  { destruct (status =? 0);
      [eapply only_trace_ret|eapply only_trace_emit]; exact H1. }
  destruct Hg1 as (evs1 & ->).
  destruct (match_count resp =? 0).
  - injection H as <-. exists evs1, (match_limit g). split; [now left|].
    now destruct g.
  - apply bind_Ok_inv in H. destruct H as ([] & g3 & H3 & H).
    destruct (only_trace_dispatch_matches _ _ _ _ _ _ _ _ _ H) as (evs3 & ->).
    destruct (detected_match_count resp >? match_count resp).
    + injection H3 as <-.
      exists (evs1 ++
              [LogMessage match_limit_format
                 [detected_match_count resp; match_count resp]] ++ evs3),
        (wrap64 (match_limit g + 1)).
      split; [now right|].
      unfold set_trace, set_match_limit. cbn. f_equal.
      rewrite <- !app_assoc. reflexivity.
    + injection H3 as <-. exists (evs1 ++ evs3), (match_limit g).
      split; [now left|].
      unfold set_trace, set_match_limit. cbn. f_equal.
      now rewrite <- !app_assoc.
Qed.

(** X15. A search that returns gives 0 and leaves 0 in [*current_state]; it has
    counted one more job, has counted the match limit as exceeded once or
    not at all, and has added events to the trace, the first of which are
    those of the submission of its job. The patterns, the instances with
    their tables and all other counters are as before. *)
Theorem search_changes_two_counters_only lib fuel this buf n mf pv g r g' :
  _search lib fuel this buf n mf pv g = Ok (r, g') ->
  r = (0, 0) /\
  exists e evs limit,
    instances g !! this = Some e /\
    (limit = match_limit g \/ limit = wrap64 (match_limit g + 1)) /\
    g' = set_trace (trace g ++ submission lib g e buf n ++ evs)
           (set_match_limit limit
              (set_jobs_submitted (wrap64 (jobs_submitted g + 1)) g)).
Proof.
  intros H. unfold _search in H.
  apply bind_Ok_inv in H. destruct H as (r0 & g3 & H & [= <- <-]).
  split; [reflexivity|]. unfold rxp_search in H.
  apply bind_Ok_inv in H. destruct H as (s & g1 & H1 & H).
  apply bind_Ok_inv in H. destruct H as ([] & g2 & H2 & H).
  apply bind_Ok_inv in H. destruct H as ([] & g4 & H4 & [= _ <-]).
  injection H4 as <-.
  destruct (submit_and_await_inv _ _ _ _ _ _ _ _ H1) as (e & evs1 & He & ->).
  destruct (process_response_inv _ _ _ _ _ _ _ _ H2) as (evs2 & limit & Hl & ->).
  exists e, (evs1 ++ evs2 ++ [rxp_free_buffer (fst (fst s))]), limit.
  split; [exact He|]. split; [exact Hl|].
  unfold set_trace, set_match_limit, set_jobs_submitted. cbn. f_equal.
  now rewrite <- !app_assoc.
Qed.

Lemma search_changes_two_counters_only_witness :
  (0, 0) = (0, 0) /\
  exists e evs limit,
    instances two_instances !! 0%nat = Some e /\
    (limit = match_limit two_instances \/
     limit = wrap64 (match_limit two_instances + 1)) /\
    state_after (_search (toy_device one_match) 5 0 GET 3 stop_always 9)
      two_instances =
    set_trace
      (trace two_instances ++
       submission (toy_device one_match) two_instances e GET 3 ++ evs)
      (set_match_limit limit
         (set_jobs_submitted (wrap64 (jobs_submitted two_instances + 1))
            two_instances)).
Proof.
  apply (search_changes_two_counters_only (toy_device one_match) 5 0 GET 3
           stop_always 9 two_instances (0, 0)
           (state_after (_search (toy_device one_match) 5 0 GET 3 stop_always 9)
              two_instances)).
  vm_compute. reflexivity.
Defined.

(** *** A device that does not answer *)

Lemma await_response_never lib :
  (forall h, snd (fst (get_responses_result lib h)) = 0) ->
  forall fuel g, await_response lib fuel g = Spinning.
Proof.
  intros Hnone. induction fuel as [|fuel IH]; intros g; [reflexivity|].
  cbn [await_response]. unfold bind, gets, emit, modify. cbn.
  rewrite Hnone. cbn. apply IH.
Qed.

(** X16. The wait for the response has no bound: with a device that never has
    a response, a search by a registered instance has not returned after
    any number of rounds, whatever the buffer. *)
Theorem search_waits_without_bound lib this e buf n mf pv g :
  instances g !! this = Some e ->
  (forall h, snd (fst (get_responses_result lib h)) = 0) ->
  forall fuel, _search lib fuel this buf n mf pv g = Spinning.
Proof.
  intros He Hnone fuel.
  unfold _search, rxp_search, submit_and_await.
  unfold bind at 1 2 3. rewrite (this_instance_Ok g this e He).
  destruct (n >? RXP_MAX_JOB_LENGTH lib);
    unfold bind, emit, modify, gets, ret; cbn;
    now rewrite (await_response_never lib Hnone).
Qed.

Lemma search_waits_without_bound_witness :
  _search silent_device 1000 0 GET 3 stop_always 9 two_instances = Spinning.
Proof.
  apply (search_waits_without_bound silent_device 0 (instance_at two_instances 0)
           GET 3 stop_always 9 two_instances).
  - vm_compute. reflexivity.
  - reflexivity.
Defined.
(** ** Finalisation, again and elsewhere *)

Lemma prep_patterns_spec g this e sc :
  instances g !! this = Some e ->
  (forall p, In p (pats e) -> exists P, heap g !! p = Some P) ->
  exists h' evs,
    prep_patterns this sc g =
      Ok (0, set_heap h' (set_trace (trace g ++ evs) g)) /\
    map shape h' = map shape (heap g) /\
    requests evs = flat_map (requests_at (heap g)) (pats e).
Proof.
  intros He Hall.
  destruct (ctor_patterns_spec (agent e) sc (pats e) g Hall)
    as (h' & evs & Hrun & Hs & Hr & _).
  exists h', evs. split; [|auto].
  unfold prep_patterns, user_ctor, bind.
  now rewrite (this_instance_Ok g this e He), Hrun.
Qed.

(** X17. Finalisation keeps no record of having run: a second [prep_patterns]
    on the same instance returns 0 as the first did and asks the agent for
    the same trees and lists over again, in the same order. *)
Theorem prep_patterns_twice_asks_twice g this e sc sc' :
  reachable any_call g ->
  instances g !! this = Some e ->
  exists g1 g2 evs1 evs2,
    prep_patterns this sc g = Ok (0, g1) /\ trace g1 = trace g ++ evs1 /\
    prep_patterns this sc' g1 = Ok (0, g2) /\ trace g2 = trace g1 ++ evs2 /\
    requests evs1 = flat_map (requests_at (heap g)) (pats e) /\
    requests evs2 = requests evs1.
Proof.
  intros Hg He.
  assert (Hall : forall p, In p (pats e) -> exists P, heap g !! p = Some P).
  { intros p Hp. apply lookup_lt_is_Some.
    apply (reachable_pats_valid g Hg e p); [eapply In_lookup; eauto | exact Hp]. }
  destruct (prep_patterns_spec g this e sc He Hall) as (h1 & evs1 & H1 & Hs1 & Hr1).
  set (g1 := set_heap h1 (set_trace (trace g ++ evs1) g)) in *.
  assert (Hall1 : forall p, In p (pats e) -> exists P, heap g1 !! p = Some P).
  { intros p Hp. destruct (Hall p Hp) as (P & HP).
    destruct (shapes_lookup _ _ p P Hs1 HP) as (P' & HP' & _). now exists P'. }
  destruct (prep_patterns_spec g1 this e sc' He Hall1) as (h2 & evs2 & H2 & _ & Hr2).
  exists g1, (set_heap h2 (set_trace (trace g1 ++ evs2) g1)), evs1, evs2.
  repeat split; try assumption.
  rewrite Hr1, Hr2. apply flat_map_ext. intros p.
  now apply requests_at_shapes.
Qed.

Lemma prep_patterns_twice_asks_twice_witness :
  exists g1 g2 evs1 evs2,
    prep_patterns 0 7 two_instances = Ok (0, g1) /\
    trace g1 = trace two_instances ++ evs1 /\
    prep_patterns 0 8 g1 = Ok (0, g2) /\ trace g2 = trace g1 ++ evs2 /\
    requests evs1 =
      flat_map (requests_at (heap two_instances))
               (pats (instance_at two_instances 0)) /\
    requests evs2 = requests evs1.
Proof.
  apply (prep_patterns_twice_asks_twice two_instances 0
           (instance_at two_instances 0) 7 8);
    [apply two_instances_any | vm_compute; reflexivity].
Defined.

Lemma ctor_patterns_elsewhere a sc ps : forall g u g',
  ctor_patterns a sc ps g = Ok (u, g') ->
  forall q, ~ In q ps -> heap g' !! q = heap g !! q.
Proof.
  induction ps as [|p ps IH]; intros g u g' H q Hq.
  - now injection H as _ <-.
  - cbn [ctor_patterns] in H. apply bind_Ok_inv in H.
    destruct H as ([] & g1 & H1 & H).
    rewrite (IH g1 u g' H q) by (intros Hin; apply Hq; now right).
    destruct (heap g !! p) as [P|] eqn:HP.
    + destruct (ctor_pattern_spec a sc p P g HP) as (P' & evs & Hrun & _).
      rewrite Hrun in H1. injection H1 as <-. cbn.
      apply list_lookup_insert_ne. intros ->. apply Hq. now left.
    + unfold ctor_pattern, bind, load_pattern in H1. now rewrite HP in H1.
Qed.

(** X18. Finalising one instance leaves the patterns of every other instance
    as they are, contexts, trees and lists included: in the states a
    process gets to no pattern object is within reach of two instances. *)
Theorem prep_patterns_leaves_other_instances g i j e e' sc r g' :
  reachable any_call g ->
  instances g !! i = Some e -> instances g !! j = Some e' -> i <> j ->
  prep_patterns i sc g = Ok (r, g') ->
  forall q, In q (pats e') -> heap g' !! q = heap g !! q.
Proof.
  intros Hg Hi Hj Hij Hrun q Hq.
  unfold prep_patterns in Hrun.
  apply bind_Ok_inv in Hrun. destruct Hrun as ([] & g1 & H1 & [= _ <-]).
  unfold user_ctor in H1. apply bind_Ok_inv in H1.
  destruct H1 as (e0 & g0 & He0 & H1).
  rewrite (this_instance_Ok g i e Hi) in He0. injection He0 as <- <-.
  apply (ctor_patterns_elsewhere _ _ _ _ _ _ H1).
  intros Hin. apply Hij.
  apply (pats_partition_disjoint g (reachable_pats_partition g Hg) i j e e' q);
    assumption.
Qed.

Lemma prep_patterns_leaves_other_instances_witness :
  heap (state_after (prep_patterns 0 8) two_instances) !! 1%nat =
    heap two_instances !! 1%nat /\
  heap (state_after (prep_patterns 0 8) two_instances) !! 2%nat =
    heap two_instances !! 2%nat.
Proof.
  assert (H : forall q, In q (pats (instance_at two_instances 1)) ->
            heap (state_after (prep_patterns 0 8) two_instances) !! q =
            heap two_instances !! q).
  { apply (prep_patterns_leaves_other_instances two_instances 0 1
             (instance_at two_instances 0) (instance_at two_instances 1) 8 0
             (state_after (prep_patterns 0 8) two_instances)).
    - apply two_instances_any.
    - vm_compute. reflexivity.
    - vm_compute. reflexivity.
    - discriminate.
    - vm_compute. reflexivity. }
  split; apply H; vm_compute; auto.
Defined.

(** *** What finalisation leaves alone *)

(** X19. A finalisation that returns gives 0 and has changed no text, rule
    identifier, flag or handle of any pattern, no instance with its table
    and pattern vector, and no counter: the trees and lists of the
    contexts and the trace are all it writes. *)
Theorem prep_patterns_writes_slots_only this sc g r g' :
  prep_patterns this sc g = Ok (r, g') ->
  r = 0 /\
  map shape (heap g') = map shape (heap g) /\
  instances g' = instances g /\
  registry_counters g' = registry_counters g /\
  jobs_submitted g' = jobs_submitted g /\
  match_limit g' = match_limit g.
Proof.
  intros H.
  destruct (prep_patterns_keeps _ _ _ _ _ H) as (Hs & Hi).
  destruct (keeps_counters_prep_patterns this sc) as (Hc & Hj & Hm).
  split.
  - unfold prep_patterns in H. apply bind_Ok_inv in H.
    destruct H as (u & g1 & _ & H). now injection H as <- _.
  - repeat split; [exact Hs|exact Hi|exact (Hc _ _ _ H)..|exact (Hj _ _ _ H)
                  |exact (Hm _ _ _ H)].
Qed.

Lemma prep_patterns_writes_slots_only_witness :
  0 = 0 /\
  map shape (heap (state_after (prep_patterns 1 8) two_instances)) =
    map shape (heap two_instances) /\
  instances (state_after (prep_patterns 1 8) two_instances) =
    instances two_instances /\
  registry_counters (state_after (prep_patterns 1 8) two_instances) =
    registry_counters two_instances /\
  jobs_submitted (state_after (prep_patterns 1 8) two_instances) =
    jobs_submitted two_instances /\
  match_limit (state_after (prep_patterns 1 8) two_instances) =
    match_limit two_instances.
Proof.
  apply (prep_patterns_writes_slots_only 1 8 two_instances 0
           (state_after (prep_patterns 1 8) two_instances)).
  vm_compute. reflexivity.
Defined.

(** ** The rule file *)

Lemma write_rules_Ok g ps : forall out,
  (forall p, In p ps -> exists s, text_of g p = Some s) ->
  write_rules ps out g = Ok (String.append out (rule_lines (heap g) ps), g).
Proof.
  induction ps as [|p ps IH]; intros out Hall.
  - cbn. now rewrite string_append_nil.
  - destruct (Hall p) as (s & Hs); [now left|].
    apply text_of_Some in Hs. destruct Hs as (P & HP & HPs).
    cbn [write_rules rule_lines]. unfold write_rule, bind.
    rewrite (load_pattern_Ok g p P HP), HP, HPs. cbn [deref ret].
    rewrite IH by (intros q Hq; apply Hall; now right).
    now rewrite string_append_assoc.
Qed.



Lemma keeps_write_rules ps : forall out,
  keeps (fun g => g) (write_rules ps out).
Proof.
  induction ps as [|p ps IH]; intros out; cbn [write_rules]; [apply keeps_ret|].
  apply keeps_bind; [|intros; apply IH]. unfold write_rule.
  apply keeps_bind; [apply keeps_load_pattern|intros P].
  apply keeps_bind; [apply keeps_deref|intros t]. apply keeps_ret.
Qed.

Lemma keeps_write_subsets es : forall subset out,
  keeps (fun g => g) (write_subsets es subset out).
Proof.
  induction es as [|e es IH]; intros subset out; cbn [write_subsets];
    [apply keeps_ret|].
  apply keeps_bind; [apply keeps_write_rules|intros; apply IH].
Qed.

(** [write_rule_file] changes nothing in the process, and what it returns
    is 0. *)
Lemma write_rule_file_reads_only filename g r g' :
  write_rule_file filename g = Ok (r, g') -> g' = g /\ fst r = 0.
Proof.
  intros H. split.
  - revert H. apply (keeps_bind (fun g => g)); [apply keeps_gets|intros es].
    destruct (2 ^ 32 <=? Z.of_nat (List.length es));
      [intros g0 a g1 H; discriminate|].
    apply keeps_bind; [apply keeps_write_subsets|intros; apply keeps_ret].
  - unfold write_rule_file, bind, gets in H.
    destruct (2 ^ 32 <=? Z.of_nat (List.length (instances g))); [discriminate|].
    destruct (write_subsets _ _ _ _) as [[out g1]| |]; try discriminate.
    now injection H as <- _.
Qed.

(** *** Lines *)

Lemma count_lines_append s t :
  count_lines (String.append s t) = (count_lines s + count_lines t)%nat.
Proof.
  unfold count_lines.
  now rewrite list_ascii_of_string_append, List.filter_app, length_app.
Qed.

Lemma count_lines_digits d : count_lines (NilEmpty.string_of_uint d) = 0%nat.
Proof. induction d; cbn; auto. Qed.

Lemma count_lines_decimal z : count_lines (decimal z) = 0%nat.
Proof.
  unfold decimal, NilZero.string_of_uint.
  destruct (N.to_uint (Z.to_N z)) eqn:Hd; try reflexivity;
    rewrite <- Hd at 1; try (rewrite Hd; apply count_lines_digits).
Qed.

Lemma no_newline_in_escape l :
  forallb is_escape_char l = true -> List.filter (Ascii.eqb newline) l = [].
Proof.
  induction l as [|a l IH]; [reflexivity|]. cbn [forallb List.filter].
  intros (Ha & Hl)%andb_prop.
  destruct (Ascii.eqb newline a) eqn:Hn; [|now apply IH].
  apply Ascii.eqb_eq in Hn. subst a. discriminate.
Qed.

Lemma count_lines_escaped bytes t :
  rxp_escape_pattern bytes = Some t -> count_lines t = 0%nat.
Proof.
  intros (-> & _)%rxp_escape_pattern_text. unfold count_lines.
  now rewrite (no_newline_in_escape _ (escaped_text_chars bytes)).
Qed.

Lemma count_lines_rule_line id bytes t :
  rxp_escape_pattern bytes = Some t -> count_lines (rule_line id t) = 1%nat.
Proof.
  intros Ht. unfold rule_line.
  rewrite !count_lines_append, count_lines_decimal, (count_lines_escaped bytes t Ht).
  reflexivity.
Qed.

Lemma count_lines_subset_header subset : count_lines (subset_header subset) = 1%nat.
Proof.
  unfold subset_header. rewrite !count_lines_append, count_lines_decimal.
  reflexivity.
Qed.

Lemma count_lines_rule_lines g ps :
  texts_escaped g ->
  (forall p, In p ps -> exists s, text_of g p = Some s) ->
  count_lines (rule_lines (heap g) ps) = List.length ps.
Proof.
  intros Hesc. induction ps as [|p ps IH]; intros Hall; [reflexivity|].
  destruct (Hall p) as (s & Hs); [now left|].
  apply text_of_Some in Hs. destruct Hs as (P & HP & HPs).
  cbn [rule_lines List.length]. rewrite HP, HPs.
  destruct (Hesc P s (In_lookup _ _ _ HP) HPs) as (bytes & Hb).
  rewrite count_lines_append, (count_lines_rule_line _ bytes s Hb).
  rewrite IH by (intros q Hq; apply Hall; now right). reflexivity.
Qed.

Lemma count_lines_stanzas g es :
  texts_escaped g -> forall subset,
  (forall e, In e es -> texts_present g e) ->
  count_lines (stanzas (heap g) es subset) =
    (List.length es + List.length (concat (map pats es)))%nat.
Proof.
  intros Hesc. induction es as [|e es IH]; intros subset Hall; [reflexivity|].
  cbn [stanzas map concat List.length].
  rewrite !count_lines_append, count_lines_subset_header.
  rewrite count_lines_rule_lines by (try exact Hesc; apply Hall; now left).
  rewrite IH by (intros e' He'; apply Hall; now right).
  rewrite length_app. lia.
Qed.

(** *** A pattern without a text *)

Lemma write_rules_outcome g ps : forall out,
  (forall p, In p ps -> (p < List.length (heap g))%nat) ->
  ((forall p, In p ps -> exists s, text_of g p = Some s) /\
   exists out', write_rules ps out g = Ok (out', g)) \/
  ((exists p, In p ps /\ text_of g p = None) /\
   write_rules ps out g = Fault NullDeref).
Proof.
  induction ps as [|p ps IH]; intros out Hv.
  - left. split; [intros p []|]. now exists out.
  - destruct (lookup_lt_is_Some_2 (heap g) p (Hv p (or_introl eq_refl))) as (P & HP).
    assert (Htext : text_of g p = pat P) by (unfold text_of; now rewrite HP).
    cbn [write_rules]. unfold write_rule, bind.
    rewrite (load_pattern_Ok g p P HP).
    destruct (pat P) as [t|] eqn:HPt; cbn [deref ret].
    + destruct (IH (String.append out (rule_line (ruleid P) t)))
        as [(Hall & out' & Hrun)|((q & Hq & Hnone) & Hrun)];
        [intros q Hq; apply Hv; now right| |].
      * left. split; [|now exists out'].
        intros q [<-|Hq]; [now exists t|now apply Hall].
      * right. split; [|exact Hrun]. exists q. split; [now right|exact Hnone].
    + right. split; [|reflexivity]. exists p. split; [now left|exact Htext].
Qed.

Lemma write_subsets_null g es : forall subset out,
  (forall e p, In e es -> In p (pats e) -> (p < List.length (heap g))%nat) ->
  (exists e p, In e es /\ In p (pats e) /\ text_of g p = None) ->
  write_subsets es subset out g = Fault NullDeref.
Proof.
  induction es as [|e es IH]; intros subset out Hv (e0 & p & He0 & Hp & Hnone);
    [destruct He0|].
  cbn [write_subsets]. unfold bind.
  destruct (write_rules_outcome g (pats e) (String.append out (subset_header subset)))
    as [(Hall & out' & Hrun)|(_ & Hrun)];
    [intros q Hq; apply (Hv e q); [now left|exact Hq]| |]; rewrite Hrun;
    [|reflexivity].
  apply IH; [intros e' q He' Hq; apply (Hv e' q); [now right|exact Hq]|].
  destruct He0 as [->|He0].
  - destruct (Hall p Hp) as (s & Hs). congruence.
  - now exists e0, p.
Qed.

(** X21. Once an instance holds a pattern without a text, which is what
    [add_pattern] leaves behind when it is given no bytes and returns,
    [write_rule_file] dereferences a null pointer, whichever instance holds
    the pattern and whatever else is registered. *)
Theorem rule_file_of_empty_pattern_faults g this e p filename :
  reachable any_call g ->
  Z.of_nat (List.length (instances g)) < 2 ^ 32 ->
  instances g !! this = Some e -> In p (pats e) -> text_of g p = None ->
  write_rule_file filename g = Fault NullDeref.
Proof.
  intros Hg Hb He Hp Hnone. unfold write_rule_file, bind, gets.
  destruct (Z.leb_spec (2 ^ 32) (Z.of_nat (List.length (instances g)))); [lia|].
  rewrite (write_subsets_null g (instances g) 0
             (String.append rule_file_header endl)); [reflexivity| |].
  - intros e' q He' Hq. apply (reachable_pats_valid g Hg e' q He' Hq).
  - exists e, p. split; [eapply In_lookup; eauto|auto].
Qed.

Lemma with_empty_pattern_any : reachable any_call with_empty_pattern.
Proof.
  apply (run_calls_reachable any_call
           [call_rxp_ctor quiet_agent; call_add_pattern 0 [] plain 101]
           process_start); [constructor| |vm_compute; reflexivity].
  repeat (apply List.Forall_cons; [exact I|]). apply List.Forall_nil.
Qed.

Lemma rule_file_of_empty_pattern_faults_witness :
  write_rule_file "/tmp/snort3.rules" with_empty_pattern = Fault NullDeref.
Proof.
  apply (rule_file_of_empty_pattern_faults with_empty_pattern 0
           (instance_at with_empty_pattern 0) 0 "/tmp/snort3.rules").
  - apply with_empty_pattern_any.
  - vm_compute. reflexivity.
  - vm_compute. reflexivity.
  - vm_compute. auto.
  - vm_compute. reflexivity.
Defined.
(** *** What changes the rule file *)

Lemma rule_lines_printed h h' ps :
  (forall p, printed <$> h' !! p = printed <$> h !! p) ->
  rule_lines h' ps = rule_lines h ps.
Proof.
  intros Hsame. induction ps as [|p ps IH]; [reflexivity|].
  cbn [rule_lines]. specialize (Hsame p).
  destruct (h' !! p) as [P'|], (h !! p) as [P|]; try discriminate;
    [|exact IH].
  injection Hsame as Hpat Hid. rewrite Hpat, Hid, IH. reflexivity.
Qed.

Lemma stanzas_printed h h' es :
  (forall p, printed <$> h' !! p = printed <$> h !! p) ->
  forall subset, stanzas h' es subset = stanzas h es subset.
Proof.
  intros Hsame. induction es as [|e es IH]; intros subset; [reflexivity|].
  cbn [stanzas]. now rewrite (rule_lines_printed h h' _ Hsame), IH.
Qed.

Lemma shapes_printed h h' :
  map shape h' = map shape h ->
  forall p, printed <$> h' !! p = printed <$> h !! p.
Proof.
  intros Hs p. destruct (h !! p) as [P|] eqn:HP.
  - destruct (shapes_lookup h h' p P Hs HP) as (P' & -> & Hsh).
    cbn. unfold printed. unfold shape in Hsh. congruence.
  - assert (H : map shape h' !! p = None) by now rewrite Hs, list_lookup_fmap, HP.
    rewrite list_lookup_fmap in H. now destruct (h' !! p).
Qed.

Lemma step_rule_file_text g g' :
  step true g g' ->
  List.length (heap g') = List.length (heap g) ->
  List.length (instances g') = List.length (instances g) ->
  rule_file_text g' = rule_file_text g.
Proof.
  intros Hstep Hh Hi. unfold rule_file_text.
  destruct Hstep as [a g|this e q Q t u g He Hq HQ HQt
                    |this e bytes desc u g He|g g' Hs Hin Hc|g _].
  - cbn [instances set_instances] in Hi. rewrite length_app in Hi.
    cbn [List.length] in Hi. rewrite Nat.add_1_r in Hi.
    destruct (Nat.neq_succ_diag_l _ Hi).
  - cbn [heap instances set_heap set_duplicates].
    do 2 f_equal. apply stanzas_printed. intros p.
    destruct (decide (p = q)) as [->|Hne].
    + rewrite list_lookup_insert_eq by (now apply lookup_lt_Some in HQ).
      now rewrite HQ.
    + now rewrite list_lookup_insert_ne by congruence.
  - cbn [heap with_new_pattern] in Hh. rewrite length_app in Hh.
    cbn [List.length] in Hh. rewrite Nat.add_1_r in Hh.
    destruct (Nat.neq_succ_diag_l _ Hh).
  - rewrite Hin. do 2 f_equal. apply stanzas_printed. now apply shapes_printed.
  - reflexivity.
Qed.

(** *** Subsets *)

Lemma stanzas_lookup h es : forall subset i e,
  0 <= subset -> subset + Z.of_nat (List.length es) < 2 ^ 32 ->
  es !! i = Some e ->
  exists before after,
    stanzas h es subset =
    String.append before
      (String.append (subset_header (subset + Z.of_nat i))
         (String.append (rule_lines h (pats e)) after)).
Proof.
  induction es as [|e0 es IH]; intros subset i e H0 Hb Hi; [discriminate|].
  cbn [List.length] in Hb. destruct i as [|i]; cbn in Hi.
  - injection Hi as ->. exists EmptyString, (stanzas h es (wrap32 (subset + 1))).
    cbn [stanzas]. rewrite Z.add_0_r. reflexivity.
  - assert (Hw : wrap32 (subset + 1) = subset + 1)
      by (unfold wrap32; apply Z.mod_small; lia).
    destruct (IH (subset + 1) i e) as (before & after & Heq); [lia|lia|exact Hi|].
    exists (String.append (subset_header subset)
              (String.append (rule_lines h (pats e0)) before)), after.
    replace (subset + Z.of_nat (S i)) with (subset + 1 + Z.of_nat i) by lia.
    cbn [stanzas]. rewrite Hw, Heq, !string_append_assoc. reflexivity.
Qed.

Lemma rxp_search_inv lib fuel this buf n mf pv g r g' :
  rxp_search lib fuel this buf n mf pv g = Ok (r, g') ->
  r = 0 /\
  exists e evs limit,
    instances g !! this = Some e /\
    (limit = match_limit g \/ limit = wrap64 (match_limit g + 1)) /\
    g' = set_trace (trace g ++ submission lib g e buf n ++ evs)
           (set_match_limit limit
              (set_jobs_submitted (wrap64 (jobs_submitted g + 1)) g)).
Proof.
  intros H. unfold rxp_search in H.
  apply bind_Ok_inv in H. destruct H as (s & g1 & H1 & H).
  apply bind_Ok_inv in H. destruct H as ([] & g2 & H2 & H).
  apply bind_Ok_inv in H. destruct H as ([] & g4 & H4 & [= <- <-]).
  injection H4 as <-. split; [reflexivity|].
  destruct (submit_and_await_inv _ _ _ _ _ _ _ _ H1) as (e & evs1 & He & ->).
  destruct (process_response_inv _ _ _ _ _ _ _ _ H2) as (evs2 & limit & Hl & ->).
  exists e, (evs1 ++ evs2 ++ [rxp_free_buffer (fst (fst s))]), limit.
  split; [exact He|]. split; [exact Hl|].
  unfold set_trace, set_match_limit, set_jobs_submitted. cbn. f_equal.
  now rewrite <- !app_assoc.
Qed.

(** ** Destruction *)

Lemma in_process_inv {A} (m : M Global A) pr a pr' :
  in_process m pr = Ok (a, pr') ->
  exists g, m (statics pr) = Ok (a, g) /\
            pr' = mkProcess g (destroyed pr) (frees pr).
Proof.
  unfold in_process. destruct (m (statics pr)) as [[a0 g]| |]; try discriminate.
  intros [= <- <-]. now exists g.
Qed.

Lemma in_process_Ok {A} (m : M Global A) pr a :
  m (statics pr) = Ok (a, statics pr) -> in_process m pr = Ok (a, pr).
Proof. intros H. unfold in_process. rewrite H. now destruct pr. Qed.

Lemma set_heap_same g : set_heap (heap g) g = g.
Proof. now destruct g. Qed.

Lemma released_refl pr : released pr pr.
Proof. exists (heap (statics pr)). now rewrite set_heap_same. Qed.

Lemma released_trans pr1 pr2 pr3 :
  released pr1 pr2 -> released pr2 pr3 -> released pr1 pr3.
Proof.
  intros (h2 & Hs2 & Hsh2 & Hd2) (h3 & Hs3 & Hsh3 & Hd3).
  exists h3. rewrite Hs3, Hs2 in *. cbn in *.
  split; [reflexivity|]. split; congruence.
Qed.

Lemma dtor_context_inv f c pr c' pr' :
  dtor_context f c pr = Ok (c', pr') ->
  user c' = user c /\ statics pr' = statics pr /\ destroyed pr' = destroyed pr.
Proof.
  unfold dtor_context, bind, free_emit, modify, gets, ret.
  destruct (user c =? 0), (user_list c =? 0), (user_tree c =? 0);
    intros [= <- <-]; cbn; auto.
Qed.

Lemma dtor_contexts_inv f cs : forall pr cs' pr',
  dtor_contexts f cs pr = Ok (cs', pr') ->
  map user cs' = map user cs /\
  statics pr' = statics pr /\ destroyed pr' = destroyed pr.
Proof.
  induction cs as [|c cs IH]; intros pr cs' pr' H.
  - injection H as <- <-. auto.
  - cbn [dtor_contexts] in H.
    apply bind_Ok_inv in H. destruct H as (c' & pr1 & H1 & H).
    apply bind_Ok_inv in H. destruct H as (rest' & pr2 & H2 & H).
    injection H as <- <-.
    destruct (dtor_context_inv _ _ _ _ _ H1) as (Hu & Hs1 & Hd1).
    destruct (IH _ _ _ H2) as (Hus & Hs2 & Hd2).
    cbn. repeat split; congruence.
Qed.

Lemma dtor_pattern_released f p pr u pr' :
  dtor_pattern f p pr = Ok (u, pr') -> released pr pr'.
Proof.
  intros H. unfold dtor_pattern in H.
  apply bind_Ok_inv in H. destruct H as (P & pr1 & H1 & H).
  apply bind_Ok_inv in H. destruct H as (cs & pr2 & H2 & H).
  apply in_process_inv in H1. destruct H1 as (g1 & Hload & ->).
  unfold load_pattern in Hload.
  destruct (heap (statics pr) !! p) as [P0|] eqn:HP; [|discriminate].
  injection Hload as <- <-.
  destruct (dtor_contexts_inv _ _ _ _ _ H2) as (Hus & Hs2 & Hd2).
  apply in_process_inv in H. destruct H as (g3 & Hstore & ->).
  cbn in Hs2, Hd2. unfold store_pattern, modify in Hstore.
  rewrite Hs2 in Hstore. injection Hstore as Hg3. subst g3.
  exists (<[p := set_userctx cs P0]> (heap (statics pr))).
  cbn [statics destroyed].
  split; [reflexivity|]. split; [|exact Hd2].
  apply (shapes_insert _ p P0); [exact HP|].
  unfold shape. cbn. now rewrite Hus.
Qed.

Lemma dtor_patterns_released f ps : forall pr u pr',
  dtor_patterns f ps pr = Ok (u, pr') -> released pr pr'.
Proof.
  induction ps as [|p ps IH]; intros pr u pr' H.
  - injection H as _ <-. apply released_refl.
  - cbn [dtor_patterns] in H.
    apply bind_Ok_inv in H. destruct H as (u1 & pr1 & H1 & H).
    eapply released_trans; [eapply dtor_pattern_released|eapply IH]; eauto.
Qed.

(** The destructor of a live instance that returns has changed tree and
    list slots only, and the instance is from then on destroyed. *)
Lemma rxp_dtor_inv release this pr u pr' :
  rxp_dtor release this pr = Ok (u, pr') ->
  (this ∉ destroyed pr) /\
  (this < List.length (instances (statics pr)))%nat /\
  destroyed pr' = {[this]} ∪ destroyed pr /\
  exists h',
    statics pr' = set_heap h' (statics pr) /\
    map shape h' = map shape (heap (statics pr)).
Proof.
  intros H. unfold rxp_dtor in H.
  apply bind_Ok_inv in H. destruct H as (dead & pr0 & [= <- <-] & H).
  destruct (bool_decide (this ∈ destroyed pr)) eqn:Hdead; [discriminate|].
  apply bool_decide_eq_false in Hdead. split; [exact Hdead|].
  apply bind_Ok_inv in H. destruct H as (u1 & pr1 & H1 & H).
  unfold modify in H. injection H as _ Hpr'. subst pr'. unfold user_dtor in H1.
  apply bind_Ok_inv in H1. destruct H1 as (e & pr2 & He & H1).
  apply in_process_inv in He. destruct He as (g2 & He & ->).
  unfold this_instance in He.
  destruct (instances (statics pr) !! this) as [e0|] eqn:Hthis; [|discriminate].
  injection He as <- <-. split; [now apply lookup_lt_Some in Hthis|].
  destruct (dtor_patterns_released _ _ _ _ _ H1) as (h' & Hs & Hsh & Hd).
  cbn in Hs, Hsh, Hd. cbn. split; [now rewrite Hd|]. now exists h'.
Qed.

Lemma run_pcall_call_inv release c pr u pr' :
  run_pcall release (pcall_call c) pr = Ok (u, pr') ->
  run_call c (statics pr) = Ok (u, statics pr') /\
  destroyed pr' = destroyed pr /\ frees pr' = frees pr.
Proof.
  intros H. cbn [run_pcall] in H.
  apply bind_Ok_inv in H. destruct H as (dead & pr0 & [= <- <-] & H).
  assert (Hin : in_process (run_call c) pr = Ok (u, pr')).
  { destruct (subject c) as [this|]; [|exact H].
    destruct (bool_decide (this ∈ destroyed pr)); [discriminate|exact H]. }
  apply in_process_inv in Hin. destruct Hin as (g & Hrun & ->). auto.
Qed.

(** A process in which nothing was destroyed is a process of the calls
    other than the destructor. *)
Lemma reachable_process_alive release allowed pr :
  reachable_process release allowed pr ->
  destroyed pr = ∅ -> reachable allowed (statics pr).
Proof.
  induction 1 as [|pr pc pr' _ IH Hallowed Hrun]; intros Hnone;
    [constructor|].
  destruct pc as [c|this].
  - destruct (run_pcall_call_inv _ _ _ _ _ Hrun) as (Hcall & Hd & _).
    eapply reachable_call; [apply IH; congruence|exact Hallowed|exact Hcall].
  - destruct (rxp_dtor_inv _ _ _ _ _ Hrun) as (_ & _ & Hd & _).
    assert (Hin : this ∈ destroyed pr')
      by (rewrite Hd; apply elem_of_union_l; now apply elem_of_singleton).
    rewrite Hnone in Hin. destruct (not_elem_of_empty this Hin).
Qed.

Lemma reachable_in_process release allowed g :
  reachable allowed g ->
  reachable_process release allowed (mkProcess g ∅ []).
Proof.
  induction 1 as [|g c g' _ IH Hc Hrun]; [constructor|].
  apply (reachable_process_call release allowed _ (pcall_call c) _ IH Hc).
  cbn [run_pcall]. unfold bind, gets. cbn [destroyed].
  assert (Hin : in_process (run_call c) (mkProcess g ∅ []) =
                Ok (tt, mkProcess g' ∅ []))
    by (unfold in_process; cbn [statics]; now rewrite Hrun).
  destruct (subject c) as [this|]; [|exact Hin].
  rewrite bool_decide_false by apply not_elem_of_empty. exact Hin.
Qed.

Lemma step_instances_length b g g' :
  step b g g' ->
  (List.length (instances g) <= List.length (instances g'))%nat.
Proof.
  intros H. destruct H as [a g|this e q Q t u g He Hq HQ HQt
                          |this e bytes desc u g He|g g' Hs Hi Hc|g Hf]; cbn.
  - rewrite length_app. lia.
  - lia.
  - rewrite length_insert. lia.
  - rewrite Hi. lia.
  - lia.
Qed.

Lemma reachable_process_sound release pr :
  reachable_process release no_empty_pattern pr -> process_sound pr.
Proof.
  induction 1 as [|pr pc pr' _ (Htexts & Hdead) Hallowed Hrun].
  - split; [intros e []|]. intros i Hi. destruct (not_elem_of_empty i Hi).
  - destruct pc as [c|this].
    + destruct (run_pcall_call_inv _ _ _ _ _ Hrun) as (Hcall & Hd & _).
      split; [eapply run_call_keeps_texts; eauto|].
      intros i Hi. rewrite Hd in Hi. specialize (Hdead i Hi).
      pose proof (step_instances_length _ _ _
                    (proj1 (run_call_step c _ _ Hcall))). lia.
    + destruct (rxp_dtor_inv _ _ _ _ _ Hrun)
        as (_ & Hthis & Hd & h' & Hs & Hsh).
      unfold process_sound. rewrite Hs. split.
      * apply (texts_present_shapes (statics pr)); [exact Hsh|reflexivity|exact Htexts].
      * intros i Hi. rewrite Hd in Hi. cbn.
        apply elem_of_union in Hi. destruct Hi as [Hi|Hi]; [|auto].
        apply elem_of_singleton in Hi. now subst i.
Qed.

(** *** The rule file with instances destroyed *)

Lemma write_subsets_in_alive dead g es : forall subset out,
  0 <= subset -> subset + Z.of_nat (List.length es) < 2 ^ 32 ->
  (forall i, (i < List.length es)%nat -> (Z.to_nat subset + i)%nat ∉ dead) ->
  (forall e, In e es -> texts_present g e) ->
  write_subsets_in dead es subset out g =
    Ok (String.append out (stanzas (heap g) es subset), g).
Proof.
  induction es as [|e es IH]; intros subset out H0 Hb Halive Hall.
  - cbn. now rewrite string_append_nil.
  - cbn [List.length] in Hb, Halive. cbn [write_subsets_in stanzas].
    rewrite bool_decide_false
      by (specialize (Halive 0%nat); rewrite Nat.add_0_r in Halive;
          apply Halive; lia).
    assert (Hw : wrap32 (subset + 1) = subset + 1)
      by (unfold wrap32; apply Z.mod_small; lia).
    unfold bind. rewrite write_rules_Ok by (apply Hall; now left).
    rewrite Hw. destruct (Z.eqb_spec (subset + 1) 0) as [|_]; [lia|].
    rewrite IH; [now rewrite !string_append_assoc|lia|lia| |].
    + intros i Hi. specialize (Halive (S i)).
      replace (Z.to_nat (subset + 1) + i)%nat with (Z.to_nat subset + S i)%nat
        by lia. apply Halive. lia.
    + intros e' He'. apply Hall. now right.
Qed.

Lemma write_subsets_in_dead dead g es : forall subset out,
  0 <= subset -> subset + Z.of_nat (List.length es) < 2 ^ 32 ->
  (exists i, (i < List.length es)%nat /\ (Z.to_nat subset + i)%nat ∈ dead) ->
  (forall e, In e es -> texts_present g e) ->
  write_subsets_in dead es subset out g = Fault BadAddress.
Proof.
  induction es as [|e es IH]; intros subset out H0 Hb (i & Hi & Hdead) Hall;
    [cbn in Hi; lia|].
  cbn [List.length] in Hb, Hi. cbn [write_subsets_in].
  destruct (bool_decide (Z.to_nat subset ∈ dead)) eqn:Hhead; [reflexivity|].
  apply bool_decide_eq_false in Hhead.
  assert (Hw : wrap32 (subset + 1) = subset + 1)
    by (unfold wrap32; apply Z.mod_small; lia).
  unfold bind. rewrite write_rules_Ok by (apply Hall; now left).
  rewrite Hw. destruct (Z.eqb_spec (subset + 1) 0) as [|_]; [lia|].
  destruct i as [|i]; [rewrite Nat.add_0_r in Hdead; contradiction|].
  apply IH; [lia|lia| |intros e' He'; apply Hall; now right].
  exists i. split; [lia|].
  replace (Z.to_nat (subset + 1) + i)%nat with (Z.to_nat subset + S i)%nat by lia.
  exact Hdead.
Qed.

Lemma write_rule_file_in_Ok pr filename :
  destroyed pr = ∅ ->
  all_texts_present (statics pr) ->
  Z.of_nat (List.length (instances (statics pr))) < 2 ^ 32 ->
  write_rule_file_in filename pr = Ok ((0, rule_file_text (statics pr)), pr).
Proof.
  intros Hnone Hall Hb. unfold write_rule_file_in, bind, gets.
  rewrite (in_process_Ok _ pr
             (String.append (String.append rule_file_header endl)
                (stanzas (heap (statics pr)) (instances (statics pr)) 0))).
  - unfold rule_file_text. now rewrite string_append_assoc.
  - apply write_subsets_in_alive; [lia|lia| |exact Hall].
    intros i _. rewrite Hnone. apply not_elem_of_empty.
Qed.

Lemma write_rule_file_in_dangling pr filename :
  process_sound pr ->
  destroyed pr <> ∅ ->
  Z.of_nat (List.length (instances (statics pr))) < 2 ^ 32 ->
  write_rule_file_in filename pr = Fault BadAddress.
Proof.
  intros (Hall & Hdead) Hsome Hb.
  apply set_choose_L in Hsome. destruct Hsome as (i & Hi).
  unfold write_rule_file_in, bind, gets, in_process.
  rewrite (write_subsets_in_dead (destroyed pr) (statics pr)
             (instances (statics pr)) 0); [reflexivity|lia|lia| |exact Hall].
  exists i. split; [now apply Hdead|exact Hi].
Qed.

Lemma two_instances_alive_reachable release :
  reachable_process release no_empty_pattern two_instances_alive.
Proof. apply reachable_in_process, two_instances_no_empty. Qed.

(** X20. In a process of constructors, [add_pattern], [prep_patterns],
    searches, [rxp_init] and destructors that returned, with no pattern of
    length zero and fewer than 2^32 instances: as long as no instance has
    been destroyed, [write_rule_file] returns 0 and leaves the process as
    it is, and what it has written has one line for the header, one for
    every instance and one for every pattern object (a pattern takes one
    line whatever its bytes, and every pattern is listed once); once an
    instance has been destroyed, [write_rule_file] dereferences the
    pointer the destructor left in [instances]. *)
Theorem rule_file_has_a_line_per_pattern release pr filename :
  reachable_process release no_empty_pattern pr ->
  Z.of_nat (List.length (instances (statics pr))) < 2 ^ 32 ->
  (destroyed pr = ∅ ->
   exists text,
     write_rule_file_in filename pr = Ok ((0, text), pr) /\
     count_lines text =
       (1 + List.length (instances (statics pr)) +
        List.length (heap (statics pr)))%nat) /\
  (destroyed pr <> ∅ ->
   write_rule_file_in filename pr = Fault BadAddress).
Proof.
  intros Hpr Hb. split.
  - intros Hnone.
    pose proof (reachable_process_alive _ _ _ Hpr Hnone) as Hg.
    assert (Hany : reachable any_call (statics pr))
      by (apply (reachable_weaken no_empty_pattern); [intros; exact I|exact Hg]).
    destruct (reachable_texts_present_distinct _ Hg) as (Hall & _).
    exists (rule_file_text (statics pr)).
    split; [now apply write_rule_file_in_Ok|].
    unfold rule_file_text. rewrite !count_lines_append.
    rewrite (count_lines_stanzas _ _ (reachable_texts_escaped _ Hany) 0 Hall).
    pose proof (reachable_pats_partition _ Hany) as Hperm.
    unfold pats_partition in Hperm.
    rewrite (Permutation_length Hperm), length_seq. reflexivity.
  - intros Hsome. apply write_rule_file_in_dangling; [|exact Hsome|exact Hb].
    apply (reachable_process_sound release), Hpr.
Qed.

Lemma rule_file_has_a_line_per_pattern_witness :
  (destroyed two_instances_alive = ∅ ->
   exists text,
     write_rule_file_in "/tmp/snort3.rules" two_instances_alive =
       Ok ((0, text), two_instances_alive) /\
     count_lines text =
       (1 + List.length (instances (statics two_instances_alive)) +
        List.length (heap (statics two_instances_alive)))%nat) /\
  (destroyed two_instances_alive <> ∅ ->
   write_rule_file_in "/tmp/snort3.rules" two_instances_alive =
     Fault BadAddress).
Proof.
  apply (rule_file_has_a_line_per_pattern clearing_release two_instances_alive
           "/tmp/snort3.rules").
  - apply two_instances_alive_reachable.
  - vm_compute. reflexivity.
Defined.

(** The process with two instances: the rule file before and after the
    first instance is destroyed. *)
Example rule_file_before_rxp_dtor :
  exists text,
    write_rule_file_in "/tmp/snort3.rules" two_instances_alive =
      Ok ((0, text), two_instances_alive) /\
    count_lines text = 6%nat.
Proof. eexists. split; vm_compute; reflexivity. Qed.

Example rule_file_after_rxp_dtor :
  run_pcall clearing_release (pcall_rxp_dtor 0) two_instances_alive =
    Ok (tt, first_instance_destroyed) /\
  write_rule_file_in "/tmp/snort3.rules" first_instance_destroyed =
    Fault BadAddress.
Proof. split; vm_compute; reflexivity. Qed.

(** X22. In such a process (no pattern of length zero, fewer than 2^32
    instances), a call that returns, after which no instance is destroyed,
    and that has made no pattern object and no instance (a duplicate
    [add_pattern], [prep_patterns], a search, [rxp_init]) leaves what
    [write_rule_file] writes as it was: the added handle of a duplicate,
    finalisation, searches and [rxp_init] do not show in the rule file. *)
Theorem rule_file_changes_with_patterns_only release pr pc pr' filename :
  reachable_process release no_empty_pattern pr ->
  allowed_pcall no_empty_pattern pc ->
  Z.of_nat (List.length (instances (statics pr))) < 2 ^ 32 ->
  run_pcall release pc pr = Ok (tt, pr') ->
  destroyed pr' = ∅ ->
  List.length (heap (statics pr')) = List.length (heap (statics pr)) ->
  List.length (instances (statics pr')) = List.length (instances (statics pr)) ->
  exists text,
    write_rule_file_in filename pr = Ok ((0, text), pr) /\
    write_rule_file_in filename pr' = Ok ((0, text), pr').
Proof.
  intros Hpr Hpc Hb Hrun Hnone' Hh Hi.
  assert (Hpr' : reachable_process release no_empty_pattern pr')
    by (eapply reachable_process_call; eauto).
  destruct pc as [c|this].
  2:{ destruct (rxp_dtor_inv _ _ _ _ _ Hrun) as (_ & _ & Hd & _).
      assert (Hin : this ∈ destroyed pr')
        by (rewrite Hd; apply elem_of_union_l; now apply elem_of_singleton).
      rewrite Hnone' in Hin. destruct (not_elem_of_empty this Hin). }
  destruct (run_pcall_call_inv _ _ _ _ _ Hrun) as (Hcall & Hd & _).
  assert (Hnone : destroyed pr = ∅) by congruence.
  pose proof (reachable_process_alive _ _ _ Hpr Hnone) as Hg.
  pose proof (reachable_process_alive _ _ _ Hpr' Hnone') as Hg'.
  exists (rule_file_text (statics pr)). split.
  - apply write_rule_file_in_Ok; [exact Hnone| |exact Hb].
    apply (reachable_texts_present_distinct _ Hg).
  - rewrite <- (step_rule_file_text _ _
                  (proj1 (run_call_step c _ _ Hcall)) Hh Hi).
    apply write_rule_file_in_Ok; [exact Hnone'| |now rewrite Hi].
    apply (reachable_texts_present_distinct _ Hg').
Qed.

Lemma rule_file_changes_with_patterns_only_witness :
  exists text,
    write_rule_file_in "/tmp/snort3.rules" two_instances_alive =
      Ok ((0, text), two_instances_alive) /\
    write_rule_file_in "/tmp/snort3.rules"
      (mkProcess
         (state_after (run_call (call_add_pattern 1 POST plain 105)) two_instances)
         ∅ []) =
      Ok ((0, text),
          mkProcess
            (state_after (run_call (call_add_pattern 1 POST plain 105))
               two_instances)
            ∅ []).
Proof.
  apply (rule_file_changes_with_patterns_only clearing_release
           two_instances_alive (pcall_call (call_add_pattern 1 POST plain 105))).
  - apply two_instances_alive_reachable.
  - cbn. discriminate.
  - vm_compute. reflexivity.
  - vm_compute. reflexivity.
  - reflexivity.
  - vm_compute. reflexivity.
  - vm_compute. reflexivity.
Defined.

(** X23. The rule file and the jobs name an instance alike. In such a
    process (no pattern of length zero, fewer than 2^32 instances) in which
    no instance has been destroyed, the instance at position [this] has the
    subset identifier [this + 1]; in the rule file the lines of its
    patterns stand under the header with that number, and every job it
    submits carries that number in its four subset fields. *)
Theorem rule_file_and_jobs_agree_on_subset release pr this e filename :
  reachable_process release no_empty_pattern pr ->
  destroyed pr = ∅ ->
  Z.of_nat (List.length (instances (statics pr))) < 2 ^ 32 ->
  instances (statics pr) !! this = Some e ->
  instance_id e = Z.of_nat this + 1 /\
  (exists before after,
     write_rule_file_in filename pr =
       Ok ((0, String.append before
                 (String.append "subset_id = "
                    (String.append (decimal (instance_id e))
                       (String.append endl
                          (String.append
                             (rule_lines (heap (statics pr)) (pats e)) after))))),
           pr)) /\
  (forall lib fuel buf n mf pv r g',
     rxp_search lib fuel this buf n mf pv (statics pr) = Ok (r, g') ->
     In (rxp_prepare_job (portid (statics pr))
           (wrap64 (jobs_submitted (statics pr) + 1)) buf
           (job_length lib n) 0 (instance_id e) (instance_id e)
           (instance_id e) (instance_id e))
        (trace g')).
Proof.
  intros Hpr Hnone Hb He.
  pose proof (reachable_process_alive _ _ _ Hpr Hnone) as Hg.
  set (g := statics pr) in *.
  assert (Hany : reachable any_call g)
    by (apply (reachable_weaken no_empty_pattern); [intros; exact I|exact Hg]).
  pose proof (lookup_lt_Some _ _ _ He) as Hlt.
  assert (Hid : instance_id e = Z.of_nat this + 1).
  { rewrite (reachable_instance_ids g Hany this e He).
    unfold wrap64. apply Z.mod_small. lia. }
  split; [exact Hid|]. split.
  - destruct (stanzas_lookup (heap g) (instances g) 0 this e) as (before & after & Heq);
      [lia|lia|exact He|].
    exists (String.append rule_file_header (String.append endl before)), after.
    rewrite write_rule_file_in_Ok;
      [|exact Hnone|apply (reachable_texts_present_distinct g Hg)|exact Hb].
    fold g. unfold rule_file_text. rewrite Heq. unfold subset_header.
    assert (Hw : wrap32 (0 + Z.of_nat this + 1) = instance_id e).
    { rewrite Hid. unfold wrap32. apply Z.mod_small. lia. }
    rewrite Hw, !string_append_assoc. reflexivity.
  - intros lib fuel buf n mf pv r g' Hrun.
    destruct (rxp_search_inv _ _ _ _ _ _ _ _ _ _ Hrun)
      as (_ & e0 & evs & limit & He0 & _ & ->).
    assert (e0 = e) by congruence. subst e0.
    cbn. unfold submission.
    apply in_or_app. right. apply in_or_app. left.
    apply in_or_app. right. now left.
Qed.

Lemma rule_file_and_jobs_agree_on_subset_witness :
  instance_id (instance_at two_instances 1) = Z.of_nat 1 + 1 /\
  (exists before after,
     write_rule_file_in "/tmp/snort3.rules" two_instances_alive =
       Ok ((0, String.append before
                 (String.append "subset_id = "
                    (String.append (decimal (instance_id (instance_at two_instances 1)))
                       (String.append endl
                          (String.append
                             (rule_lines (heap (statics two_instances_alive))
                                (pats (instance_at two_instances 1))) after))))),
           two_instances_alive)) /\
  (forall lib fuel buf n mf pv r g',
     rxp_search lib fuel 1 buf n mf pv (statics two_instances_alive) = Ok (r, g') ->
     In (rxp_prepare_job (portid (statics two_instances_alive))
           (wrap64 (jobs_submitted (statics two_instances_alive) + 1)) buf
           (job_length lib n) 0 (instance_id (instance_at two_instances 1))
           (instance_id (instance_at two_instances 1))
           (instance_id (instance_at two_instances 1))
           (instance_id (instance_at two_instances 1)))
        (trace g')).
Proof.
  apply (rule_file_and_jobs_agree_on_subset clearing_release two_instances_alive 1
           (instance_at two_instances 1) "/tmp/snort3.rules").
  - apply two_instances_alive_reachable.
  - reflexivity.
  - vm_compute. reflexivity.
  - vm_compute. reflexivity.
Defined.

(** ** Set-up of the device *)



(** What [dpdk_init] does is decided by the first of its three calls that
    fails: it then logs one error and exits with -1 without making the
    calls after it; if none fails it returns 0 and has logged nothing. *)
Lemma dpdk_init_outcome env s :
  exists r calls logs,
    dpdk_init env s =
      Ok (r, {| registry := set_trace (trace (registry s) ++ logs) (registry s);
                setup_trace := setup_trace s ++ calls |}) /\
    forallb is_start_call calls = true /\
    ((r = Returned 0 /\ logs = [] /\
      calls = [rte_eal_init 4 ["snort"; "-c"; "1"; "--"]%string;
               rxp_port_init (portid (registry s)) 1 1;
               rxp_device_init (portid (registry s))]) \/
     (r = Exited (-1) /\ exists message, logs = [LogMessage message []])).
Proof.
  unfold dpdk_init, bind, setup_emit, modify, gets, fail_with, in_registry, emit.
  cbn [registry setup_trace].
  destruct (rte_eal_init_result env _ <? 0).
  { eexists _, [_], [_]. split; [reflexivity|]. split; [reflexivity|].
    right. split; [reflexivity|]. now eexists. }
  cbn [registry setup_trace].
  destruct (negb (rxp_port_init_result env _ =? 0)).
  { eexists _, [_; _], [_]. rewrite <- !app_assoc.
    split; [reflexivity|]. split; [reflexivity|].
    right. split; [reflexivity|]. now eexists. }
  cbn [registry setup_trace].
  destruct (negb (rxp_device_init_result env _ =? 0)).
  { eexists _, [_; _; _], [_]. rewrite <- !app_assoc.
    split; [reflexivity|]. split; [reflexivity|].
    right. split; [reflexivity|]. now eexists. }
  eexists _, [_; _; _], []. rewrite <- !app_assoc, set_trace_same.
  split; [reflexivity|]. split; [reflexivity|]. left. auto.
Qed.




(** X25. When [rxp_setup] ends the process, it does so with the status -1 and
    one error logged, after the rule file was written and the compiler was
    run, and without loading any rules or enabling the port: between the
    compiler and the exit there are calls of the start-up of DPDK, of the
    port and of the RXP only. *)
Theorem rxp_setup_exit_is_from_dpdk_init env s status s' :
  rxp_setup env s = Ok (Exited status, s') ->
  status = -1 /\
  exists text calls message,
    setup_trace s' =
      setup_trace s ++
      rulesfile_written "/tmp/snort3.rules" text :: system_call rxpc_command ::
      calls /\
    forallb is_start_call calls = true /\
    trace (registry s') = trace (registry s) ++ [LogMessage message []].
Proof.
  intros H. unfold rxp_setup in H.
  apply bind_Ok_inv in H. destruct H as (w & s1 & Hw & H).
  apply bind_Ok_inv in H. destruct H as (b & s2 & Hbuild & H).
  apply bind_Ok_inv in H. destruct H as (started & s3 & Hstart & H).
  assert (Hs1 : exists text,
            s1 = {| registry := registry s;
                    setup_trace := setup_trace s ++
                      [rulesfile_written "/tmp/snort3.rules" text] |}).
  { unfold write_rule_file_to in Hw.
    apply bind_Ok_inv in Hw. destruct Hw as (r & s0 & Hr & Hw).
    unfold in_registry in Hr.
    destruct (write_rule_file "/tmp/snort3.rules" (registry s))
      as [[r0 g0]| |] eqn:Hfile; try discriminate.
    injection Hr as <- <-.
    destruct (write_rule_file_reads_only _ _ _ _ Hfile) as (-> & _).
    apply bind_Ok_inv in Hw. destruct Hw as ([] & s0' & Hemit & Hw).
    injection Hemit as <-. injection Hw as _ <-. now exists (snd r0). }
  destruct Hs1 as (text & ->).
  unfold build_rule_file, bind, setup_emit, modify, gets in Hbuild.
  cbn [registry setup_trace] in Hbuild. injection Hbuild as _ <-.
  destruct (dpdk_init_outcome env
              {| registry := registry s;
                 setup_trace :=
                   (setup_trace s ++
                    [rulesfile_written "/tmp/snort3.rules" text]) ++
                   [system_call
                      (String.append "rxpc -f "
                         (String.append "/tmp/snort3.rules"
                            (String.append " -o "
                               (String.append "/tmp/rules-dir"
                                  "/snort3 --ptpb 0 -F -i"))))] |})
    as (r & calls & logs & Hrun & Hcalls & Hcase).
  rewrite Hrun in Hstart. injection Hstart as <- <-.
  cbn [registry setup_trace] in *.
  destruct Hcase as [(-> & _ & _)|(-> & message & ->)].
  - apply bind_Ok_inv in H. destruct H as (x1 & s4 & _ & H).
    apply bind_Ok_inv in H. destruct H as (x2 & s5 & _ & H).
    apply bind_Ok_inv in H. destruct H as (x3 & s6 & _ & H). discriminate.
  - injection H as <- <-. split; [reflexivity|].
    exists text, calls, message. cbn [registry setup_trace trace set_trace].
    split; [|split; [exact Hcalls|reflexivity]].
    rewrite <- !app_assoc. reflexivity.
Qed.

Lemma rxp_setup_exit_is_from_dpdk_init_witness :
  -1 = -1 /\
  exists text calls message,
    setup_trace two_instances_port_failed =
      setup_trace two_instances_setup ++
      rulesfile_written "/tmp/snort3.rules" text :: system_call rxpc_command ::
      calls /\
    forallb is_start_call calls = true /\
    trace (registry two_instances_port_failed) =
      trace (registry two_instances_setup) ++ [LogMessage message []].
Proof.
  apply (rxp_setup_exit_is_from_dpdk_init failing_port two_instances_setup (-1)
           two_instances_port_failed).
  vm_compute. reflexivity.
Defined.
